(** * Audio-Visualizer: beat detection and canvas rendering

    A shallow embedding of the stateful cores of the application:

    - [useAudioManager.detectBeat] (the rolling bass-energy history and the
      inter-beat gap),
    - [VisualizerCanvas] (the five draw routines, [renderMode], the
      cross-fade in [render], the mode-change and resize effects, and the
      scrolling spectrogram buffer), and
    - the player controls: [setVolume] and [seekTo] of the hook, the
      window-size and keyboard handlers of [App], and [formatTime] and the
      progress-bar click of [ControlsPanel].

    JavaScript numbers are modelled as exact rationals extended with
    [Infinity], [-Infinity] and [NaN]; the rounding of IEEE-754 doubles and
    the sign of zero are not modelled there.  Where rounding decides the
    result (the beat threshold and the cross-fade progress) the same code
    is embedded a second time, in module [Double], over binary64 floats;
    statements about other computed values are given with the margin
    that rounding needs.  Typed arrays are lists of bytes, [useRef] and
    [useState] cells are fields of explicit state records, and
    [Date.now()] is an argument.  The canvas context records the painting
    calls it receives.  React's scheduling is not modelled: an animation
    frame, the mode-change effect and the resize effect are functions on
    the component state, and a run is a sequence of them. *)

From Stdlib Require Import QArith Qround Lqa ZArith List Lia Bool.
From Stdlib.Strings Require Import Byte String.
From Stdlib Require Import DecimalString.
From Stdlib Require Floats.
From stdpp Require Import base list.
Import ListNotations.

Local Open Scope nat_scope.

(** ** JavaScript numbers *)

Module JS.

Inductive number : Type :=
| Fin (q : Q)            (* a finite value *)
| Inf (negative : bool)  (* Infinity / -Infinity *)
| NaN.

Definition Qltb (x y : Q) : bool := negb (Qle_bool y x).
Definition Qis0 (x : Q) : bool := Qeq_bool x 0.

Definition of_Z (z : Z) : number := Fin (inject_Z z).
Definition of_nat (n : nat) : number := of_Z (Z.of_nat n).

(** [-a] *)
Definition neg (a : number) : number :=
  match a with
  | Fin x => Fin (- x)
  | Inf s => Inf (negb s)
  | NaN => NaN
  end.

(** [a + b] *)
Definition add (a b : number) : number :=
  match a, b with
  | NaN, _ | _, NaN => NaN
  | Fin x, Fin y => Fin (x + y)
  | Inf s, Fin _ | Fin _, Inf s => Inf s
  | Inf s, Inf t => if Bool.eqb s t then Inf s else NaN
  end.

(** [a - b] *)
Definition sub (a b : number) : number := add a (neg b).

(** [a * b] *)
Definition mul (a b : number) : number :=
  match a, b with
  | NaN, _ | _, NaN => NaN
  | Fin x, Fin y => Fin (x * y)
  | Inf s, Fin y | Fin y, Inf s =>
      if Qis0 y then NaN else Inf (xorb s (Qltb y 0))
  | Inf s, Inf t => Inf (xorb s t)
  end.

(** [a / b]: a zero divisor gives [NaN] for [0/0] and an infinity
    otherwise, as in JavaScript. *)
Definition div (a b : number) : number :=
  match a, b with
  | NaN, _ | _, NaN => NaN
  | Fin x, Fin y =>
      if Qis0 y then (if Qis0 x then NaN else Inf (Qltb x 0))
      else Fin (x / y)
  | Fin _, Inf _ => Fin 0
  | Inf s, Fin y => Inf (xorb s (Qltb y 0))
  | Inf _, Inf _ => NaN
  end.

(** [a < b]; every comparison with [NaN] is false. *)
Definition lt (a b : number) : bool :=
  match a, b with
  | Fin x, Fin y => Qltb x y
  | Fin _, Inf s => negb s
  | Inf s, Fin _ => s
  | Inf s, Inf t => s && negb t
  | _, _ => false
  end.

(** [a > b], [a >= b] *)
Definition gt (a b : number) : bool := lt b a.

Definition ge (a b : number) : bool :=
  match a, b with
  | Fin x, Fin y => Qle_bool y x
  | Fin _, Inf s => s
  | Inf s, Fin _ => negb s
  | Inf s, Inf t => negb s || t
  | _, _ => false
  end.

(** [Math.floor], [Math.min] *)
Definition Math_floor (a : number) : number :=
  match a with
  | Fin x => of_Z (Qfloor x)
  | _ => a
  end.

Definition Math_min (a b : number) : number :=
  match a, b with
  | NaN, _ | _, NaN => NaN
  | _, _ => if lt b a then b else a
  end.

(** Number of iterations of [for (let i = 0; i < bound; i++)]: the
    naturals below [bound].  A [NaN] bound fails the first test.  Every
    loop bound in this program is derived from an array length or a canvas
    dimension, so the non-terminating bound [Infinity] does not arise; it
    is given no iterations here. *)
Definition iterations (bound : number) : nat :=
  match bound with
  | Fin x => Z.to_nat (Qceiling x)
  | _ => 0
  end.

Definition for_lt {S : Type} (bound : number) (body : nat -> S -> S) (s : S) : S :=
  fold_left (fun acc i => body i acc) (seq 0 (iterations bound)) s.

(** Reading a [Uint8Array]: an element is a number in 0..255; a read out
    of range is [undefined], which arithmetic turns into [NaN]. *)
Definition u8 (b : byte) : number := of_Z (Z.of_N (Byte.to_N b)).

Definition get (a : list byte) (i : nat) : number :=
  match a !! i with
  | Some b => u8 b
  | None => NaN
  end.

(** Indexing with a computed number: only a non-negative integer value
    names an element. *)
Definition get_at (a : list byte) (i : number) : number :=
  match i with
  | Fin x =>
      if Qeq_bool x (inject_Z (Qfloor x)) && (0 <=? Qfloor x)%Z
      then get a (Z.to_nat (Qfloor x))
      else NaN
  | _ => NaN
  end.

End JS.

Import JS.

(** A byte literal for examples. *)
Definition byte_of (n : N) : byte :=
  match Byte.of_N n with
  | Some b => b
  | None => x00
  end.

(** ** useAudioManager: beat detection *)

Module AudioManager.

(** The exported [AudioData] and the hook's state. *)
Record AudioData : Type := mkAudioData {
  frequencyData : list byte;
  timeData : list byte;
  dataArray : list byte;
  beatDetected : bool;
  bassEnergy : number
}.

Record AudioManagerState : Type := mkAudioManagerState {
  isPlaying : bool;
  isLoading : bool;
  error : option string;
  audioData : option AudioData;
  duration : number;
  currentTime : number;
  volume : number
}.

(** The two refs [detectBeat] reads and writes. *)
Record BeatRefs : Type := mkBeatRefs {
  beatHistoryRef : list number;
  lastBeatTimeRef : Z
}.

(** The object [detectBeat] returns. *)
Module Beat.
Record BeatState : Type := mkBeatState {
  beatDetected : bool;
  bassEnergy : number
}.
End Beat.

(** [useRef<number[]>([])] and [useRef<number>(0)] *)
Definition initialRefs : BeatRefs := mkBeatRefs [] 0.

(** [Math.floor(frequencyData.length * 0.1)].  The double nearest to 0.1
    lies above 1/10 by less than 6e-18, which moves no product of a
    buffer length across an integer: the exact 1/10 gives the same floor. *)
Definition bassRange (frequencyData : list byte) : number :=
  Math_floor (mul (of_nat (length frequencyData)) (Fin (1 # 10))).

Definition bassSum (frequencyData : list byte) : number :=
  for_lt (bassRange frequencyData)
         (fun i acc => add acc (get frequencyData i)) (Fin 0).

(** [bassSum / bassRange], the raw bass energy pushed on the history. *)
Definition rawBassEnergy (frequencyData : list byte) : number :=
  div (bassSum frequencyData) (bassRange frequencyData).

(** [push] followed by the conditional [shift]. *)
Definition pushHistory (h : list number) (e : number) : list number :=
  let h1 := h ++ [e] in
  if 20 <? length h1 then tail h1 else h1.

(** [history.reduce((sum, val) => sum + val, 0) / history.length] *)
Definition average (h : list number) : number :=
  div (fold_left add h (Fin 0)) (of_nat (length h)).

(** [detectBeat(frequencyData)], with [currentTime = Date.now()] passed in. *)
Definition detectBeat (frequencyData : list byte) (currentTime : Z)
    (r : BeatRefs) : Beat.BeatState * BeatRefs :=
  let bassEnergy := rawBassEnergy frequencyData in
  let history := pushHistory (beatHistoryRef r) bassEnergy in
  let avgBassEnergy := average history in
  let beatThreshold := mul avgBassEnergy (Fin (3 # 2)) in
  let timeSinceLastBeat := (currentTime - lastBeatTimeRef r)%Z in
  let beatDetected :=
    gt bassEnergy beatThreshold
    && (200 <? timeSinceLastBeat)%Z
    && (10 <=? length history) in
  let lastBeat := if beatDetected then currentTime else lastBeatTimeRef r in
  (Beat.mkBeatState beatDetected (div bassEnergy (Fin 255)),
   mkBeatRefs history lastBeat).

(** [updateAudioData]: without an analyser node nothing happens; otherwise
    the two byte buffers it fills are analysed and published.  The
    re-scheduling through [requestAnimationFrame] is the caller's loop. *)
Definition updateAudioData (analyser : option (list byte * list byte))
    (now : Z) (r : BeatRefs) (state : AudioManagerState)
  : BeatRefs * AudioManagerState :=
  match analyser with
  | None => (r, state)
  | Some (frequencyData, timeData) =>
      let '(b, r) := detectBeat frequencyData now r in
      (r, mkAudioManagerState (isPlaying state) (isLoading state) (error state)
            (Some (mkAudioData frequencyData timeData frequencyData
                     (Beat.beatDetected b) (Beat.bassEnergy b)))
            (duration state) (currentTime state) (volume state))
  end.

(** One tick of the analysis loop is a call of [detectBeat]; a run is a
    list of (buffer, clock) pairs fed in order. *)
Definition Tick : Type := (list byte * Z)%type.

Fixpoint run (ticks : list Tick) (r : BeatRefs)
  : list Beat.BeatState * BeatRefs :=
  match ticks with
  | [] => ([], r)
  | (f, t) :: rest =>
      let '(b, r1) := detectBeat f t r in
      let '(bs, r2) := run rest r1 in
      (b :: bs, r2)
  end.

End AudioManager.

Import AudioManager.

(** ** VisualizerCanvas *)

Module Visualizer.

Inductive VisualizerMode : Type :=
| bars | waveform | circular | particles | spectrogram.

Definition mode_eqb (a b : VisualizerMode) : bool :=
  match a, b with
  | bars, bars | waveform, waveform | circular, circular
  | particles, particles | spectrogram, spectrogram => true
  | _, _ => false
  end.

(** *** The 2D context as a recorder

    The context keeps the drawing state the code assigns and appends every
    painting call to [ops] together with the style and [globalAlpha] in
    effect at the call.  The DOM's own validation of arguments (colour
    strings, zero-sized image data) is outside this model. *)

Inductive Color : Type :=
| Hex (s : string)
| Rgba (r g b : Z) (a : number).

Inductive Style : Type :=
| Solid (c : Color)
| LinearGradient (x0 y0 x1 y1 : number) (stops : list (number * Color))
| RadialGradient (x0 y0 r0 x1 y1 r1 : number) (stops : list (number * Color)).

Inductive PathCmd : Type :=
| MoveTo (x y : number)
| LineTo (x y : number)
| Arc (x y radius startAngle endAngle : number).

Record ImageData : Type := mkImageData {
  img_width : nat;
  img_height : nat;
  data : list byte   (* Uint8ClampedArray, RGBA, row-major *)
}.

Inductive DrawOp : Type :=
| ResetBitmap (w h : nat)
| FillRect (x y w h : number) (style : Style) (alpha : number)
| Stroke (path : list PathCmd) (style : Style) (width : number) (alpha : number)
| Fill (path : list PathCmd) (style : Style) (alpha : number)
| PutImageData (img : ImageData) (dx dy : number).

Record Context2D : Type := mkContext2D {
  canvas_width : nat;
  canvas_height : nat;
  globalAlpha : number;
  fillStyle : Style;
  strokeStyle : Style;
  lineWidth : number;
  path : list PathCmd;
  ops : list DrawOp          (* painting calls, in call order *)
}.

Definition set_globalAlpha (a : number) (c : Context2D) : Context2D :=
  mkContext2D (canvas_width c) (canvas_height c) a (fillStyle c)
              (strokeStyle c) (lineWidth c) (path c) (ops c).

Definition set_fillStyle (s : Style) (c : Context2D) : Context2D :=
  mkContext2D (canvas_width c) (canvas_height c) (globalAlpha c) s
              (strokeStyle c) (lineWidth c) (path c) (ops c).

Definition set_strokeStyle (s : Style) (c : Context2D) : Context2D :=
  mkContext2D (canvas_width c) (canvas_height c) (globalAlpha c) (fillStyle c)
              s (lineWidth c) (path c) (ops c).

Definition set_lineWidth (w : number) (c : Context2D) : Context2D :=
  mkContext2D (canvas_width c) (canvas_height c) (globalAlpha c) (fillStyle c)
              (strokeStyle c) w (path c) (ops c).

Definition set_path (p : list PathCmd) (c : Context2D) : Context2D :=
  mkContext2D (canvas_width c) (canvas_height c) (globalAlpha c) (fillStyle c)
              (strokeStyle c) (lineWidth c) p (ops c).

Definition emit (o : DrawOp) (c : Context2D) : Context2D :=
  mkContext2D (canvas_width c) (canvas_height c) (globalAlpha c) (fillStyle c)
              (strokeStyle c) (lineWidth c) (path c) (ops c ++ [o]).

Definition fillRect (x y w h : number) (c : Context2D) : Context2D :=
  emit (FillRect x y w h (fillStyle c) (globalAlpha c)) c.

Definition beginPath (c : Context2D) : Context2D := set_path [] c.

Definition moveTo (x y : number) (c : Context2D) : Context2D :=
  set_path (path c ++ [MoveTo x y]) c.

Definition lineTo (x y : number) (c : Context2D) : Context2D :=
  set_path (path c ++ [LineTo x y]) c.

Definition arc (x y r a0 a1 : number) (c : Context2D) : Context2D :=
  set_path (path c ++ [Arc x y r a0 a1]) c.

Definition stroke (c : Context2D) : Context2D :=
  emit (Stroke (path c) (strokeStyle c) (lineWidth c) (globalAlpha c)) c.

Definition fill (c : Context2D) : Context2D :=
  emit (Fill (path c) (fillStyle c) (globalAlpha c)) c.

Definition putImageData (img : ImageData) (dx dy : number) (c : Context2D)
  : Context2D :=
  emit (PutImageData img dx dy) c.

(** [ctx.createImageData(w, h)]: transparent black. *)
Definition createImageData (w h : nat) : ImageData :=
  mkImageData w h (replicate (w * h * 4) x00).

(** A fresh context of the given size (what assigning [canvas.width] or
    [canvas.height] leaves behind). *)
Definition freshContext (w h : nat) (log : list DrawOp) : Context2D :=
  mkContext2D w h (Fin 1) (Solid (Hex "#000000")) (Solid (Hex "#000000"))
              (Fin 1) [] (log ++ [ResetBitmap w h]).

(** Storing a number in a [Uint8ClampedArray]: round to nearest (ties to
    even) and clamp to 0..255; [NaN] (and so [undefined]) stores 0. *)
Definition roundHalfEven (x : Q) : Z :=
  let f := Qfloor x in
  let d := (x - inject_Z f)%Q in
  if Qltb d (1 # 2) then f
  else if Qltb (1 # 2) d then (f + 1)%Z
  else if Z.even f then f else (f + 1)%Z.

Definition toUint8Clamped (v : number) : byte :=
  match v with
  | Fin x => byte_of (Z.to_N (Z.max 0 (Z.min 255 (roundHalfEven x))))
  | Inf false => xff
  | Inf true => x00
  | NaN => x00
  end.

(** [arr[i] = v] on a typed array; out of range the store is dropped. *)
Definition store (i : nat) (v : number) (arr : list byte) : list byte :=
  <[i := toUint8Clamped v]> arr.

(** *** The draw routines *)

Definition drawBarSpectrum (frequencyData : list byte)
    (canvasWidth canvasHeight : nat) (beatDetected : bool)
    (bassEnergy : number) (ctx : Context2D) : Context2D :=
  let len := of_nat (length frequencyData) in
  let barCount := Math_min (div len (Fin 4)) (Fin 128) in
  let barWidth := div (of_nat canvasWidth) barCount in
  let barSpacing := mul barWidth (Fin (1 # 10)) in
  let actualBarWidth := sub barWidth barSpacing in
  let stops :=
    if beatDetected then
      [(Fin 0, Hex "#ef4444"); (Fin (1 # 2), Hex "#f97316"); (Fin 1, Hex "#eab308")]
    else
      let intensity := add (mul bassEnergy (Fin (1 # 2))) (Fin (1 # 2)) in
      [(Fin 0, Rgba 71 85 105 intensity);
       (Fin (1 # 2), Rgba 100 116 139 intensity);
       (Fin 1, Rgba 148 163 184 intensity)] in
  let gradient :=
    LinearGradient (Fin 0) (of_nat canvasHeight) (Fin 0) (Fin 0) stops in
  let ctx := set_fillStyle gradient ctx in
  for_lt barCount (fun i ctx =>
    let dataIndex := Math_floor (mul (div (of_nat i) barCount) len) in
    let barHeight :=
      mul (mul (div (get_at frequencyData dataIndex) (Fin 255))
               (of_nat canvasHeight)) (Fin (8 # 10)) in
    let barHeight :=
      if beatDetected then mul barHeight (Fin (12 # 10)) else barHeight in
    let x := add (mul (of_nat i) barWidth) (div barSpacing (Fin 2)) in
    let y := sub (of_nat canvasHeight) barHeight in
    let ctx := fillRect x y actualBarWidth barHeight ctx in
    let ctx := set_globalAlpha (Fin (2 # 10)) ctx in
    let ctx := fillRect x (of_nat canvasHeight) actualBarWidth
                        (mul (neg barHeight) (Fin (2 # 10))) ctx in
    set_globalAlpha (Fin 1) ctx) ctx.

Definition drawWaveform (timeData : list byte)
    (canvasWidth canvasHeight : nat) (ctx : Context2D) : Context2D :=
  let centerY := div (of_nat canvasHeight) (Fin 2) in
  let amplitude := mul (of_nat canvasHeight) (Fin (4 # 10)) in
  let gradient :=
    LinearGradient (Fin 0) (Fin 0) (of_nat canvasWidth) (Fin 0)
      [(Fin 0, Hex "#475569"); (Fin (1 # 2), Hex "#64748b"); (Fin 1, Hex "#94a3b8")] in
  let ctx := set_strokeStyle gradient ctx in
  let ctx := set_lineWidth (Fin 2) ctx in
  let ctx := beginPath ctx in
  let ctx :=
    for_lt (of_nat (length timeData)) (fun i ctx =>
      let x := mul (div (of_nat i) (of_nat (length timeData))) (of_nat canvasWidth) in
      let y := add centerY
                   (mul (div (sub (get timeData i) (Fin 128)) (Fin 128)) amplitude) in
      if Nat.eqb i 0 then moveTo x y ctx else lineTo x y ctx) ctx in
  stroke ctx.

(** [Math.cos], [Math.sin] and [Math.PI] are an interface of the
    platform; the draw routines are written against it. *)
Class MathLib : Type := {
  Math_cos : number -> number;
  Math_sin : number -> number;
  Math_PI : number
}.

Section Trigonometry.

Context `{Math : MathLib}.

Definition drawCircularSpectrum (frequencyData : list byte)
    (canvasWidth canvasHeight : nat) (ctx : Context2D) : Context2D :=
  let len := of_nat (length frequencyData) in
  let centerX := div (of_nat canvasWidth) (Fin 2) in
  let centerY := div (of_nat canvasHeight) (Fin 2) in
  let radius :=
    mul (Math_min (of_nat canvasWidth) (of_nat canvasHeight)) (Fin (3 # 10)) in
  let barCount := Math_min (div len (Fin 2)) (Fin 180) in
  let gradient :=
    RadialGradient centerX centerY (Fin 0) centerX centerY (mul radius (Fin 2))
      [(Fin 0, Hex "#475569"); (Fin (1 # 2), Hex "#64748b"); (Fin 1, Hex "#94a3b8")] in
  let ctx := set_strokeStyle gradient ctx in
  for_lt barCount (fun i ctx =>
    let angle := mul (mul (div (of_nat i) barCount) Math_PI) (Fin 2) in
    let dataIndex := Math_floor (mul (div (of_nat i) barCount) len) in
    let barHeight :=
      mul (mul (div (get_at frequencyData dataIndex) (Fin 255)) radius)
          (Fin (8 # 10)) in
    let x1 := add centerX (mul (Math_cos angle) radius) in
    let y1 := add centerY (mul (Math_sin angle) radius) in
    let x2 := add centerX (mul (Math_cos angle) (add radius barHeight)) in
    let y2 := add centerY (mul (Math_sin angle) (add radius barHeight)) in
    let ctx := beginPath ctx in
    let ctx := moveTo x1 y1 ctx in
    let ctx := lineTo x2 y2 ctx in
    let ctx := set_lineWidth (Fin 2) ctx in
    stroke ctx) ctx.

Definition drawParticles (frequencyData : list byte)
    (canvasWidth canvasHeight : nat) (beatDetected : bool)
    (bassEnergy : number) (ctx : Context2D) : Context2D :=
  let centerX := div (of_nat canvasWidth) (Fin 2) in
  let centerY := div (of_nat canvasHeight) (Fin 2) in
  let avgFreq :=
    div (fold_left (fun sum val => add sum (u8 val)) frequencyData (Fin 0))
        (of_nat (length frequencyData)) in
  let intensity := div avgFreq (Fin 255) in
  let particleCount := if beatDetected then 100 else 50 in
  let ctx :=
    if beatDetected
    then set_fillStyle (Solid (Rgba 239 68 68 (mul intensity (Fin (15 # 10))))) ctx
    else set_fillStyle (Solid (Rgba 100 116 139 intensity)) ctx in
  for_lt (of_nat particleCount) (fun i ctx =>
    let angle :=
      mul (mul (div (of_nat i) (of_nat particleCount)) Math_PI) (Fin 2) in
    let distance := mul intensity (Fin 200) in
    let size := add (Fin 2) (mul intensity (Fin 6)) in
    let distance := if beatDetected then mul distance (Fin (15 # 10)) else distance in
    let size := if beatDetected then mul size (Fin (13 # 10)) else size in
    let x := add centerX (mul (Math_cos angle) distance) in
    let y := add centerY (mul (Math_sin angle) distance) in
    let ctx := beginPath ctx in
    let ctx := arc x y size (Fin 0) (mul Math_PI (Fin 2)) ctx in
    fill ctx) ctx.

(** *** Component state

    The three [useState] cells, the [spectrogramDataRef] cell and the
    mounted canvas with its 2D context.  [renderCalls] is a ghost trace of
    the invocations of [renderMode] (mode, audio data, opacity argument),
    in call order; no code reads it. *)

Definition RenderCall : Type := (VisualizerMode * AudioData * number)%type.

Record State : Type := mkState {
  isTransitioning : bool;
  previousMode : VisualizerMode;
  transitionProgress : number;
  spectrogramDataRef : option ImageData;
  ctx : Context2D;
  renderCalls : list RenderCall
}.

Definition with_ctx (f : Context2D -> Context2D) (st : State) : State :=
  mkState (isTransitioning st) (previousMode st) (transitionProgress st)
          (spectrogramDataRef st) (f (ctx st)) (renderCalls st).

Definition set_spectrogramData (d : option ImageData) (st : State) : State :=
  mkState (isTransitioning st) (previousMode st) (transitionProgress st)
          d (ctx st) (renderCalls st).

Definition set_transition (active : bool) (progress : number) (st : State) : State :=
  mkState active (previousMode st) progress
          (spectrogramDataRef st) (ctx st) (renderCalls st).

Definition set_previousMode (m : VisualizerMode) (st : State) : State :=
  mkState (isTransitioning st) m (transitionProgress st)
          (spectrogramDataRef st) (ctx st) (renderCalls st).

Definition note_call (c : RenderCall) (st : State) : State :=
  mkState (isTransitioning st) (previousMode st) (transitionProgress st)
          (spectrogramDataRef st) (ctx st) (renderCalls st ++ [c]).

(** *** Spectrogram *)

(** The two nested copy loops: every pixel of columns [0 .. width-2] of
    the new buffer is read from one column to the right in the old one.
    The indices are computed from the current canvas size only. *)
Definition shiftLeft (old : list byte) (canvasWidth canvasHeight : nat)
    (new : list byte) : list byte :=
  for_lt (of_nat canvasHeight) (fun y new =>
    for_lt (sub (of_nat canvasWidth) (Fin 1)) (fun x new =>
      let srcIndex := (y * canvasWidth + (x + 1)) * 4 in
      let destIndex := (y * canvasWidth + x) * 4 in
      let new := store destIndex (get old srcIndex) new in
      let new := store (destIndex + 1) (get old (srcIndex + 1)) new in
      let new := store (destIndex + 2) (get old (srcIndex + 2)) new in
      store (destIndex + 3) (get old (srcIndex + 3)) new) new) new.

(** The new rightmost column.  With [canvasWidth = 0] the buffer is empty
    and every store is dropped, whatever the index. *)
Definition appendColumn (frequencyData : list byte) (frequencyBins : number)
    (canvasWidth : nat) (new : list byte) : list byte :=
  for_lt frequencyBins (fun y new =>
    let frequencyIndex :=
      Math_floor (mul (div (of_nat y) frequencyBins)
                      (of_nat (length frequencyData))) in
    let intensity := div (get_at frequencyData frequencyIndex) (Fin 255) in
    let r := Math_floor (mul intensity (Fin 255)) in
    let g := Math_floor (mul intensity (Fin 128)) in
    let b := Math_floor (mul (sub (Fin 1) intensity) (Fin 255)) in
    let pixelIndex := (y * canvasWidth + (canvasWidth - 1)) * 4 in
    let new := store pixelIndex r new in
    let new := store (pixelIndex + 1) g new in
    let new := store (pixelIndex + 2) b new in
    store (pixelIndex + 3) (Fin 255) new) new.

(** [for (let i = 0; i < data.length; i += 4) data[i + 3] = 255] *)
Definition fillOpaque (d : list byte) : list byte :=
  fold_left (fun d k => store (4 * k + 3) (Fin 255) d)
            (seq 0 ((length d + 3) / 4)) d.

Definition drawSpectrogram (frequencyData : list byte)
    (canvasWidth canvasHeight : nat) (st : State) : State :=
  let frequencyBins :=
    Math_min (div (of_nat (length frequencyData)) (Fin 2))
             (of_nat canvasHeight) in
  match spectrogramDataRef st with
  | Some imageData =>
      let newImageData := createImageData canvasWidth canvasHeight in
      let d := shiftLeft (data imageData) canvasWidth canvasHeight
                         (data newImageData) in
      let d := appendColumn frequencyData frequencyBins canvasWidth d in
      let newImageData := mkImageData canvasWidth canvasHeight d in
      let st := set_spectrogramData (Some newImageData) st in
      with_ctx (putImageData newImageData (Fin 0) (Fin 0)) st
  | None =>
      let imageData := createImageData canvasWidth canvasHeight in
      let imageData :=
        mkImageData canvasWidth canvasHeight (fillOpaque (data imageData)) in
      set_spectrogramData (Some imageData) st
  end.

(** *** renderMode and render *)

Definition renderMode (renderMode : VisualizerMode) (audioData : AudioData)
    (opacity : number) (st : State) : State :=
  let st := note_call (renderMode, audioData, opacity) st in
  let st :=
    if lt opacity (Fin 1) then with_ctx (set_globalAlpha opacity) st else st in
  let w := canvas_width (ctx st) in
  let h := canvas_height (ctx st) in
  let st :=
    match renderMode with
    | bars =>
        with_ctx (drawBarSpectrum (frequencyData audioData) w h
                    (beatDetected audioData) (bassEnergy audioData)) st
    | waveform =>
        with_ctx (drawWaveform (timeData audioData) w h) st
    | circular =>
        with_ctx (drawCircularSpectrum (frequencyData audioData) w h) st
    | particles =>
        with_ctx (drawParticles (frequencyData audioData) w h
                    (beatDetected audioData) (bassEnergy audioData)) st
    | spectrogram =>
        drawSpectrogram (frequencyData audioData) w h st
    end in
  if lt opacity (Fin 1) then with_ctx (set_globalAlpha (Fin 1)) st else st.

(** One animation frame.  [audioData] and [mode] are the props, the state
    cells are the committed ones, and the functional update of
    [transitionProgress] is applied at the end of the frame.  The canvas
    is mounted; a [null] audio prop skips the frame. *)
Definition render (audioData : option AudioData) (mode : VisualizerMode)
    (st : State) : State :=
  match audioData with
  | None => st
  | Some audioData =>
      let w := canvas_width (ctx st) in
      let h := canvas_height (ctx st) in
      let st :=
        with_ctx (set_fillStyle (Solid (Rgba 15 23 42 (Fin (1 # 10))))) st in
      let st := with_ctx (fillRect (Fin 0) (Fin 0) (of_nat w) (of_nat h)) st in
      if isTransitioning st && lt (transitionProgress st) (Fin 1) then
        let fadeOutOpacity := sub (Fin 1) (transitionProgress st) in
        let fadeInOpacity := transitionProgress st in
        let st :=
          if gt fadeOutOpacity (Fin 0)
          then renderMode (previousMode st) audioData fadeOutOpacity st
          else st in
        let st :=
          if gt fadeInOpacity (Fin 0)
          then renderMode mode audioData fadeInOpacity st
          else st in
        let newProgress := add (transitionProgress st) (Fin (5 # 100)) in
        if ge newProgress (Fin 1)
        then set_transition false (Fin 1) st
        else set_transition (isTransitioning st) newProgress st
      else
        renderMode mode audioData (Fin 1) st
  end.

End Trigonometry.

(** *** Effects *)

(** The mode-change effect. *)
Definition modeChangeEffect (mode : VisualizerMode) (st : State) : State :=
  if negb (mode_eqb mode (previousMode st)) then
    set_previousMode mode (set_transition true (Fin 0) st)
  else st.

(** The resize effect: set the canvas size and clear it. *)
Definition resizeEffect (width height : nat) (st : State) : State :=
  with_ctx (fun c =>
    let c := freshContext width height (ops c) in
    let c := set_fillStyle (Solid (Hex "#0f172a")) c in
    fillRect (Fin 0) (Fin 0) (of_nat width) (of_nat height) c) st.

(** The component after mounting with the given props. *)
Definition mount (mode : VisualizerMode) (width height : nat) : State :=
  resizeEffect width height
    (mkState false mode (Fin 0) None (freshContext width height []) []).

(** Pixel [(x, y)] of an RGBA buffer laid out for rows of [width] pixels. *)
Definition pixel (width : nat) (d : list byte) (x y : nat)
  : list (option byte) :=
  let i := (y * width + x) * 4 in
  [d !! i; d !! (i + 1); d !! (i + 2); d !! (i + 3)].

Definition black : list (option byte) :=
  [Some x00; Some x00; Some x00; Some xff].

End Visualizer.

Import Visualizer.

(** ** Vocabulary of the statements *)

(** Sum of a byte buffer, and the samples a run pushes. *)
Definition byteSum (l : list byte) : Z :=
  foldr (fun b s => (Z.of_N (Byte.to_N b) + s)%Z) 0%Z l.

Definition samples (ticks : list Tick) : list number :=
  map (fun t => rawBassEnergy (fst t)) ticks.

(** A finite number between 0 and 1. *)
Definition inUnitInterval (v : number) : Prop :=
  exists q, v = Fin q /\ (0 <= q)%Q /\ (q <= 1)%Q.

(** Arithmetic mean of rationals, and "the sample exceeds 1.5 times the
    mean of the history": stated for finite samples, the only ones for
    which it has a meaning. *)
Definition mean (qs : list Q) : Q :=
  (fold_left Qplus qs 0 / inject_Z (Z.of_nat (length qs)))%Q.

Definition exceedsMean (e : number) (h : list number) : Prop :=
  exists q qs, e = Fin q /\ h = map Fin qs /\ ((3 # 2) * mean qs < q)%Q.

(** Test buffers: ten bytes whose first one (the whole bass range) is the
    given value. *)
Definition bassBuffer (v : N) : list byte :=
  byte_of v :: replicate 9 x00.

(** The [globalAlpha] a painting call was made with. *)
Definition opAlpha (o : DrawOp) : option number :=
  match o with
  | FillRect _ _ _ _ _ a => Some a
  | Stroke _ _ _ a => Some a
  | Fill _ _ a => Some a
  | ResetBitmap _ _ => None
  | PutImageData _ _ _ => None
  end.

(** Number of bars [drawBarSpectrum] draws for a buffer. *)
Definition barsDrawn (frequencyData : list byte) : nat :=
  iterations (Math_min (div (of_nat (length frequencyData)) (Fin 4)) (Fin 128)).

(** The alphas of [n] bars, two fills each (bar, reflection), when the
    context enters the loop with alpha [first]. *)
Definition barAlphas (first : number) (n : nat) : list (option number) :=
  flat_map (fun i => [Some (if Nat.eqb i 0 then first else Fin 1);
                      Some (Fin (2 # 10))]) (seq 0 n).

(** *** Running the component

    The component reacts to animation frames (with the props of that
    frame), to a change of the [mode] prop and to a change of the size
    props.  How these interleave is left to the sequence of events. *)

Inductive Event : Type :=
| Frame (audioData : option AudioData) (mode : VisualizerMode)
| ModeChange (mode : VisualizerMode)
| Resize (width height : nat).

Section Running.

Context `{Math : MathLib}.

Definition step (ev : Event) (st : State) : State :=
  match ev with
  | Frame audioData mode => render audioData mode st
  | ModeChange mode => modeChangeEffect mode st
  | Resize width height => resizeEffect width height st
  end.

Definition runEvents (evs : list Event) (st : State) : State :=
  fold_left (fun s ev => step ev s) evs st.

(** Consecutive frames with audio. *)
Definition renderFrames (frames : list (AudioData * VisualizerMode))
    (st : State) : State :=
  fold_left (fun s f => render (Some (fst f)) (snd f) s)
            frames st.

End Running.

(** The state cells of the cross-fade are in range: the progress is a
    finite number in [0, 1], below 1 while the transition is active. *)
Definition progressOK (st : State) : Prop :=
  exists p, transitionProgress st = Fin p
            /\ (0 <= p)%Q /\ (p <= 1)%Q
            /\ (isTransitioning st = true -> (p < 1)%Q).

Definition callMode (c : RenderCall) : VisualizerMode := fst (fst c).
Definition callOpacity (c : RenderCall) : number := snd c.

(** Samples are finite or [NaN], never infinite. *)
Definition finOrNaN (v : number) : Prop :=
  v = NaN \/ exists q, v = Fin q.

(** Ten samples of 10 in the history, last beat at time 0. *)
Definition warmRefs : BeatRefs := mkBeatRefs (replicate 10 (Fin 10)) 0.

(** Sample inputs: an instance of the platform interface, an audio frame
    of eight bins (two bars) and a mounted 4 by 4 canvas. *)
Definition sampleMath : MathLib :=
  {| Math_cos := fun _ => Fin 1; Math_sin := fun _ => Fin 0;
     Math_PI := Fin (355 # 113) |}.

Definition sampleAudio : AudioData :=
  mkAudioData [xff; x80; x40; x20; x10; x08; x04; x02]
              [x80; x80; x80; x80; x80; x80; x80; x80]
              [xff; x80; x40; x20; x10; x08; x04; x02]
              false (Fin (1 # 2)).

(** ** Further vocabulary: beat detection *)

(** The bass range of a buffer holds only zero bytes. *)
Definition silentBass (f : list byte) : Prop :=
  Forall (fun b => b = x00) (take (length f / 10) f).

(** A finite number that is not negative. *)
Definition nonNegOrNaN (v : number) : Prop :=
  v = NaN \/ exists q, v = Fin q /\ (0 <= q)%Q.

(** ** Further vocabulary: painting *)

(** Painting calls made while the alpha of the context stays put all
    carry that alpha. *)
Definition paintsAt (alpha : number) (c c' : Context2D) : Prop :=
  globalAlpha c' = alpha
  /\ exists new, ops c' = ops c ++ new
                 /\ Forall (fun o => opAlpha o = Some alpha) new.

(** Sample state: a 3 by 2 canvas one frame into a blend from the bars to
    the spectrogram, and the buffer that frame allocated. *)
Definition blendingState : State :=
  @render sampleMath (Some sampleAudio) spectrogram
          (modeChangeEffect spectrogram (mount bars 3 2)).

Definition blackImage (w h : nat) : ImageData :=
  mkImageData w h (fillOpaque (replicate (w * h * 4) x00)).

(** The four numbers [appendColumn] stores for row [y], by channel. *)
Definition columnChannel (frequencyData : list byte) (frequencyBins : number)
    (y k : nat) : number :=
  let frequencyIndex :=
    Math_floor (mul (div (of_nat y) frequencyBins)
                    (of_nat (length frequencyData))) in
  let intensity := div (get_at frequencyData frequencyIndex) (Fin 255) in
  match k with
  | 0 => Math_floor (mul intensity (Fin 255))
  | 1 => Math_floor (mul intensity (Fin 128))
  | 2 => Math_floor (mul (sub (Fin 1) intensity) (Fin 255))
  | _ => Fin 255
  end.

(** The colour of a magnitude: red rises and blue falls with it, green is
    half of it, the pixel is opaque. *)
Definition heatColour (v : byte) : list (option byte) :=
  let n := Byte.to_N v in
  [Some v; Some (byte_of (n * 128 / 255)); Some (byte_of (255 - n)); Some xff].

(** ** More of the JavaScript library *)

Module JSMore.

(** [Math.max] *)
Definition Math_max (a b : number) : number :=
  match a, b with
  | NaN, _ | _, NaN => NaN
  | _, _ => if lt a b then b else a
  end.

(** [a === b] on numbers *)
Definition strictEq (a b : number) : bool :=
  match a, b with
  | Fin x, Fin y => Qeq_bool x y
  | Inf s, Inf t => Bool.eqb s t
  | _, _ => false
  end.

(** Rounding toward zero, and [a % b]: the remainder has the sign of the
    dividend; it is [NaN] for a zero divisor or an infinite dividend. *)
Definition Qtrunc (x : Q) : Z :=
  if Qltb x 0 then Qceiling x else Qfloor x.

Definition rem (a b : number) : number :=
  match a, b with
  | Fin x, Fin y =>
      if Qis0 y then NaN else Fin (x - y * inject_Z (Qtrunc (x / y)))
  | Fin x, Inf _ => Fin x
  | _, _ => NaN
  end.

(** [Number.prototype.toString] where this model follows it: [NaN], the
    infinities, and integers below 10^21 in magnitude, which print as
    their decimal digits.  Fractions and larger magnitudes are outside
    the model ([None]). *)
Definition toString (a : number) : option string :=
  match a with
  | NaN => Some "NaN"%string
  | Inf false => Some "Infinity"%string
  | Inf true => Some "-Infinity"%string
  | Fin x =>
      let z := Qfloor x in
      if Qeq_bool x (inject_Z z) && (Z.abs z <? 10 ^ 21)%Z
      then Some (NilZero.string_of_int (Z.to_int z))
      else None
  end.

(** [s.padStart(n, '0')] *)
Definition padStart0 (n : nat) (s : string) : string :=
  String.concat "" (replicate (n - String.length s) "0"%string) ++ s.

End JSMore.

Import JSMore.

(** ** useAudioManager: volume and seeking *)

Module Playback.

(** The [HTMLAudioElement] fields the hook assigns. *)
Module Element.
Record t : Type := mk {
  currentTime : number;
  volume : number
}.
End Element.

Record PlayerRefs : Type := mkPlayerRefs {
  audioElementRef : option Element.t;
  gainNodeRef : option number      (* gain.value of the gain node *)
}.

(** The hook's initial state. *)
Definition initialState : AudioManagerState :=
  mkAudioManagerState false false None None (Fin 0) (Fin 0) (Fin 1).

(** [setVolume(volume)] *)
Definition setVolume (volume : number) (refs : PlayerRefs)
    (state : AudioManagerState) : PlayerRefs * AudioManagerState :=
  let clampedVolume := Math_max (Fin 0) (Math_min (Fin 1) volume) in
  let state :=
    mkAudioManagerState (isPlaying state) (isLoading state) (error state)
      (audioData state) (duration state) (currentTime state) clampedVolume in
  let element :=
    match audioElementRef refs with
    | Some el => Some (Element.mk (Element.currentTime el) clampedVolume)
    | None => None
    end in
  let gain :=
    match gainNodeRef refs with
    | Some _ => Some clampedVolume
    | None => None
    end in
  (mkPlayerRefs element gain, state).

(** [seekTo(time)] *)
Definition seekTo (time : number) (refs : PlayerRefs)
    (state : AudioManagerState) : PlayerRefs * AudioManagerState :=
  match audioElementRef refs with
  | None => (refs, state)
  | Some el =>
      let clampedTime :=
        Math_max (Fin 0) (Math_min (duration state) time) in
      (mkPlayerRefs (Some (Element.mk clampedTime (Element.volume el)))
                    (gainNodeRef refs),
       mkAudioManagerState (isPlaying state) (isLoading state) (error state)
         (audioData state) (duration state) clampedTime (volume state))
  end.

End Playback.

Import Playback.

(** ** App: window size and keyboard shortcuts *)

Module App.

Record CanvasSize : Type := mkCanvasSize {
  width : number;
  height : number
}.

(** [handleResize]: the container's bounding rectangle, if the container
    is in the document. *)
Definition handleResize (container : option (number * number))
    (canvasSize : CanvasSize) : CanvasSize :=
  match container with
  | Some (rect_width, rect_height) =>
      mkCanvasSize
        (Math_max (Fin 400) (sub rect_width (Fin 32)))
        (Math_max (Fin 300) (Math_min (Fin 500) (sub rect_height (Fin 32))))
  | None => canvasSize
  end.

Inductive EventTarget : Type :=
| InputElement | TextAreaElement | OtherTarget.

Record KeyboardEvent : Type := mkKeyboardEvent {
  target : EventTarget;
  code : string
}.

(** The callbacks the handler can call. *)
Inductive Command : Type :=
| TogglePlayback
| SeekTo (time : number)
| SetVolume (volume : number)
| SetVisualizerMode (mode : VisualizerMode).

(** [handleKeyPress]: whether [preventDefault] was called, and the
    callback invoked, if any.  [duration], [currentTime] and [volume] are
    the hook's values the handler closes over. *)
Definition handleKeyPress (e : KeyboardEvent)
    (duration currentTime volume : number) : bool * option Command :=
  match target e with
  | InputElement | TextAreaElement => (false, None)
  | OtherTarget =>
      let code := code e in
      if String.eqb code "Space" then (true, Some TogglePlayback)
      else if String.eqb code "ArrowLeft" then
        (true,
         if gt duration (Fin 0)
         then Some (SeekTo (Math_max (Fin 0) (sub currentTime (Fin 10))))
         else None)
      else if String.eqb code "ArrowRight" then
        (true,
         if gt duration (Fin 0)
         then Some (SeekTo (Math_min duration (add currentTime (Fin 10))))
         else None)
      else if String.eqb code "ArrowUp" then
        (true, Some (SetVolume (Math_min (Fin 1) (add volume (Fin (1 # 10))))))
      else if String.eqb code "ArrowDown" then
        (true, Some (SetVolume (Math_max (Fin 0) (sub volume (Fin (1 # 10))))))
      else if String.eqb code "Digit1" then (true, Some (SetVisualizerMode bars))
      else if String.eqb code "Digit2" then (true, Some (SetVisualizerMode waveform))
      else if String.eqb code "Digit3" then (true, Some (SetVisualizerMode circular))
      else if String.eqb code "Digit4" then (true, Some (SetVisualizerMode particles))
      else if String.eqb code "Digit5" then (true, Some (SetVisualizerMode spectrogram))
      else if String.eqb code "KeyM" then
        (true, Some (SetVolume (if gt volume (Fin 0) then Fin 0 else Fin 1)))
      else (false, None)
  end.

End App.

(** ** ControlsPanel *)

Module ControlsPanel.

(** [formatTime(seconds)] *)
Definition formatTime (seconds : number) : option string :=
  let mins := Math_floor (div seconds (Fin 60)) in
  let secs := Math_floor (rem seconds (Fin 60)) in
  match toString mins, toString secs with
  | Some m, Some s => Some (m ++ ":" ++ padStart0 2 s)%string
  | _, _ => None
  end.

(** [handleProgressClick]: the time passed to [onSeek], if any. *)
Definition handleProgressClick (clientX rect_left rect_width : number)
    (duration : number) : option number :=
  if strictEq duration (Fin 0) then None
  else
    let x := sub clientX rect_left in
    let percentage := div x rect_width in
    let newTime := mul percentage duration in
    Some newTime.

(** The mode buttons, in display order. *)
Definition modes : list (VisualizerMode * string) :=
  [(bars, "Bar Spectrum"%string); (waveform, "Waveform"%string);
   (circular, "Circular"%string); (particles, "Particles"%string);
   (spectrogram, "Spectrogram"%string)].

End ControlsPanel.

(** The hook callback a command of the key handler stands for.  Toggling
    playback and switching the mode are not part of this model and leave
    the player as it is. *)
Definition perform (c : option App.Command) (refs : PlayerRefs)
    (state : AudioManagerState) : PlayerRefs * AudioManagerState :=
  match c with
  | Some (App.SetVolume v) => setVolume v refs state
  | Some (App.SeekTo t) => seekTo t refs state
  | _ => (refs, state)
  end.

(** A key pressed outside any input field, with the hook's current values. *)
Definition pressKey (code : string) (refs : PlayerRefs)
    (state : AudioManagerState) : PlayerRefs * AudioManagerState :=
  perform (snd (App.handleKeyPress (App.mkKeyboardEvent App.OtherTarget code)
                  (duration state) (currentTime state) (volume state)))
          refs state.

(** Sample player: a two-minute track at 0:30, element and gain present,
    volume one half. *)
Definition samplePlayer : PlayerRefs :=
  mkPlayerRefs (Some (Element.mk (Fin 30) (Fin (1 # 2)))) (Some (Fin (1 # 2))).

Definition sampleState : AudioManagerState :=
  mkAudioManagerState true false None None (Fin 120) (Fin 30) (Fin (1 # 2)).

(** Decimal digits of an integer. *)
Definition digits (z : Z) : string := NilZero.string_of_int (Z.to_int z).

(** The key codes [Digit1], [Digit2], ... *)
Definition digitKey (k : nat) : App.KeyboardEvent :=
  App.mkKeyboardEvent App.OtherTarget
    ("Digit" ++ NilZero.string_of_uint (Nat.to_uint k))%string.

(** A click on the progress bar, passed on to the hook's [seekTo]. *)
Definition clickProgress (clientX rect_left rect_width : number)
    (refs : PlayerRefs) (state : AudioManagerState)
  : PlayerRefs * AudioManagerState :=
  match ControlsPanel.handleProgressClick clientX rect_left rect_width
          (duration state) with
  | Some newTime => seekTo newTime refs state
  | None => (refs, state)
  end.


(** ** The same code in double precision

    [detectBeat] and the cross-fade of [render] once more, this time with
    the arithmetic JavaScript runs: IEEE-754 binary64, round to nearest,
    ties to even.  Clocks stay integers and the draw routines are those
    of [Visualizer]. *)

Module Double.

Import PrimFloat FloatOps SpecFloat.
Local Open Scope float_scope.
Local Set Warnings "-inexact-float".

(** An integer as a double (exact below 2^53). *)
Definition of_Z (z : Z) : float :=
  if (z <? 0)%Z then - of_uint63 (Uint63.of_Z (- z))
  else of_uint63 (Uint63.of_Z z).

Definition of_nat (n : nat) : float := of_Z (Z.of_nat n).

(** The integer part, rounded down, of the finite double [(-1)^s * m * 2^e]. *)
Definition floorZ (s : bool) (m : positive) (e : Z) : Z :=
  let n := if s then Z.neg m else Z.pos m in
  if (0 <=? e)%Z then (n * 2 ^ e)%Z else (n / 2 ^ (- e))%Z.

(** [Math.floor] *)
Definition Math_floor (a : float) : float :=
  match Prim2SF a with
  | S754_finite s m e => if (0 <=? e)%Z then a else of_Z (floorZ s m e)
  | _ => a
  end.

(** Number of iterations of [for (let i = 0; i < bound; i++)]; as in
    [JS.iterations], an infinite bound does not arise. *)
Definition iterations (bound : float) : nat :=
  match Prim2SF bound with
  | S754_finite false m e => Z.to_nat (- floorZ true m e)
  | _ => 0%nat
  end.

Definition for_lt {S : Type} (bound : float) (body : nat -> S -> S) (s : S) : S :=
  fold_left (fun acc i => body i acc) (seq 0 (iterations bound)) s.

Definition u8 (b : byte) : float := of_Z (Z.of_N (Byte.to_N b)).

Definition get (a : list byte) (i : nat) : float :=
  match a !! i with
  | Some b => u8 b
  | None => nan
  end.

(** The rational a double denotes. *)
Definition toNumber (a : float) : JS.number :=
  match Prim2SF a with
  | S754_zero _ => Fin 0
  | S754_infinity s => Inf s
  | S754_nan => NaN
  | S754_finite s m e =>
      let n := if s then Z.neg m else Z.pos m in
      Fin (if (0 <=? e)%Z then inject_Z (n * 2 ^ e)
           else Qmake n (2 ^ Z.to_pos (- e)))
  end.

(** *** detectBeat *)

Record BeatRefs : Type := mkBeatRefs {
  beatHistoryRef : list float;
  lastBeatTimeRef : Z
}.

Module Beat.
Record BeatState : Type := mkBeatState {
  beatDetected : bool;
  bassEnergy : float
}.
End Beat.

Definition initialRefs : BeatRefs := mkBeatRefs [] 0.

Definition bassRange (frequencyData : list byte) : float :=
  Math_floor (of_nat (length frequencyData) * 0.1).

Definition bassSum (frequencyData : list byte) : float :=
  for_lt (bassRange frequencyData)
         (fun i acc => acc + get frequencyData i) 0.

Definition rawBassEnergy (frequencyData : list byte) : float :=
  bassSum frequencyData / bassRange frequencyData.

Definition pushHistory (h : list float) (e : float) : list float :=
  let h1 := h ++ [e] in
  if (20 <? length h1)%nat then tail h1 else h1.

Definition average (h : list float) : float :=
  fold_left (fun sum val => sum + val) h 0 / of_nat (length h).

Definition detectBeat (frequencyData : list byte) (currentTime : Z)
    (r : BeatRefs) : Beat.BeatState * BeatRefs :=
  let bassEnergy := rawBassEnergy frequencyData in
  let history := pushHistory (beatHistoryRef r) bassEnergy in
  let avgBassEnergy := average history in
  let beatThreshold := avgBassEnergy * 1.5 in
  let timeSinceLastBeat := (currentTime - lastBeatTimeRef r)%Z in
  let beatDetected :=
    (beatThreshold <? bassEnergy)
    && (200 <? timeSinceLastBeat)%Z
    && (10 <=? length history)%nat in
  let lastBeat := if beatDetected then currentTime else lastBeatTimeRef r in
  (Beat.mkBeatState beatDetected (bassEnergy / 255),
   mkBeatRefs history lastBeat).

Fixpoint run (ticks : list Tick) (r : BeatRefs)
  : list Beat.BeatState * BeatRefs :=
  match ticks with
  | [] => ([], r)
  | (f, t) :: rest =>
      let '(b, r1) := detectBeat f t r in
      let '(bs, r2) := run rest r1 in
      (b :: bs, r2)
  end.

(** *** The cross-fade of render *)

Definition RenderCall : Type := (VisualizerMode * AudioData * float)%type.

Record State : Type := mkState {
  isTransitioning : bool;
  previousMode : VisualizerMode;
  transitionProgress : float;
  spectrogramDataRef : option ImageData;
  ctx : Context2D;
  renderCalls : list RenderCall
}.

Definition with_ctx (f : Context2D -> Context2D) (st : State) : State :=
  mkState (isTransitioning st) (previousMode st) (transitionProgress st)
          (spectrogramDataRef st) (f (ctx st)) (renderCalls st).

Definition set_transition (active : bool) (progress : float) (st : State) : State :=
  mkState active (previousMode st) progress
          (spectrogramDataRef st) (ctx st) (renderCalls st).

Definition set_previousMode (m : VisualizerMode) (st : State) : State :=
  mkState (isTransitioning st) m (transitionProgress st)
          (spectrogramDataRef st) (ctx st) (renderCalls st).

Section Trigonometry.

Context `{Math : MathLib}.

(** [renderMode]: the drawing is [Visualizer.renderMode] on the context
    and the spectrogram cell, with the opacity it is given. *)
Definition renderMode (renderMode : VisualizerMode) (audioData : AudioData)
    (opacity : float) (st : State) : State :=
  let drawn :=
    Visualizer.renderMode renderMode audioData (toNumber opacity)
      (Visualizer.mkState (isTransitioning st) (previousMode st)
         (toNumber (transitionProgress st)) (spectrogramDataRef st)
         (ctx st) []) in
  mkState (isTransitioning st) (previousMode st) (transitionProgress st)
          (Visualizer.spectrogramDataRef drawn) (Visualizer.ctx drawn)
          (renderCalls st ++ [(renderMode, audioData, opacity)]).

(** [render] *)
Definition render (audioData : option AudioData) (mode : VisualizerMode)
    (st : State) : State :=
  match audioData with
  | None => st
  | Some audioData =>
      let w := canvas_width (ctx st) in
      let h := canvas_height (ctx st) in
      let st :=
        with_ctx (set_fillStyle (Solid (Rgba 15 23 42 (Fin (1 # 10))))) st in
      let st :=
        with_ctx (fillRect (Fin 0) (Fin 0) (JS.of_nat w) (JS.of_nat h)) st in
      if isTransitioning st && (transitionProgress st <? 1) then
        let fadeOutOpacity := 1 - transitionProgress st in
        let fadeInOpacity := transitionProgress st in
        let st :=
          if 0 <? fadeOutOpacity
          then renderMode (previousMode st) audioData fadeOutOpacity st
          else st in
        let st :=
          if 0 <? fadeInOpacity
          then renderMode mode audioData fadeInOpacity st
          else st in
        let newProgress := transitionProgress st + 0.05 in
        if 1 <=? newProgress
        then set_transition false 1 st
        else set_transition (isTransitioning st) newProgress st
      else
        renderMode mode audioData 1 st
  end.

End Trigonometry.

Definition modeChangeEffect (mode : VisualizerMode) (st : State) : State :=
  if negb (mode_eqb mode (previousMode st)) then
    set_previousMode mode (set_transition true 0 st)
  else st.

Definition resizeEffect (width height : nat) (st : State) : State :=
  with_ctx (fun c =>
    let c := freshContext width height (ops c) in
    let c := set_fillStyle (Solid (Hex "#0f172a")) c in
    fillRect (Fin 0) (Fin 0) (JS.of_nat width) (JS.of_nat height) c) st.

Definition mount (mode : VisualizerMode) (width height : nat) : State :=
  resizeEffect width height
    (mkState false mode 0 None (freshContext width height []) []).

Section Running.

Context `{Math : MathLib}.

Definition step (ev : Event) (st : State) : State :=
  match ev with
  | Frame audioData mode => render audioData mode st
  | ModeChange mode => modeChangeEffect mode st
  | Resize width height => resizeEffect width height st
  end.

Definition runEvents (evs : list Event) (st : State) : State :=
  fold_left (fun s ev => step ev s) evs st.

Definition renderFrames (frames : list (AudioData * VisualizerMode))
    (st : State) : State :=
  fold_left (fun s f => render (Some (fst f)) (snd f) s) frames st.

End Running.




End Double.
(** * Properties *)

(** ** Arithmetic of the number model *)

Lemma Qplus_inject_Z (a b : Z) :
  (inject_Z a + inject_Z b)%Q = inject_Z (a + b).
Proof. unfold Qplus, inject_Z; simpl. f_equal; lia. Qed.

Lemma add_of_Z (a b : Z) : add (of_Z a) (of_Z b) = of_Z (a + b).
Proof. unfold of_Z; simpl. now rewrite Qplus_inject_Z. Qed.

Lemma iterations_of_nat (n : nat) : iterations (of_nat n) = n.
Proof.
  unfold iterations, of_nat, of_Z. rewrite Qceiling_Z. apply Nat2Z.id.
Qed.

Lemma for_lt_of_nat {S : Type} (n : nat) (body : nat -> S -> S) (s : S) :
  for_lt (of_nat n) body s = fold_left (fun acc i => body i acc) (seq 0 n) s.
Proof. unfold for_lt. now rewrite iterations_of_nat. Qed.

Lemma Qis0_inject_Z (z : Z) : Qis0 (inject_Z z) = (z =? 0)%Z.
Proof.
  unfold Qis0, Qeq_bool, inject_Z; simpl. now rewrite Z.mul_1_r.
Qed.

Lemma Qltb_lt (x y : Q) : Qltb x y = true <-> (x < y)%Q.
Proof.
  unfold Qltb. rewrite negb_true_iff. split; intros H.
  - apply Qnot_le_lt. intros Hle. apply Qle_bool_iff in Hle. congruence.
  - destruct (Qle_bool y x) eqn:E; [|reflexivity].
    apply Qle_bool_iff in E. exfalso. apply (Qlt_not_le _ _ H E).
Qed.

Lemma gt_NaN_l (x : number) : gt NaN x = false.
Proof. now destruct x. Qed.

Lemma gt_NaN_r (x : number) : gt x NaN = false.
Proof. now destruct x. Qed.

(** ** Bass energy *)

Lemma byteSum_snoc (l : list byte) (b : byte) :
  byteSum (l ++ [b]) = (byteSum l + Z.of_N (Byte.to_N b))%Z.
Proof. induction l as [|a l IH]; simpl; [lia | rewrite IH; lia]. Qed.

Lemma byteSum_bounds (l : list byte) :
  (0 <= byteSum l <= 255 * Z.of_nat (length l))%Z.
Proof.
  induction l as [|a l IH]; simpl; [lia|].
  pose proof (Byte.to_N_bounded a). lia.
Qed.

Lemma bassRange_eq (f : list byte) : bassRange f = of_nat (length f / 10).
Proof.
  unfold bassRange, of_nat, of_Z, Math_floor, mul, of_Z.
  f_equal. f_equal. rewrite Nat2Z.inj_div.
  unfold Qmult, inject_Z, Qfloor. cbn [Qnum Qden].
  now rewrite Z.mul_1_r.
Qed.

Lemma sum_prefix (f : list byte) (k : nat) (a : Z) :
  k <= length f ->
  fold_left (fun acc i => add acc (get f i)) (seq 0 k) (of_Z a)
  = of_Z (a + byteSum (take k f)).
Proof.
  induction k as [|k IH]; intros Hk.
  - simpl. now rewrite Z.add_0_r.
  - rewrite seq_S, fold_left_app, IH by lia. cbn [fold_left Nat.add].
    destruct (lookup_lt_is_Some_2 f k) as [b Hb]; [lia|].
    unfold get. rewrite Hb, (take_S_r _ _ _ Hb), byteSum_snoc.
    unfold u8. rewrite add_of_Z. f_equal. lia.
Qed.

Lemma bassSum_eq (f : list byte) :
  bassSum f = of_Z (byteSum (take (length f / 10) f)).
Proof.
  unfold bassSum. rewrite bassRange_eq, for_lt_of_nat.
  change (Fin 0) with (of_Z 0). rewrite sum_prefix.
  - reflexivity.
  - apply Nat.Div0.div_le_upper_bound. lia.
Qed.

(** A buffer of fewer than ten bytes has an empty bass range: [0 / 0]. *)
Lemma rawBassEnergy_short (f : list byte) :
  length f < 10 -> rawBassEnergy f = NaN.
Proof.
  intros H. unfold rawBassEnergy. rewrite bassSum_eq, bassRange_eq.
  rewrite (Nat.div_small _ _ H). reflexivity.
Qed.

Lemma rawBassEnergy_long (f : list byte) :
  10 <= length f ->
  rawBassEnergy f =
  Fin (inject_Z (byteSum (take (length f / 10) f))
       / inject_Z (Z.of_nat (length f / 10))).
Proof.
  intros H. unfold rawBassEnergy. rewrite bassSum_eq, bassRange_eq.
  unfold of_nat, of_Z, div. rewrite Qis0_inject_Z.
  assert (1 <= length f / 10) by (apply Nat.div_le_lower_bound; lia).
  destruct (Z.eqb_spec (Z.of_nat (length f / 10)) 0); [lia | reflexivity].
Qed.

Lemma rawBassEnergy_cases (f : list byte) :
  rawBassEnergy f = NaN \/ exists q, rawBassEnergy f = Fin q.
Proof.
  destruct (Nat.lt_ge_cases (length f) 10).
  - left. now apply rawBassEnergy_short.
  - right. eexists. now apply rawBassEnergy_long.
Qed.

(** ** The energy history *)

Lemma pushHistory_length (h : list number) (e : number) :
  length h <= 20 -> length (pushHistory h e) = Nat.min 20 (S (length h)).
Proof.
  intros H. unfold pushHistory. rewrite length_app. cbn [length].
  destruct (Nat.ltb_spec 20 (length h + 1)).
  - destruct h as [|a h]; cbn [length] in *; [lia|].
    cbn [app tail]. rewrite length_app. cbn [length]. lia.
  - rewrite length_app. cbn [length]. lia.
Qed.

(** The history is a sliding window over everything pushed so far. *)
Lemma pushHistory_window (l : list number) (e : number) :
  pushHistory (drop (length l - 20) l) e
  = drop (length (l ++ [e]) - 20) (l ++ [e]).
Proof.
  unfold pushHistory. rewrite !length_app, length_drop. cbn [length].
  destruct (Nat.ltb_spec 20 (length l - (length l - 20) + 1)) as [H|H].
  - assert (Hd : length l - 20 < length l) by lia.
    replace (length l + 1 - 20) with ((length l - 20) + 1) by lia.
    rewrite <- drop_app_le by lia.
    rewrite <- (drop_drop (l ++ [e]) 1 (length l - 20)).
    now destruct (drop (length l - 20) (l ++ [e])).
  - replace (length l - 20) with 0 by lia.
    replace (length l + 1 - 20) with 0 by lia. reflexivity.
Qed.

Lemma run_cons_fst (f : list byte) (t : Z) (rest : list Tick) (r : BeatRefs) :
  fst (run ((f, t) :: rest) r)
  = fst (detectBeat f t r) :: fst (run rest (snd (detectBeat f t r))).
Proof.
  cbn [run]. destruct (detectBeat f t r) as [b r1]. cbn [fst snd].
  now destruct (run rest r1).
Qed.

Lemma run_cons_snd (f : list byte) (t : Z) (rest : list Tick) (r : BeatRefs) :
  snd (run ((f, t) :: rest) r) = snd (run rest (snd (detectBeat f t r))).
Proof.
  cbn [run]. destruct (detectBeat f t r) as [b r1]. cbn [fst snd].
  now destruct (run rest r1).
Qed.

Lemma run_length (ticks : list Tick) (r : BeatRefs) :
  length (fst (run ticks r)) = length ticks.
Proof.
  revert r. induction ticks as [|[f t] rest IH]; intros r; [reflexivity|].
  rewrite run_cons_fst. cbn [length]. now rewrite IH.
Qed.

Lemma run_history (ticks : list Tick) :
  forall (r : BeatRefs) (l : list number),
    beatHistoryRef r = drop (length l - 20) l ->
    beatHistoryRef (snd (run ticks r))
    = drop (length (l ++ samples ticks) - 20) (l ++ samples ticks).
Proof.
  induction ticks as [|[f t] rest IH]; intros r l Hr.
  - cbn. now rewrite app_nil_r.
  - rewrite run_cons_snd.
    rewrite (IH _ (l ++ [rawBassEnergy f])).
    + unfold samples. cbn [map fst]. now rewrite <- !app_assoc.
    + cbn [detectBeat snd beatHistoryRef]. rewrite Hr.
      apply pushHistory_window.
Qed.

(** C4. For every sequence of [detectBeat] calls from the initial refs the
    history holds between 0 and 20 samples, and it is exactly the (at
    most) 20 most recent samples, oldest first; in particular after 21
    calls the first sample is gone and the other 20 remain in order. *)
Theorem C4_history_window (ticks : list Tick) :
  let h := beatHistoryRef (snd (run ticks initialRefs)) in
  0 <= length h <= 20
  /\ h = drop (length (samples ticks) - 20) (samples ticks)
  /\ forall (t : Tick) (last20 : list Tick),
       ticks = t :: last20 -> length last20 = 20 -> h = samples last20.
Proof.
  cbv zeta.
  assert (Hw : beatHistoryRef (snd (run ticks initialRefs))
               = drop (length (samples ticks) - 20) (samples ticks)).
  { now rewrite (run_history ticks initialRefs []). }
  split; [|split].
  - rewrite Hw, length_drop. lia.
  - exact Hw.
  - intros t last20 -> Hlen. rewrite Hw.
    change (samples (t :: last20))
      with (rawBassEnergy (fst t) :: samples last20).
    assert (Hs : length (samples last20) = 20)
      by (unfold samples; now rewrite length_map).
    cbn [length]. rewrite Hs. reflexivity.
Qed.

(** ** Bass energy is normalised *)

Lemma bassRatio_bounds (s k : Z) :
  (0 <= s <= 255 * k)%Z -> (1 <= k)%Z ->
  (0 <= inject_Z s / inject_Z k / 255)%Q
  /\ (inject_Z s / inject_Z k / 255 <= 1)%Q.
Proof.
  intros Hs Hk.
  assert (Hk0 : (0 < inject_Z k)%Q).
  { change 0%Q with (inject_Z 0). rewrite <- Zlt_Qlt. lia. }
  assert (H0 : (0 <= inject_Z s / inject_Z k)%Q).
  { apply Qle_shift_div_l; [exact Hk0|]. rewrite Qmult_0_l.
    change 0%Q with (inject_Z 0). rewrite <- Zle_Qle. lia. }
  assert (H1 : (inject_Z s / inject_Z k <= 255)%Q).
  { apply Qle_shift_div_r; [exact Hk0|].
    change 255%Q with (inject_Z 255). rewrite <- inject_Z_mult, <- Zle_Qle. lia. }
  split.
  - apply Qle_shift_div_l; [reflexivity|]. now rewrite Qmult_0_l.
  - apply Qle_shift_div_r; [reflexivity|]. now rewrite Qmult_1_l.
Qed.

(** C9, as amended.  For every frequency buffer of at least ten bytes the
    bass range is a positive count, so the mean divides by a non-zero
    number, and the [bassEnergy] that [detectBeat] returns is a finite
    number in [0, 1]. *)
Theorem C9_bass_energy_normalised (f : list byte) (t : Z) (r : BeatRefs)
    (Hlen : 10 <= length f) :
  (exists k, bassRange f = of_nat k /\ 0 < k)
  /\ inUnitInterval (Beat.bassEnergy (fst (detectBeat f t r))).
Proof.
  assert (Hk : 1 <= length f / 10) by (apply Nat.div_le_lower_bound; lia).
  split.
  - exists (length f / 10). split; [apply bassRange_eq | lia].
  - cbn [detectBeat fst Beat.bassEnergy].
    rewrite (rawBassEnergy_long f Hlen). cbn [div].
    change (Qis0 255) with false. cbn iota.
    eexists. split; [reflexivity|].
    apply bassRatio_bounds; [|lia].
    pose proof (byteSum_bounds (take (length f / 10) f)) as Hb.
    rewrite length_take in Hb.
    assert (Nat.min (length f / 10) (length f) = length f / 10).
    { apply Nat.min_l. apply Nat.Div0.div_le_upper_bound. lia. }
    lia.
Qed.

(** C9 at a ten-byte buffer whose bass range is the byte 255. *)
Lemma C9_bass_energy_normalised_witness :
  10 <= length (bassBuffer 255)
  /\ ((exists k, bassRange (bassBuffer 255) = of_nat k /\ 0 < k)
      /\ inUnitInterval
           (Beat.bassEnergy (fst (detectBeat (bassBuffer 255) 0 initialRefs)))).
Proof.
  split; [vm_compute; lia|].
  apply (C9_bass_energy_normalised (bassBuffer 255) 0 initialRefs).
  vm_compute; lia.
Defined.

(** C9, as stated, fails: a one-byte buffer is non-empty, its bass range
    is 0, the mean is [0 / 0] and the returned [bassEnergy] is [NaN]. *)
Lemma C9_short_buffer_divides_by_zero :
  [xc8] <> []
  /\ bassRange [xc8] = Fin 0
  /\ Beat.bassEnergy (fst (detectBeat [xc8] 0 initialRefs)) = NaN
  /\ ~ inUnitInterval (Beat.bassEnergy (fst (detectBeat [xc8] 0 initialRefs))).
Proof.
  split; [discriminate|]. split; [reflexivity|]. split; [reflexivity|].
  intros (q & Hq & _). vm_compute in Hq. discriminate.
Qed.

(** ** Malformed buffers are analysed like any other *)

(** C3, as stated, fails: an empty buffer (a wrong length) changes the
    history and replaces a previously published beat state. *)
Lemma C3_malformed_buffer_not_skipped :
  let prev := mkAudioData (bassBuffer 16) [] (bassBuffer 16) true (Fin (16 # 255)) in
  let st := mkAudioManagerState true false None (Some prev) (Fin 0) (Fin 0) (Fin 1) in
  let '(r', st') := updateAudioData (Some ([], [])) 0 initialRefs st in
  beatHistoryRef r' <> beatHistoryRef initialRefs
  /\ audioData st' <> audioData st.
Proof. vm_compute. split; discriminate. Qed.

(** ** The inter-beat gap *)

Lemma detectBeat_beat (f : list byte) (t : Z) (r : BeatRefs) :
  Beat.beatDetected (fst (detectBeat f t r))
  = gt (rawBassEnergy f)
       (mul (average (pushHistory (beatHistoryRef r) (rawBassEnergy f)))
            (Fin (3 # 2)))
    && (200 <? t - lastBeatTimeRef r)%Z
    && (10 <=? length (pushHistory (beatHistoryRef r) (rawBassEnergy f))).
Proof. reflexivity. Qed.

Lemma detectBeat_last (f : list byte) (t : Z) (r : BeatRefs) :
  lastBeatTimeRef (snd (detectBeat f t r))
  = if Beat.beatDetected (fst (detectBeat f t r)) then t
    else lastBeatTimeRef r.
Proof. reflexivity. Qed.

Lemma detectBeat_history (f : list byte) (t : Z) (r : BeatRefs) :
  beatHistoryRef (snd (detectBeat f t r))
  = pushHistory (beatHistoryRef r) (rawBassEnergy f).
Proof. reflexivity. Qed.

Lemma within_gap_no_beat (f : list byte) (t last : Z) (r : BeatRefs) :
  lastBeatTimeRef r = last -> (t - last <= 200)%Z ->
  Beat.beatDetected (fst (detectBeat f t r)) = false.
Proof.
  intros Hl Hgap. rewrite detectBeat_beat, Hl.
  destruct (Z.ltb_spec 200 (t - last)); [lia|].
  now rewrite andb_false_r.
Qed.

Lemma run_within_gap (last : Z) (ticks : list Tick) :
  forall r : BeatRefs,
    lastBeatTimeRef r = last ->
    Forall (fun tk : Tick => (snd tk - last <= 200)%Z) ticks ->
    Forall (fun b => Beat.beatDetected b = false) (fst (run ticks r))
    /\ lastBeatTimeRef (snd (run ticks r)) = last.
Proof.
  induction ticks as [|[f t] rest IH]; intros r Hl Hw.
  - split; [constructor | exact Hl].
  - inversion Hw as [|? ? Hhd Htl]; subst. cbn [snd] in Hhd.
    pose proof (within_gap_no_beat f t _ r eq_refl Hhd) as Hno.
    assert (Hl' : lastBeatTimeRef (snd (detectBeat f t r)) = lastBeatTimeRef r).
    { now rewrite detectBeat_last, Hno. }
    destruct (IH _ Hl' Htl) as [Hf Hs].
    rewrite run_cons_fst, run_cons_snd. split; [|exact Hs].
    constructor; assumption.
Qed.

(** C6.  The last beat time changes only on a tick that reports a beat,
    where it becomes that tick's clock value.  Hence after a tick at time
    [t] that reports a beat, no later tick whose clock is within 200 ms of
    [t] reports one, whatever its energy, and the last beat time stays
    [t]: a window of 200 ms holds at most one beat. *)
Theorem C6_minimum_gap (f : list byte) (t : Z) (r : BeatRefs)
    (ticks : list Tick)
    (Hbeat : Beat.beatDetected (fst (detectBeat f t r)) = true)
    (Hwin : Forall (fun tk : Tick => (snd tk - t <= 200)%Z) ticks) :
  (forall f' t' r',
      lastBeatTimeRef (snd (detectBeat f' t' r'))
      = if Beat.beatDetected (fst (detectBeat f' t' r')) then t'
        else lastBeatTimeRef r')
  /\ lastBeatTimeRef (snd (detectBeat f t r)) = t
  /\ Forall (fun b => Beat.beatDetected b = false)
            (fst (run ticks (snd (detectBeat f t r))))
  /\ lastBeatTimeRef (snd (run ticks (snd (detectBeat f t r)))) = t.
Proof.
  assert (Hl : lastBeatTimeRef (snd (detectBeat f t r)) = t).
  { now rewrite detectBeat_last, Hbeat. }
  split; [exact detectBeat_last|]. split; [exact Hl|].
  now apply run_within_gap.
Qed.

(** C6 at a beat at time 1000 followed by two loud ticks at 1100 and
    1199. *)
Lemma C6_minimum_gap_witness :
  Beat.beatDetected (fst (detectBeat (bassBuffer 16) 1000 warmRefs)) = true
  /\ Forall (fun tk : Tick => (snd tk - 1000 <= 200)%Z)
            [(bassBuffer 255, 1100%Z); (bassBuffer 255, 1199%Z)]
  /\ ((forall f' t' r',
         lastBeatTimeRef (snd (detectBeat f' t' r'))
         = if Beat.beatDetected (fst (detectBeat f' t' r')) then t'
           else lastBeatTimeRef r')
      /\ lastBeatTimeRef (snd (detectBeat (bassBuffer 16) 1000 warmRefs)) = 1000%Z
      /\ Forall (fun b => Beat.beatDetected b = false)
           (fst (run [(bassBuffer 255, 1100%Z); (bassBuffer 255, 1199%Z)]
                     (snd (detectBeat (bassBuffer 16) 1000 warmRefs))))
      /\ lastBeatTimeRef
           (snd (run [(bassBuffer 255, 1100%Z); (bassBuffer 255, 1199%Z)]
                     (snd (detectBeat (bassBuffer 16) 1000 warmRefs)))) = 1000%Z).
Proof.
  assert (Hb : Beat.beatDetected (fst (detectBeat (bassBuffer 16) 1000 warmRefs))
               = true) by (vm_compute; reflexivity).
  assert (Hw : Forall (fun tk : Tick => (snd tk - 1000 <= 200)%Z)
                 [(bassBuffer 255, 1100%Z); (bassBuffer 255, 1199%Z)]).
  { repeat constructor; cbn [snd]; lia. }
  split; [exact Hb|]. split; [exact Hw|].
  exact (C6_minimum_gap (bassBuffer 16) 1000 warmRefs _ Hb Hw).
Defined.

(** ** The beat condition *)

Lemma fold_add_Fin (qs : list Q) (a : Q) :
  fold_left add (map Fin qs) (Fin a) = Fin (fold_left Qplus qs a).
Proof.
  revert a. induction qs as [|q qs IH]; intros a; [reflexivity|].
  cbn [map fold_left add]. apply IH.
Qed.

Lemma fold_add_NaN (h : list number) : fold_left add h NaN = NaN.
Proof. induction h as [|x h IH]; [reflexivity | exact IH]. Qed.

Lemma add_NaN_r (x : number) : add x NaN = NaN.
Proof. now destruct x. Qed.

Lemma fold_add_has_NaN (h : list number) (a : number) :
  In NaN h -> fold_left add h a = NaN.
Proof.
  revert a. induction h as [|x h IH]; intros a Hin; [destruct Hin|].
  cbn [fold_left]. destruct Hin as [->|Hin].
  - rewrite add_NaN_r. apply fold_add_NaN.
  - now apply IH.
Qed.

Lemma finOrNaN_split (h : list number) :
  Forall finOrNaN h -> In NaN h \/ exists qs, h = map Fin qs.
Proof.
  induction 1 as [|x h Hx _ IH]; [right; now exists []|].
  destruct Hx as [->|[q ->]]; [left; now left|].
  destruct IH as [Hin|[qs ->]]; [left; now right|].
  right. now exists (q :: qs).
Qed.

Lemma map_Fin_no_NaN (qs : list Q) : ~ In NaN (map Fin qs).
Proof.
  induction qs as [|q qs IH]; [easy|]. intros [H|H]; [discriminate | auto].
Qed.

Lemma map_Fin_inj (qs qs' : list Q) : map Fin qs = map Fin qs' -> qs = qs'.
Proof.
  revert qs'. induction qs as [|q qs IH]; intros [|q' qs'] H;
    try discriminate; [reflexivity|].
  cbn [map] in H. injection H as -> H. f_equal. now apply IH.
Qed.

Lemma average_Fin (qs : list Q) :
  qs <> [] -> average (map Fin qs) = Fin (mean qs).
Proof.
  intros Hne. unfold average, mean. rewrite fold_add_Fin, length_map.
  unfold of_nat, of_Z, div. rewrite Qis0_inject_Z.
  destruct (Z.eqb_spec (Z.of_nat (length qs)) 0) as [E|_]; [|reflexivity].
  destruct qs; [congruence | cbn [length] in E; lia].
Qed.

Lemma exceeds_spec (e : number) (h : list number) :
  finOrNaN e -> Forall finOrNaN h -> h <> [] ->
  gt e (mul (average h) (Fin (3 # 2))) = true <-> exceedsMean e h.
Proof.
  intros He Hh Hne. destruct (finOrNaN_split h Hh) as [Hin|[qs ->]].
  - unfold average. rewrite (fold_add_has_NaN h _ Hin).
    cbn [div mul]. rewrite gt_NaN_r. split; [discriminate|].
    intros (q & qs & _ & -> & _). now apply map_Fin_no_NaN in Hin.
  - assert (Hq : qs <> []) by (intros ->; now apply Hne).
    rewrite (average_Fin qs Hq). cbn [mul].
    destruct He as [->|[q ->]].
    + rewrite gt_NaN_l. split; [discriminate|].
      intros (q & qs' & Hq' & _); discriminate.
    + unfold gt. cbn [lt]. rewrite Qltb_lt. split.
      * intros H. exists q, qs. repeat split. now rewrite Qmult_comm.
      * intros (q' & qs' & Hq' & Hqs & H). injection Hq' as ->.
        apply map_Fin_inj in Hqs as ->. now rewrite Qmult_comm.
Qed.

Lemma rawBassEnergy_finOrNaN (f : list byte) : finOrNaN (rawBassEnergy f).
Proof. exact (rawBassEnergy_cases f). Qed.

Lemma samples_finOrNaN (ticks : list Tick) : Forall finOrNaN (samples ticks).
Proof.
  unfold samples. induction ticks as [|tk ticks IH]; cbn [map]; constructor;
    [apply rawBassEnergy_finOrNaN | exact IH].
Qed.

Lemma pushHistory_Forall (P : number -> Prop) (h : list number) (e : number) :
  Forall P h -> P e -> Forall P (pushHistory h e).
Proof.
  intros Hh He. unfold pushHistory.
  assert (Ha : Forall P (h ++ [e])) by (apply Forall_app; split; [assumption | now constructor]).
  destruct (20 <? length (h ++ [e])); [|exact Ha].
  destruct (h ++ [e]); [constructor | now inversion Ha].
Qed.

Lemma pushHistory_nonempty (h : list number) (e : number) :
  length h <= 20 -> pushHistory h e <> [].
Proof.
  intros H E. apply (f_equal length) in E.
  rewrite pushHistory_length in E by exact H. cbn [length] in E. lia.
Qed.

Lemma reachable_history (ticks : list Tick) :
  Forall finOrNaN (beatHistoryRef (snd (run ticks initialRefs)))
  /\ length (beatHistoryRef (snd (run ticks initialRefs))) <= 20.
Proof.
  rewrite (run_history ticks initialRefs []) by reflexivity.
  split; [|rewrite length_drop; lia].
  apply Forall_drop. apply samples_finOrNaN.
Qed.

Lemma warmup_no_beat (ticks : list Tick) :
  forall (r : BeatRefs) (n : nat),
    length (beatHistoryRef r) + n <= 9 ->
    Forall (fun b => Beat.beatDetected b = false) (take n (fst (run ticks r))).
Proof.
  induction ticks as [|[f t] rest IH]; intros r n Hn.
  - cbn [run fst]. rewrite take_nil. constructor.
  - rewrite run_cons_fst. destruct n as [|n]; [constructor|].
    cbn [take]. constructor.
    + rewrite detectBeat_beat.
      rewrite pushHistory_length by lia.
      destruct (Nat.leb_spec 10 (Nat.min 20 (S (length (beatHistoryRef r)))));
        [lia | apply andb_false_r].
    + apply IH. rewrite detectBeat_history, pushHistory_length by lia. lia.
Qed.

(** ** Loops and typed-array stores *)

Lemma for_lt_ind {S : Type} (P : nat -> S -> Prop) (bound : number)
    (body : nat -> S -> S) (s : S) :
  P 0 s ->
  (forall i s, i < iterations bound -> P i s -> P (Datatypes.S i) (body i s)) ->
  P (iterations bound) (for_lt bound body s).
Proof.
  intros H0 Hstep. unfold for_lt.
  assert (G : forall n, n <= iterations bound ->
            P n (fold_left (fun acc i => body i acc) (seq 0 n) s)).
  { induction n as [|n IH]; intros Hn; [exact H0|].
    rewrite seq_S, fold_left_app. cbn [fold_left Nat.add].
    apply Hstep; [lia | apply IH; lia]. }
  now apply G.
Qed.

Lemma iterations_pred (w : nat) :
  iterations (sub (of_nat w) (Fin 1)) = w - 1.
Proof.
  unfold iterations, sub, of_nat, of_Z, neg, add.
  change (- (1))%Q with (inject_Z (-1)).
  rewrite Qplus_inject_Z, Qceiling_Z. lia.
Qed.

Lemma toUint8Clamped_u8 (b : byte) : toUint8Clamped (u8 b) = b.
Proof. destruct b; vm_compute; reflexivity. Qed.

Lemma store_length (i : nat) (v : number) (d : list byte) :
  length (store i v d) = length d.
Proof. apply length_insert. Qed.

Lemma store_same (i : nat) (v : number) (d : list byte) :
  i < length d -> store i v d !! i = Some (toUint8Clamped v).
Proof. intros H. now apply list_lookup_insert_eq. Qed.

Lemma store_other (i j : nat) (v : number) (d : list byte) :
  i <> j -> store i v d !! j = d !! j.
Proof. intros H. now apply list_lookup_insert_ne. Qed.

(** Reading a byte that is there and storing it again keeps it. *)
Lemma get_roundtrip (old : list byte) (i : nat) (b : byte) :
  old !! i = Some b -> toUint8Clamped (get old i) = b.
Proof. intros H. unfold get. rewrite H. apply toUint8Clamped_u8. Qed.

(** Row-major pixel indices. *)
Lemma row_below (w y n x : nat) : y < n -> x < w -> y * w + x < n * w.
Proof.
  intros Hy Hx.
  assert ((y + 1) * w <= n * w) by (apply Nat.mul_le_mono_r; lia). lia.
Qed.

Lemma pixel_index_inj (w x y x' y' : nat) :
  x < w -> x' < w -> y * w + x = y' * w + x' -> x = x' /\ y = y'.
Proof.
  intros Hx Hx' E.
  destruct (Nat.lt_trichotomy y y') as [H|[H|H]].
  - pose proof (row_below w y y' x H Hx). lia.
  - subst y'. lia.
  - pose proof (row_below w y' y x' H Hx'). lia.
Qed.

(** ** The spectrogram buffer *)

(** What one pass of the inner copy loop does to row [y]. *)
Lemma shift_row (old : list byte) (w y : nat) (d0 : list byte) :
  (y * w + (w - 1)) * 4 <= length d0 ->
  let d := for_lt (sub (of_nat w) (Fin 1)) (fun x new =>
      let srcIndex := (y * w + (x + 1)) * 4 in
      let destIndex := (y * w + x) * 4 in
      let new := store destIndex (get old srcIndex) new in
      let new := store (destIndex + 1) (get old (srcIndex + 1)) new in
      let new := store (destIndex + 2) (get old (srcIndex + 2)) new in
      store (destIndex + 3) (get old (srcIndex + 3)) new) d0 in
  length d = length d0
  /\ (forall x k, x < w - 1 -> k < 4 ->
        d !! ((y * w + x) * 4 + k)
        = Some (toUint8Clamped (get old ((y * w + (x + 1)) * 4 + k))))
  /\ (forall i, i < y * w * 4 \/ (y * w + (w - 1)) * 4 <= i -> d !! i = d0 !! i).
Proof.
  intros Hlen. cbv zeta.
  match goal with |- context [for_lt ?bd ?body d0] =>
    pose proof (for_lt_ind (fun m d =>
      length d = length d0
      /\ (forall x k, x < m -> k < 4 ->
            d !! ((y * w + x) * 4 + k)
            = Some (toUint8Clamped (get old ((y * w + (x + 1)) * 4 + k))))
      /\ (forall i, i < y * w * 4 \/ (y * w + m) * 4 <= i -> d !! i = d0 !! i))
      bd body d0) as H
  end.
  rewrite iterations_pred in H. apply H; clear H.
  - split; [reflexivity|]. split; [intros; lia | reflexivity].
  - intros m d Hm (Hl & Hw & Ho). cbv zeta.
    assert (Hin : (y * w + m) * 4 + 3 < length d) by lia.
    split; [|split].
    + now rewrite !store_length.
    + intros x k Hx Hk.
      destruct (Nat.eq_dec x m) as [-> | Hne].
      * assert (Hk' : k = 0 \/ k = 1 \/ k = 2 \/ k = 3) by lia.
        destruct Hk' as [-> | [-> | [-> | ->]]];
          rewrite ?Nat.add_0_r;
          repeat (first
            [ rewrite store_same by (rewrite ?store_length; lia)
            | rewrite store_other by lia ]);
          reflexivity.
      * rewrite !store_other by lia. apply Hw; lia.
    + intros i Hi. rewrite !store_other by lia. apply Ho. lia.
Qed.

(** The whole shift: columns [0 .. w-2] of every row come from one column
    to the right in [old], read with the current row length. *)
Lemma shiftLeft_spec (old : list byte) (w h : nat) (d0 : list byte) :
  length d0 = w * h * 4 ->
  let d := shiftLeft old w h d0 in
  length d = length d0
  /\ (forall x y k, x < w - 1 -> y < h -> k < 4 ->
        d !! ((y * w + x) * 4 + k)
        = Some (toUint8Clamped (get old ((y * w + (x + 1)) * 4 + k)))).
Proof.
  intros Hlen. cbv zeta. unfold shiftLeft.
  match goal with |- context [for_lt ?bd ?body d0] =>
    pose proof (for_lt_ind (fun n d =>
      length d = length d0
      /\ (forall x y k, x < w - 1 -> y < n -> k < 4 ->
            d !! ((y * w + x) * 4 + k)
            = Some (toUint8Clamped (get old ((y * w + (x + 1)) * 4 + k)))))
      bd body d0) as H
  end.
  rewrite iterations_of_nat in H.
  destruct H as [Hl Hw]; [| |split; [exact Hl|]].
  - split; [reflexivity | intros; lia].
  - intros n d Hn (Hl & Hw).
    destruct (Nat.eq_dec w 0) as [-> | Hw0].
    { split; [|intros; lia].
      rewrite <- Hl. pose proof (shift_row old 0 n d) as H0.
      cbv beta zeta in H0 |- *. apply H0. lia. }
    assert (Hrow : (n * w + (w - 1)) * 4 <= length d).
    { rewrite Hl, Hlen. pose proof (row_below w n h (w - 1)). lia. }
    destruct (shift_row old w n d Hrow) as (Hl1 & Hw1 & Ho1).
    cbv beta zeta in Hl1, Hw1, Ho1 |- *.
    split; [congruence|].
    intros x y k Hx Hy Hk.
    destruct (Nat.eq_dec y n) as [-> | Hne]; [now apply Hw1|].
    rewrite Ho1; [apply Hw; lia|].
    left. pose proof (row_below w y n x). lia.
  - intros x y k Hx Hy Hk. now apply Hw.
Qed.

Lemma appendColumn_spec (f : list byte) (bins : number) (w : nat)
    (d0 : list byte) :
  let d := appendColumn f bins w d0 in
  length d = length d0
  /\ (forall x y k, x < w - 1 -> k < 4 ->
        d !! ((y * w + x) * 4 + k) = d0 !! ((y * w + x) * 4 + k)).
Proof.
  cbv zeta. unfold appendColumn.
  apply (for_lt_ind (fun (_ : nat) d =>
    length d = length d0
    /\ (forall x y k, x < w - 1 -> k < 4 ->
          d !! ((y * w + x) * 4 + k) = d0 !! ((y * w + x) * 4 + k)))).
  - split; reflexivity.
  - intros n d _ (Hl & Hk). cbv zeta. split; [now rewrite !store_length|].
    intros x y k Hx Hk4.
    assert (Hne : y * w + x <> n * w + (w - 1)).
    { intros E. apply pixel_index_inj in E; lia. }
    rewrite !store_other by lia. now apply Hk.
Qed.

Lemma toUint8Clamped_255 : toUint8Clamped (Fin 255) = xff.
Proof. vm_compute; reflexivity. Qed.

Lemma fillOpaque_spec (n : nat) :
  let d := fillOpaque (replicate (n * 4) x00) in
  length d = n * 4
  /\ forall p k, p < n -> k < 4 ->
       d !! (p * 4 + k) = Some (if Nat.eqb k 3 then xff else x00).
Proof.
  cbv zeta. unfold fillOpaque. rewrite length_replicate.
  replace ((n * 4 + 3) / 4) with n by (apply Nat.div_unique with 3; lia).
  set (d0 := replicate (n * 4) x00).
  assert (G : forall m, m <= n ->
    let d := fold_left (fun d k => store (4 * k + 3) (Fin 255) d) (seq 0 m) d0 in
    length d = n * 4
    /\ (forall p, p < m -> d !! (p * 4 + 3) = Some xff)
    /\ (forall i, (forall p, p < m -> i <> p * 4 + 3) -> d !! i = d0 !! i)).
  { induction m as [|m IH]; intros Hm; cbv zeta.
    - split; [apply length_replicate|]. split; [intros; lia | reflexivity].
    - rewrite seq_S, fold_left_app. cbn [fold_left Nat.add].
      destruct IH as (Hl & Hp & Ho); [lia|]. split; [|split].
      + now rewrite store_length.
      + intros p Hpm. destruct (Nat.eq_dec p m) as [-> | Hne].
        * replace (4 * m + 3) with (m * 4 + 3) by lia.
          rewrite store_same by lia. now rewrite toUint8Clamped_255.
        * rewrite store_other by lia. apply Hp. lia.
      + intros i Hi. rewrite store_other.
        * apply Ho. intros p Hpm. apply Hi. lia.
        * specialize (Hi m). lia. }
  destruct (G n (Nat.le_refl n)) as (Hl & Hp & Ho).
  split; [exact Hl|]. intros p k Hp' Hk.
  destruct (Nat.eqb_spec k 3) as [-> | Hk3]; [now apply Hp|].
  rewrite Ho by (intros; lia).
  apply lookup_replicate_2. lia.
Qed.

(** Every advance stores a buffer of the size it was called with. *)
Lemma drawSpectrogram_buffer (f : list byte) (w h : nat) (st : State) :
  exists img,
    spectrogramDataRef (drawSpectrogram f w h st) = Some img
    /\ img_width img = w /\ img_height img = h
    /\ length (data img) = w * h * 4.
Proof.
  unfold drawSpectrogram. destruct (spectrogramDataRef st) as [old|].
  - eexists. cbn [with_ctx set_spectrogramData spectrogramDataRef].
    split; [reflexivity|]. cbn [img_width img_height data createImageData].
    split; [reflexivity|]. split; [reflexivity|].
    pose proof (appendColumn_spec f
      (Math_min (div (of_nat (length f)) (Fin 2)) (of_nat h)) w
      (shiftLeft (data old) w h (replicate (w * h * 4) x00))) as [Hl _].
    rewrite Hl.
    pose proof (shiftLeft_spec (data old) w h (replicate (w * h * 4) x00)
                  (length_replicate _ _)) as [Hl' _].
    rewrite Hl'. apply length_replicate.
  - eexists. cbn [set_spectrogramData spectrogramDataRef].
    split; [reflexivity|]. cbn [img_width img_height data createImageData].
    split; [reflexivity|]. split; [reflexivity|].
    apply (fillOpaque_spec (w * h)).
Qed.

Lemma pixel_ext (w : nat) (d d' : list byte) (x y x' y' : nat) :
  (forall k, k < 4 ->
     d !! ((y * w + x) * 4 + k) = d' !! ((y' * w + x') * 4 + k)) ->
  pixel w d x y = pixel w d' x' y'.
Proof.
  intros H. unfold pixel. cbv zeta.
  pose proof (H 0) as H0. rewrite !Nat.add_0_r in H0.
  rewrite H0, (H 1), (H 2), (H 3) by lia. reflexivity.
Qed.

(** One advance in the Ready state moves every pixel one column left. *)
Lemma drawSpectrogram_shift (f : list byte) (w h : nat) (st : State)
    (img : ImageData) :
  spectrogramDataRef st = Some img ->
  length (data img) = w * h * 4 ->
  exists img',
    spectrogramDataRef (drawSpectrogram f w h st) = Some img'
    /\ forall x y, x + 1 < w -> y < h ->
         pixel w (data img') x y = pixel w (data img) (x + 1) y.
Proof.
  intros E Hlen. unfold drawSpectrogram. rewrite E.
  eexists. cbn [with_ctx set_spectrogramData spectrogramDataRef].
  split; [reflexivity|]. cbn [data createImageData].
  intros x y Hx Hy. apply pixel_ext. intros k Hk.
  pose proof (appendColumn_spec f
    (Math_min (div (of_nat (length f)) (Fin 2)) (of_nat h)) w
    (shiftLeft (data img) w h (replicate (w * h * 4) x00))) as [_ Ha].
  rewrite Ha by lia.
  pose proof (shiftLeft_spec (data img) w h (replicate (w * h * 4) x00)
                (length_replicate _ _)) as [_ Hs].
  rewrite Hs by lia.
  assert (Hin : (y * w + (x + 1)) * 4 + k < length (data img)).
  { rewrite Hlen. pose proof (row_below w y h (x + 1)). lia. }
  destruct (lookup_lt_is_Some_2 _ _ Hin) as [b Hb].
  rewrite Hb. f_equal. now apply get_roundtrip.
Qed.

(** An advance in the Ready state paints the buffer it stores. *)
Lemma drawSpectrogram_paints (f : list byte) (w h : nat) (st : State)
    (img : ImageData) :
  spectrogramDataRef st = Some img ->
  exists img',
    spectrogramDataRef (drawSpectrogram f w h st) = Some img'
    /\ ops (ctx (drawSpectrogram f w h st))
       = ops (ctx st) ++ [PutImageData img' (Fin 0) (Fin 0)].
Proof.
  intros E. unfold drawSpectrogram. rewrite E. eexists.
  cbn [with_ctx set_spectrogramData spectrogramDataRef ctx putImageData emit ops].
  split; reflexivity.
Qed.

(** C8.  An advance in the Ready state stores and paints a [w] by [h]
    buffer in which every column but the last holds what its right
    neighbour held in the buffer stored before.  So after two advances at
    one canvas size every column but the last holds what its right
    neighbour held after the first, in particular column [w-2] holds the
    former column [w-1].  An advance from the uninitialised state stores
    a [w] by [h] RGBA buffer that is opaque black everywhere and paints
    nothing.  On a 3 by 2 canvas the column written by the second advance
    (orange over blue) is found one column further left after the
    third. *)
Theorem C8_spectrogram_scrolls (F1 F2 : list byte) (w h : nat) (st0 : State) :
  let st1 := drawSpectrogram F1 w h st0 in
  let st2 := drawSpectrogram F2 w h st1 in
  (forall img0,
      spectrogramDataRef st0 = Some img0 ->
      length (data img0) = w * h * 4 ->
      exists img1,
        spectrogramDataRef st1 = Some img1
        /\ img_width img1 = w /\ img_height img1 = h
        /\ length (data img1) = w * h * 4
        /\ (forall x y, x + 1 < w -> y < h ->
              pixel w (data img1) x y = pixel w (data img0) (x + 1) y)
        /\ ops (ctx st1) = ops (ctx st0) ++ [PutImageData img1 (Fin 0) (Fin 0)])
  /\ (exists img1 img2,
      spectrogramDataRef st1 = Some img1
      /\ spectrogramDataRef st2 = Some img2
      /\ (forall x y, x + 1 < w -> y < h ->
            pixel w (data img2) x y = pixel w (data img1) (x + 1) y)
      /\ (2 <= w -> forall y, y < h ->
            pixel w (data img2) (w - 2) y = pixel w (data img1) (w - 1) y))
  /\ (spectrogramDataRef st0 = None ->
      ctx st1 = ctx st0
      /\ exists img,
           spectrogramDataRef st1 = Some img
           /\ img_width img = w /\ img_height img = h
           /\ length (data img) = w * h * 4
           /\ forall x y, x < w -> y < h -> pixel w (data img) x y = black)
  /\ (let loud := [xff; x00; x00; x00] in
      let quiet := [x00; x00; x00; x00] in
      let s2 := drawSpectrogram loud 3 2 (drawSpectrogram loud 3 2 (mount bars 3 2)) in
      let s3 := drawSpectrogram quiet 3 2 s2 in
      exists img2 img3,
        spectrogramDataRef s2 = Some img2
        /\ spectrogramDataRef s3 = Some img3
        /\ pixel 3 (data img2) 2 0 = [Some xff; Some x80; Some x00; Some xff]
        /\ pixel 3 (data img2) 2 1 = [Some x00; Some x00; Some xff; Some xff]
        /\ pixel 3 (data img2) 1 0 = black
        /\ pixel 3 (data img3) 1 0 = [Some xff; Some x80; Some x00; Some xff]
        /\ pixel 3 (data img3) 1 1 = [Some x00; Some x00; Some xff; Some xff]
        /\ pixel 3 (data img3) 0 0 = black).
Proof.
  cbv zeta. split; [|split; [|split]].
  - intros img0 E0 L0.
    destruct (drawSpectrogram_buffer F1 w h st0) as (img1 & E1 & W1 & H1 & L1).
    destruct (drawSpectrogram_shift F1 w h st0 img0 E0 L0) as (img1' & E1' & Hs).
    destruct (drawSpectrogram_paints F1 w h st0 img0 E0) as (img1'' & E1'' & Ho).
    rewrite E1 in E1', E1''. injection E1' as <-. injection E1'' as <-.
    exists img1. repeat split; assumption.
  - destruct (drawSpectrogram_buffer F1 w h st0) as (img1 & E1 & _ & _ & L1).
    destruct (drawSpectrogram_shift F2 w h _ img1 E1 L1) as (img2 & E2 & Hs).
    exists img1, img2. split; [exact E1|]. split; [exact E2|].
    split; [exact Hs|]. intros Hw y Hy.
    replace (w - 1) with (w - 2 + 1) by lia. apply Hs; lia.
  - intros E0. unfold drawSpectrogram. rewrite E0.
    cbn [set_spectrogramData spectrogramDataRef ctx].
    split; [reflexivity|]. eexists. split; [reflexivity|].
    cbn [img_width img_height data createImageData].
    destruct (fillOpaque_spec (w * h)) as [Hl Hp].
    split; [reflexivity|]. split; [reflexivity|]. split; [exact Hl|].
    intros x y Hx Hy. unfold pixel, black. cbv zeta.
    assert (Hi : y * w + x < w * h).
    { pose proof (row_below w y h x Hy Hx). lia. }
    pose proof (Hp (y * w + x) 0 Hi) as H0. rewrite Nat.add_0_r in H0.
    rewrite H0, (Hp _ 1 Hi), (Hp _ 2 Hi), (Hp _ 3 Hi) by lia.
    reflexivity.
  - do 2 eexists. split; [vm_compute; reflexivity|].
    split; [vm_compute; reflexivity|].
    repeat split; vm_compute; reflexivity.
Qed.

(** ** Resizing *)

(** C2, as amended.  The resize effect leaves the spectrogram cell as it
    is, and every advance stores a freshly sized buffer, so whatever the
    accumulator held before, after one advance at the new size it holds a
    buffer of the new width and height. *)
Theorem C2_resize_keeps_buffer (f : list byte) (w h : nat) (st : State) :
  spectrogramDataRef (resizeEffect w h st) = spectrogramDataRef st
  /\ canvas_width (ctx (resizeEffect w h st)) = w
  /\ canvas_height (ctx (resizeEffect w h st)) = h
  /\ exists img,
       spectrogramDataRef (drawSpectrogram f w h (resizeEffect w h st)) = Some img
       /\ img_width img = w /\ img_height img = h
       /\ length (data img) = w * h * 4.
Proof.
  split; [reflexivity|]. split; [reflexivity|]. split; [reflexivity|].
  apply drawSpectrogram_buffer.
Qed.

(** C2, as stated, fails.  After two advances at 2 by 2 the canvas is
    resized to 3 by 3: the accumulator still holds the 2 by 2 buffer, and
    the next advance reads it with rows of 3, so pixel (0,0) of the new
    buffer is the old pixel (1,0), pixel (1,0) is the old pixel (0,1) of
    the row below, and pixel (0,2) is read past the end of the old
    buffer. *)
Lemma C2_resize_reads_stale_buffer :
  let f := bassBuffer 255 in
  let st1 := drawSpectrogram f 2 2 (drawSpectrogram f 2 2 (mount spectrogram 2 2)) in
  let st2 := resizeEffect 3 3 st1 in
  let st3 := drawSpectrogram f 3 3 st2 in
  exists old new,
    spectrogramDataRef st2 = Some old
    /\ img_width old = 2 /\ img_height old = 2 /\ length (data old) = 16
    /\ spectrogramDataRef st3 = Some new
    /\ pixel 3 (data new) 0 0 = pixel 2 (data old) 1 0
    /\ pixel 3 (data new) 0 0 <> black
    /\ pixel 3 (data new) 1 0 = pixel 2 (data old) 0 1
    /\ pixel 3 (data new) 0 2 = [Some x00; Some x00; Some x00; Some x00].
Proof.
  cbv zeta. eexists. eexists.
  split; [vm_compute; reflexivity|].
  repeat (split; [vm_compute; first [reflexivity | discriminate]|]).
  vm_compute; reflexivity.
Qed.

(** ** Bars and the alpha of the context *)

Lemma barAlphas_S (first : number) (n : nat) :
  barAlphas first (S n)
  = barAlphas first n
    ++ [Some (if Nat.eqb n 0 then first else Fin 1); Some (Fin (2 # 10))].
Proof.
  unfold barAlphas. rewrite seq_S, flat_map_app. cbn [flat_map Nat.add].
  now rewrite app_nil_r.
Qed.

Lemma barAlphas_length (first : number) (n : nat) :
  length (barAlphas first n) = 2 * n.
Proof.
  induction n as [|n IH]; [reflexivity|].
  rewrite barAlphas_S, length_app, IH. cbn [length]. lia.
Qed.

Lemma barAlphas_lookup (first : number) (n i : nat) :
  i < n ->
  barAlphas first n !! (2 * i)
  = Some (Some (if Nat.eqb i 0 then first else Fin 1)).
Proof.
  induction n as [|n IH]; intros Hi; [lia|].
  rewrite barAlphas_S. destruct (Nat.eq_dec i n) as [-> | Hne].
  - rewrite lookup_app_r by (rewrite barAlphas_length; lia).
    rewrite barAlphas_length, Nat.sub_diag. reflexivity.
  - rewrite lookup_app_l by (rewrite barAlphas_length; lia).
    apply IH. lia.
Qed.

Lemma drawBarSpectrum_alphas (f : list byte) (w h : nat) (beat : bool)
    (energy : number) (c : Context2D) :
  let c' := drawBarSpectrum f w h beat energy c in
  (exists new,
      ops c' = ops c ++ new
      /\ map opAlpha new = barAlphas (globalAlpha c) (barsDrawn f))
  /\ globalAlpha c' = (if Nat.eqb (barsDrawn f) 0 then globalAlpha c else Fin 1).
Proof.
  cbv zeta. unfold drawBarSpectrum, barsDrawn. cbv zeta.
  match goal with |- context [for_lt ?bd ?body ?c0] =>
    apply (for_lt_ind (fun i c' =>
      (exists new, ops c' = ops c ++ new
                   /\ map opAlpha new = barAlphas (globalAlpha c) i)
      /\ globalAlpha c' = (if Nat.eqb i 0 then globalAlpha c else Fin 1))
      bd body c0)
  end.
  - split; [|reflexivity]. exists []. split; [|reflexivity].
    cbn [set_fillStyle ops]. now rewrite app_nil_r.
  - intros i c' _ ((new & Hops & Hal) & Ha). split; [|reflexivity].
    eexists. cbn [set_globalAlpha fillRect emit ops globalAlpha fillStyle].
    rewrite Hops, <- !app_assoc. split; [reflexivity|].
    rewrite map_app, Hal, barAlphas_S. cbn [map opAlpha app]. now rewrite Ha.
Qed.

Section Alpha.

Context `{Math : MathLib}.

Lemma drawWaveform_alpha (td : list byte) (w h : nat) (c : Context2D) :
  globalAlpha (drawWaveform td w h c) = globalAlpha c.
Proof.
  unfold drawWaveform. cbv zeta. cbn [stroke emit globalAlpha].
  match goal with |- context [for_lt ?bd ?body ?c0] =>
    apply (for_lt_ind (fun _ c' => globalAlpha c' = globalAlpha c) bd body c0)
  end; [reflexivity|].
  intros i c' _ H. cbv zeta. now destruct (Nat.eqb i 0).
Qed.

Lemma drawCircularSpectrum_alpha (f : list byte) (w h : nat) (c : Context2D) :
  globalAlpha (drawCircularSpectrum f w h c)
  = globalAlpha c.
Proof.
  unfold drawCircularSpectrum. cbv zeta.
  match goal with |- context [for_lt ?bd ?body ?c0] =>
    apply (for_lt_ind (fun _ c' => globalAlpha c' = globalAlpha c) bd body c0)
  end; [reflexivity|].
  intros i c' _ H. exact H.
Qed.

Lemma drawParticles_alpha (f : list byte) (w h : nat) (beat : bool)
    (energy : number) (c : Context2D) :
  globalAlpha (drawParticles f w h beat energy c)
  = globalAlpha c.
Proof.
  unfold drawParticles. cbv zeta.
  match goal with |- context [for_lt ?bd ?body ?c0] =>
    apply (for_lt_ind (fun _ c' => globalAlpha c' = globalAlpha c) bd body c0)
  end; [now destruct beat|].
  intros i c' _ H. exact H.
Qed.

Lemma drawSpectrogram_alpha (f : list byte) (w h : nat) (st : State) :
  globalAlpha (ctx (drawSpectrogram f w h st)) = globalAlpha (ctx st).
Proof.
  unfold drawSpectrogram. now destruct (spectrogramDataRef st).
Qed.

(** Whatever the mode and the opacity, [renderMode] returns the context
    with alpha 1 if it received it so. *)
Lemma renderMode_alpha (m : VisualizerMode) (a : AudioData)
    (opacity : number) (st : State) :
  globalAlpha (ctx st) = Fin 1 ->
  globalAlpha (ctx (renderMode m a opacity st)) = Fin 1.
Proof.
  intros H. unfold renderMode. cbv zeta.
  destruct (lt opacity (Fin 1)); [reflexivity|].
  destruct m; cbn [with_ctx note_call ctx].
  - destruct (drawBarSpectrum_alphas (frequencyData a)
                (canvas_width (ctx st)) (canvas_height (ctx st))
                (beatDetected a) (bassEnergy a) (ctx st)) as [_ ->].
    now destruct (Nat.eqb _ 0).
  - now rewrite drawWaveform_alpha.
  - now rewrite drawCircularSpectrum_alpha.
  - now rewrite drawParticles_alpha.
  - now rewrite drawSpectrogram_alpha.
Qed.

(** C10.  A call of [renderMode] for the bars with an opacity below 1
    paints bar 0 at that opacity, every reflection at 0.2 and every later
    bar at alpha 1 (the alpha is set to 1 after each reflection), and
    leaves the context with alpha 1. *)
Theorem C10_bars_lose_fade_opacity (a : AudioData) (opacity : number)
    (st : State) (Hfade : lt opacity (Fin 1) = true) :
  let st' := renderMode bars a opacity st in
  globalAlpha (ctx st') = Fin 1
  /\ exists new,
       ops (ctx st') = ops (ctx st) ++ new
       /\ map opAlpha new = barAlphas opacity (barsDrawn (frequencyData a))
       /\ (forall i, 0 < i < barsDrawn (frequencyData a) ->
             map opAlpha new !! (2 * i) = Some (Some (Fin 1))).
Proof.
  cbv zeta. unfold renderMode. cbv zeta. rewrite Hfade.
  cbn [with_ctx note_call ctx set_globalAlpha globalAlpha].
  split; [reflexivity|]. cbn [canvas_width canvas_height ops].
  match goal with |- context [drawBarSpectrum ?f ?w ?h ?b ?e ?c] =>
    destruct (drawBarSpectrum_alphas f w h b e c) as [(new & Hops & Hal) _]
  end.
  cbn [ops globalAlpha] in Hops, Hal.
  exists new. split; [exact Hops|]. split; [exact Hal|].
  intros i Hi. rewrite Hal, barAlphas_lookup by lia.
  destruct (Nat.eqb_spec i 0); [lia | reflexivity].
Qed.

End Alpha.

(** ** The cross-fade *)

Section CrossFade.

Context `{Math : MathLib}.

(** [renderMode] touches the context, the spectrogram cell and the trace
    only. *)
Lemma renderMode_cells (m : VisualizerMode) (a : AudioData) (o : number)
    (st : State) :
  isTransitioning (renderMode m a o st) = isTransitioning st
  /\ previousMode (renderMode m a o st) = previousMode st
  /\ transitionProgress (renderMode m a o st) = transitionProgress st
  /\ renderCalls (renderMode m a o st) = renderCalls st ++ [(m, a, o)].
Proof.
  unfold renderMode. cbv zeta.
  destruct (lt o (Fin 1)); destruct m;
    cbn [with_ctx note_call isTransitioning previousMode transitionProgress
         renderCalls ctx];
    try (repeat split; reflexivity);
    unfold drawSpectrogram;
    cbn [with_ctx note_call isTransitioning previousMode transitionProgress
         renderCalls ctx spectrogramDataRef];
    destruct (spectrogramDataRef st); repeat split; reflexivity.
Qed.

(** A frame outside a transition: one layer, the [mode] prop at opacity 1. *)
Lemma render_idle (a : AudioData) (m : VisualizerMode) (st : State) :
  isTransitioning st && lt (transitionProgress st) (Fin 1) = false ->
  isTransitioning (render (Some a) m st) = isTransitioning st
  /\ previousMode (render (Some a) m st) = previousMode st
  /\ transitionProgress (render (Some a) m st) = transitionProgress st
  /\ renderCalls (render (Some a) m st) = renderCalls st ++ [(m, a, Fin 1)].
Proof.
  intros Hidle. unfold render. cbv zeta.
  cbn [with_ctx isTransitioning transitionProgress]. rewrite Hidle.
  match goal with |- context [renderMode m a (Fin 1) ?s] =>
    destruct (renderMode_cells m a (Fin 1) s) as (A & B & C & D)
  end.
  rewrite A, B, C, D. repeat split; reflexivity.
Qed.

(** A frame inside a transition: the fade-out layer is [previousMode],
    the fade-in layer the [mode] prop, then the progress moves on. *)
Lemma render_active (a : AudioData) (m : VisualizerMode) (st : State) :
  isTransitioning st && lt (transitionProgress st) (Fin 1) = true ->
  let st' := render (Some a) m st in
  let fadeOut := sub (Fin 1) (transitionProgress st) in
  let fadeIn := transitionProgress st in
  let newProgress := add (transitionProgress st) (Fin (5 # 100)) in
  previousMode st' = previousMode st
  /\ renderCalls st'
     = renderCalls st
       ++ (if gt fadeOut (Fin 0) then [(previousMode st, a, fadeOut)] else [])
       ++ (if gt fadeIn (Fin 0) then [(m, a, fadeIn)] else [])
  /\ transitionProgress st'
     = (if ge newProgress (Fin 1) then Fin 1 else newProgress)
  /\ isTransitioning st'
     = (if ge newProgress (Fin 1) then false else isTransitioning st).
Proof.
  intros Hact. cbv zeta. unfold render. cbv zeta.
  set (s0 := with_ctx _ (with_ctx _ st)).
  change (isTransitioning s0) with (isTransitioning st).
  change (transitionProgress s0) with (transitionProgress st).
  change (previousMode s0) with (previousMode st).
  rewrite Hact.
  set (o1 := sub (Fin 1) (transitionProgress st)).
  set (o2 := transitionProgress st).
  assert (Hs0 : isTransitioning s0 = isTransitioning st
                /\ previousMode s0 = previousMode st
                /\ transitionProgress s0 = o2
                /\ renderCalls s0 = renderCalls st) by (repeat split).
  clearbody s0. destruct Hs0 as (A0 & B0 & C0 & D0).
  set (s1 := if gt o1 (Fin 0) then _ else s0).
  assert (Hs1 : isTransitioning s1 = isTransitioning st
                /\ previousMode s1 = previousMode st
                /\ transitionProgress s1 = o2
                /\ renderCalls s1 = renderCalls st
                     ++ (if gt o1 (Fin 0)
                         then [(previousMode st, a, o1)] else [])).
  { subst s1. destruct (gt o1 (Fin 0)).
    - destruct (renderMode_cells (previousMode st) a o1 s0) as (A & B & C & D).
      rewrite A, B, C, D, D0. repeat split; assumption.
    - rewrite app_nil_r. repeat split; assumption. }
  clearbody s1. destruct Hs1 as (A1 & B1 & C1 & D1).
  set (s2 := if gt o2 (Fin 0) then _ else s1).
  assert (Hs2 : isTransitioning s2 = isTransitioning st
                /\ previousMode s2 = previousMode st
                /\ transitionProgress s2 = o2
                /\ renderCalls s2 = renderCalls st
                     ++ (if gt o1 (Fin 0)
                         then [(previousMode st, a, o1)] else [])
                     ++ (if gt o2 (Fin 0) then [(m, a, o2)] else [])).
  { subst s2. destruct (gt o2 (Fin 0)).
    - destruct (renderMode_cells m a o2 s1) as (A & B & C & D).
      rewrite A, B, C, D, D1, <- app_assoc. repeat split; assumption.
    - rewrite app_nil_r. repeat split; assumption. }
  clearbody s2. destruct Hs2 as (A2 & B2 & C2 & D2).
  rewrite C2, A2.
  destruct (ge (add o2 (Fin (5 # 100))) (Fin 1));
    cbn [set_transition previousMode renderCalls transitionProgress
         isTransitioning];
    repeat split; assumption.
Qed.

(** The same for a finite progress [p] below 1. *)
Lemma render_fading (a : AudioData) (m : VisualizerMode) (st : State) (p : Q) :
  isTransitioning st = true -> transitionProgress st = Fin p -> (p < 1)%Q ->
  let st' := render (Some a) m st in
  previousMode st' = previousMode st
  /\ renderCalls st'
     = renderCalls st
       ++ (if Qltb 0 (1 - p) then [(previousMode st, a, Fin (1 - p))] else [])
       ++ (if Qltb 0 p then [(m, a, Fin p)] else [])
  /\ transitionProgress st'
     = (if Qle_bool 1 (p + (5 # 100)) then Fin 1 else Fin (p + (5 # 100)))
  /\ isTransitioning st' = negb (Qle_bool 1 (p + (5 # 100))).
Proof.
  intros Ha Hp Hlt. cbv zeta.
  assert (Hact : isTransitioning st && lt (transitionProgress st) (Fin 1) = true).
  { rewrite Ha, Hp. now apply Qltb_lt in Hlt. }
  destruct (render_active a m st Hact) as (A & B & C & D).
  rewrite A, B, C, D, Hp, Ha.
  change (ge (add (Fin p) (Fin (5 # 100))) (Fin 1))
    with (Qle_bool 1 (p + (5 # 100))).
  repeat split.
Qed.

Lemma render_alpha (oa : option AudioData) (m : VisualizerMode) (st : State) :
  globalAlpha (ctx st) = Fin 1 -> globalAlpha (ctx (render oa m st)) = Fin 1.
Proof.
  intros H. destruct oa as [a|]; [|exact H]. unfold render. cbv zeta.
  set (s0 := with_ctx _ (with_ctx _ st)).
  assert (H0 : globalAlpha (ctx s0) = Fin 1) by exact H.
  clearbody s0.
  destruct (isTransitioning s0 && lt (transitionProgress s0) (Fin 1));
    [|now apply renderMode_alpha].
  set (s1 := if gt _ (Fin 0) then _ else s0).
  assert (H1 : globalAlpha (ctx s1) = Fin 1).
  { subst s1. destruct (gt _ (Fin 0)); [now apply renderMode_alpha | exact H0]. }
  clearbody s1.
  set (s2 := if gt _ (Fin 0) then _ else s1).
  assert (H2 : globalAlpha (ctx s2) = Fin 1).
  { subst s2. destruct (gt _ (Fin 0)); [now apply renderMode_alpha | exact H1]. }
  clearbody s2.
  now destruct (ge _ (Fin 1)).
Qed.

Lemma Qle_bool_false (x y : Q) : Qle_bool x y = false -> (y < x)%Q.
Proof.
  intros H. apply Qnot_le_lt. intros Hle. apply Qle_bool_iff in Hle. congruence.
Qed.

Lemma render_progressOK (oa : option AudioData) (m : VisualizerMode)
    (st : State) :
  progressOK st -> progressOK (render oa m st).
Proof.
  intros (p & Hp & H0 & H1 & Hact). destruct oa as [a|]; [|now exists p].
  destruct (isTransitioning st) eqn:Ha.
  - specialize (Hact eq_refl).
    destruct (render_fading a m st p Ha Hp Hact) as (_ & _ & C & D).
    destruct (Qle_bool 1 (p + (5 # 100))) eqn:E.
    + exists 1%Q. rewrite C, D. repeat split; try easy.
    + apply Qle_bool_false in E. exists (p + (5 # 100))%Q. rewrite C.
      repeat split; try lra.
  - destruct (render_idle a m st) as (A & _ & C & _); [now rewrite Ha|].
    exists p. rewrite A, C, Ha. repeat split; try assumption.
Qed.

Lemma step_invariant (ev : Event) (st : State) :
  progressOK st /\ globalAlpha (ctx st) = Fin 1 ->
  progressOK (step ev st) /\ globalAlpha (ctx (step ev st)) = Fin 1.
Proof.
  intros [Hp Ha]. destruct ev as [oa m | m | w h]; cbn [step].
  - split; [now apply render_progressOK | now apply render_alpha].
  - unfold modeChangeEffect. destruct (negb _); [|now split].
    split; [|exact Ha]. exists 0%Q.
    cbn [set_previousMode set_transition transitionProgress isTransitioning].
    repeat split; try easy.
  - split; [|reflexivity]. exact Hp.
Qed.

Lemma reachable_invariant (evs : list Event) (m0 : VisualizerMode) (w h : nat) :
  progressOK (runEvents evs (mount m0 w h))
  /\ globalAlpha (ctx (runEvents evs (mount m0 w h))) = Fin 1.
Proof.
  unfold runEvents.
  assert (G : forall st, progressOK st /\ globalAlpha (ctx st) = Fin 1 ->
            progressOK (fold_left (fun s ev => step ev s) evs st)
            /\ globalAlpha (ctx (fold_left (fun s ev => step ev s) evs st)) = Fin 1).
  { induction evs as [|ev evs IH]; intros st Hst; [exact Hst|].
    cbn [fold_left]. apply IH. now apply step_invariant. }
  apply G. split; [|reflexivity].
  exists 0%Q. repeat split; try easy.
Qed.

(** Every layer of a frame is drawn in the [mode] prop once
    [previousMode] equals it. *)
Lemma render_single_mode (a : AudioData) (m : VisualizerMode) (st : State) :
  previousMode st = m ->
  previousMode (render (Some a) m st) = m
  /\ exists calls,
       renderCalls (render (Some a) m st) = renderCalls st ++ calls
       /\ Forall (fun c => callMode c = m) calls.
Proof.
  intros Hm.
  destruct (isTransitioning st && lt (transitionProgress st) (Fin 1)) eqn:E.
  - destruct (render_active a m st E) as (B & D & _). cbv zeta in B, D.
    split; [congruence|]. eexists. split; [exact D|].
    apply Forall_app. split.
    + destruct (gt (sub _ _) (Fin 0));
        [constructor; [exact Hm | constructor] | constructor].
    + destruct (gt (transitionProgress st) (Fin 0));
        [constructor; [reflexivity | constructor] | constructor].
  - destruct (render_idle a m st E) as (_ & B & _ & D).
    split; [congruence|]. eexists. split; [exact D|].
    constructor; [reflexivity | constructor].
Qed.

Lemma frames_single_mode (m : VisualizerMode) (audio : list AudioData) :
  forall st : State,
    previousMode st = m ->
    exists calls,
      renderCalls (renderFrames (map (fun a => (a, m)) audio) st)
      = renderCalls st ++ calls
      /\ Forall (fun c => callMode c = m) calls.
Proof.
  induction audio as [|a rest IH]; intros st Hm.
  - exists []. split; [now rewrite app_nil_r | constructor].
  - unfold renderFrames. cbn [map fold_left fst snd].
    destruct (render_single_mode a m st Hm) as (Hm' & c1 & E1 & F1).
    destruct (IH _ Hm') as (c2 & E2 & F2).
    exists (c1 ++ c2). unfold renderFrames in E2.
    rewrite E2, E1, <- app_assoc. split; [reflexivity|].
    apply Forall_app. now split.
Qed.

(** C1, on the code.  The mode-change effect stores the new mode in
    [previousMode], so the outgoing mode is gone when the blend starts:
    in the frames that follow, both layers are drawn in the new mode.
    Switching from bars to waveform, the first two frames draw waveform
    at 1, then waveform at 0.95 and waveform at 0.05; bars never. *)
Theorem C1_fade_out_layer_is_new_mode :
  (forall (st : State) (m : VisualizerMode),
      previousMode (modeChangeEffect m st) = m)
  /\ (forall (st : State) (m : VisualizerMode) (audio : list AudioData),
        exists calls,
          renderCalls (renderFrames (map (fun a => (a, m)) audio)
                                    (modeChangeEffect m st))
          = renderCalls st ++ calls
          /\ Forall (fun c => callMode c = m) calls)
  /\ (let a := mkAudioData (bassBuffer 200) (bassBuffer 128) (bassBuffer 200)
                           false (Fin 0) in
      let st := modeChangeEffect waveform (mount bars 4 2) in
      previousMode (mount bars 4 2) = bars
      /\ isTransitioning st = true
      /\ map (fun c => (callMode c, callOpacity c))
             (renderCalls (renderFrames [(a, waveform); (a, waveform)] st))
         = [(waveform, Fin 1); (waveform, Fin (95 # 100));
            (waveform, Fin (5 # 100))]).
Proof.
  assert (Hp : forall (st : State) (m : VisualizerMode),
             previousMode (modeChangeEffect m st) = m).
  { intros st m. unfold modeChangeEffect.
    destruct (previousMode st) eqn:E, m; cbn; try reflexivity; exact E. }
  split; [exact Hp|]. split.
  - intros st m audio.
    destruct (frames_single_mode m audio (modeChangeEffect m st) (Hp st m))
      as (calls & E & F).
    exists calls. split; [|exact F]. rewrite E. f_equal.
    unfold modeChangeEffect. now destruct (negb _).
  - cbv zeta. split; [reflexivity|]. split; [reflexivity|].
    vm_compute. reflexivity.
Qed.

End CrossFade.

(** C10 at two bars drawn at opacity 1/2 on a 4 by 4 canvas. *)
Lemma C10_bars_lose_fade_opacity_witness :
  lt (Fin (1 # 2)) (Fin 1) = true
  /\ (let st' := @renderMode sampleMath bars sampleAudio (Fin (1 # 2))
                              (mount bars 4 4) in
      globalAlpha (ctx st') = Fin 1
      /\ exists new,
           ops (ctx st') = ops (ctx (mount bars 4 4)) ++ new
           /\ map opAlpha new
              = barAlphas (Fin (1 # 2)) (barsDrawn (frequencyData sampleAudio))
           /\ (forall i, 0 < i < barsDrawn (frequencyData sampleAudio) ->
                 map opAlpha new !! (2 * i) = Some (Some (Fin 1)))).
Proof.
  split; [reflexivity|].
  apply (@C10_bars_lose_fade_opacity sampleMath sampleAudio (Fin (1 # 2))
           (mount bars 4 4)).
  reflexivity.
Defined.

(** * Further properties of the beat detector *)

Lemma rawBassEnergy_ext (f f' : list byte) :
  length f = length f' ->
  take (length f / 10) f = take (length f / 10) f' ->
  rawBassEnergy f = rawBassEnergy f'.
Proof.
  intros Hl Ht. unfold rawBassEnergy.
  rewrite !bassSum_eq, !bassRange_eq, <- Hl, Ht. reflexivity.
Qed.

(** X1.  [detectBeat] looks at the first tenth of the buffer only: two
    buffers of one length that agree there give the same beat state and
    leave the same refs. *)
Theorem X1_detectBeat_reads_bass_range_only (f f' : list byte) (t : Z)
    (r : BeatRefs)
    (Hlen : length f = length f')
    (Hbass : take (length f / 10) f = take (length f / 10) f') :
  detectBeat f t r = detectBeat f' t r.
Proof.
  unfold detectBeat. now rewrite (rawBassEnergy_ext f f' Hlen Hbass).
Qed.

(** X1 at two ten-byte buffers that differ from the second byte on. *)
Lemma X1_detectBeat_reads_bass_range_only_witness :
  length (bassBuffer 16) = length (byte_of 16 :: replicate 9 xff)
  /\ take (length (bassBuffer 16) / 10) (bassBuffer 16)
     = take (length (bassBuffer 16) / 10) (byte_of 16 :: replicate 9 xff)
  /\ detectBeat (bassBuffer 16) 1000 warmRefs
     = detectBeat (byte_of 16 :: replicate 9 xff) 1000 warmRefs.
Proof.
  split; [reflexivity|]. split; [reflexivity|].
  apply (X1_detectBeat_reads_bass_range_only (bassBuffer 16)
           (byte_of 16 :: replicate 9 xff) 1000 warmRefs);
    reflexivity.
Defined.

(** Samples are never negative. *)
Lemma rawBassEnergy_nonNeg (f : list byte) : nonNegOrNaN (rawBassEnergy f).
Proof.
  destruct (Nat.lt_ge_cases (length f) 10) as [H|H].
  - left. now apply rawBassEnergy_short.
  - right. eexists. split; [now apply rawBassEnergy_long|].
    assert (1 <= length f / 10) by (apply Nat.div_le_lower_bound; lia).
    apply Qle_shift_div_l.
    + change 0%Q with (inject_Z 0). rewrite <- Zlt_Qlt. lia.
    + rewrite Qmult_0_l. change 0%Q with (inject_Z 0). rewrite <- Zle_Qle.
      apply byteSum_bounds.
Qed.

Lemma silentBass_sum (f : list byte) :
  silentBass f -> byteSum (take (length f / 10) f) = 0%Z.
Proof.
  unfold silentBass. generalize (take (length f / 10) f). intros l H.
  induction H as [|b l Hb _ IH]; [reflexivity|].
  subst b. cbn [byteSum foldr]. fold (byteSum l). rewrite IH. reflexivity.
Qed.

(** The sample of a buffer with a silent bass range is zero (or [NaN] for
    a buffer too short to have a bass range). *)
Lemma silent_sample (f : list byte) :
  silentBass f ->
  rawBassEnergy f = NaN \/ exists q, rawBassEnergy f = Fin q /\ (q == 0)%Q.
Proof.
  intros Hs. destruct (Nat.lt_ge_cases (length f) 10) as [H|H].
  - left. now apply rawBassEnergy_short.
  - right. eexists. split; [now apply rawBassEnergy_long|].
    rewrite (silentBass_sum f Hs). unfold Qdiv. now rewrite Qmult_0_l.
Qed.

Lemma fold_Qplus_acc (qs : list Q) (a : Q) :
  (fold_left Qplus qs a == a + fold_left Qplus qs 0)%Q.
Proof.
  revert a. induction qs as [|q qs IH]; intros a; cbn [fold_left].
  - now rewrite Qplus_0_r.
  - rewrite (IH (a + q)%Q), (IH (0 + q)%Q). ring.
Qed.

Lemma fold_Qplus_nonneg (qs : list Q) :
  Forall (fun q => (0 <= q)%Q) qs -> (0 <= fold_left Qplus qs 0)%Q.
Proof.
  induction 1 as [|q qs Hq _ IH]; cbn [fold_left]; [apply Qle_refl|].
  rewrite fold_Qplus_acc. lra.
Qed.

Lemma mean_nonneg (qs : list Q) :
  Forall (fun q => (0 <= q)%Q) qs -> qs <> [] -> (0 <= mean qs)%Q.
Proof.
  intros Hq Hne. unfold mean. apply Qle_shift_div_l.
  - change 0%Q with (inject_Z 0). rewrite <- Zlt_Qlt.
    destruct qs; [congruence | cbn [length]; lia].
  - rewrite Qmult_0_l. now apply fold_Qplus_nonneg.
Qed.

Lemma nonNeg_finOrNaN (v : number) : nonNegOrNaN v -> finOrNaN v.
Proof. intros [->|(q & -> & _)]; [now left | right; now exists q]. Qed.

Lemma samples_nonNeg (ticks : list Tick) : Forall nonNegOrNaN (samples ticks).
Proof.
  unfold samples. induction ticks as [|tk ticks IH]; cbn [map]; constructor;
    [apply rawBassEnergy_nonNeg | exact IH].
Qed.

Lemma reachable_history_nonNeg (ticks : list Tick) :
  Forall nonNegOrNaN (beatHistoryRef (snd (run ticks initialRefs))).
Proof.
  rewrite (run_history ticks initialRefs []) by reflexivity.
  apply Forall_drop. apply samples_nonNeg.
Qed.

Lemma map_Fin_nonneg (qs : list Q) :
  Forall nonNegOrNaN (map Fin qs) -> Forall (fun q => (0 <= q)%Q) qs.
Proof.
  induction qs as [|q qs IH]; intros H; [constructor|].
  inversion H as [|? ? Hq Hqs]; subst. constructor; [|now apply IH].
  destruct Hq as [Hq|(q' & Hq & Hle)]; [discriminate|].
  injection Hq as ->. exact Hle.
Qed.

Lemma silence_no_beat (ticks : list Tick) (f : list byte) (t : Z) :
  silentBass f ->
  Beat.beatDetected (fst (detectBeat f t (snd (run ticks initialRefs)))) = false.
Proof.
  intros Hsilent.
  destruct (reachable_history ticks) as [Hfin Hlen].
  pose proof (reachable_history_nonNeg ticks) as Hnn.
  set (r := snd (run ticks initialRefs)) in *.
  rewrite detectBeat_beat.
  destruct (gt _ _) eqn:E; [|reflexivity]. exfalso.
  apply exceeds_spec in E.
  - destruct E as (q & qs & Hq & Hqs & Hlt).
    destruct (silent_sample f Hsilent) as [Hn|(q0 & Hq0 & Hz)]; [congruence|].
    rewrite Hq in Hq0. injection Hq0 as <-.
    assert (Hne : qs <> []).
    { intros ->. apply (pushHistory_nonempty _ (rawBassEnergy f) Hlen Hqs). }
    assert (Hpos : Forall (fun q => (0 <= q)%Q) qs).
    { apply map_Fin_nonneg. rewrite <- Hqs.
      apply pushHistory_Forall; [exact Hnn | apply rawBassEnergy_nonNeg]. }
    pose proof (mean_nonneg qs Hpos Hne). lra.
  - apply rawBassEnergy_finOrNaN.
  - apply pushHistory_Forall; [exact Hfin | apply rawBassEnergy_finOrNaN].
  - now apply pushHistory_nonempty.
Qed.


(** X2.  Silence is never a beat: in every reachable state a buffer whose
    bass range holds only zeros reports no beat, whatever the history and
    the clock. *)
Theorem X2_silence_is_no_beat (ticks : list Tick) (f : list byte) (t : Z)
    (Hsilent : silentBass f) :
  Beat.beatDetected (fst (detectBeat f t (snd (run ticks initialRefs)))) = false.
Proof. now apply silence_no_beat. Qed.

(** X2 at an all-zero buffer after one loud tick. *)
Lemma X2_silence_is_no_beat_witness :
  silentBass (replicate 20 x00)
  /\ Beat.beatDetected
       (fst (detectBeat (replicate 20 x00) 5000
               (snd (run [(bassBuffer 255, 1000%Z)] initialRefs)))) = false.
Proof.
  assert (H : silentBass (replicate 20 x00)) by (repeat constructor).
  split; [exact H|].
  exact (X2_silence_is_no_beat [(bassBuffer 255, 1000%Z)] (replicate 20 x00)
           5000 H).
Defined.

Lemma run_app_snd (a b : list Tick) (r : BeatRefs) :
  snd (run (a ++ b) r) = snd (run b (snd (run a r))).
Proof.
  revert r. induction a as [|[f t] a IH]; intros r; [reflexivity|].
  cbn [app]. rewrite !run_cons_snd. apply IH.
Qed.

Lemma run_quiet (quiet : list Tick) :
  forall pre : list Tick,
    Forall (fun tk : Tick => silentBass (fst tk)) quiet ->
    Forall (fun b => Beat.beatDetected b = false)
           (fst (run quiet (snd (run pre initialRefs))))
    /\ lastBeatTimeRef (snd (run quiet (snd (run pre initialRefs))))
       = lastBeatTimeRef (snd (run pre initialRefs)).
Proof.
  induction quiet as [|[f t] rest IH]; intros pre Hq.
  - split; [constructor | reflexivity].
  - inversion Hq as [|? ? Hf Hrest]; subst. cbn [fst] in Hf.
    pose proof (silence_no_beat pre f t Hf) as Hno.
    rewrite run_cons_fst, run_cons_snd.
    assert (E : snd (detectBeat f t (snd (run pre initialRefs)))
                = snd (run (pre ++ [(f, t)]) initialRefs)).
    { rewrite run_app_snd. now rewrite run_cons_snd. }
    rewrite E. destruct (IH (pre ++ [(f, t)]) Hrest) as [Hb Hl].
    split; [constructor; assumption|].
    rewrite Hl, <- E, detectBeat_last, Hno. reflexivity.
Qed.

Lemma fold_Qplus_zeros (zs : list Q) :
  Forall (fun q => (q == 0)%Q) zs -> (fold_left Qplus zs 0 == 0)%Q.
Proof.
  induction 1 as [|q zs Hq _ IH]; cbn [fold_left]; [reflexivity|].
  rewrite fold_Qplus_acc, IH, Hq. ring.
Qed.

(** After a loud sample joins at least nine zeros, it exceeds 1.5 times
    the mean. *)
Lemma loud_after_zeros (zs : list Q) (q : Q) :
  Forall (fun z => (z == 0)%Q) zs -> 9 <= length zs -> (0 < q)%Q ->
  ((3 # 2) * mean (zs ++ [q]) < q)%Q.
Proof.
  intros Hz Hn Hq. unfold mean.
  rewrite fold_left_app. cbn [fold_left]. rewrite (fold_Qplus_zeros zs Hz).
  rewrite length_app. cbn [length].
  set (N := inject_Z (Z.of_nat (length zs + 1))).
  assert (HN : (10 <= N)%Q).
  { subst N. change 10%Q with (inject_Z 10). rewrite <- Zle_Qle. lia. }
  set (X := ((0 + q) / N)%Q).
  assert (HX : (0 < X)%Q).
  { subst X. apply Qlt_shift_div_l; [lra|]. lra. }
  assert (E : (X * N == q)%Q).
  { subst X. rewrite Qmult_comm, Qmult_div_r; [ring|]. lra. }
  assert (Hp : (0 <= X * (N - 10))%Q)
    by (apply Qmult_le_0_compat; lra).
  assert (Hp' : (X * (N - 10) == X * N - 10 * X)%Q) by ring.
  lra.
Qed.

Lemma byte_zero (b : byte) : Byte.to_N b = 0%N -> b = x00.
Proof.
  intros H. pose proof (Byte.of_to_N b) as E. rewrite H in E.
  cbn in E. congruence.
Qed.

Lemma byteSum_zero (l : list byte) :
  byteSum l = 0%Z -> Forall (fun b => b = x00) l.
Proof.
  induction l as [|b l IH]; intros H; [constructor|].
  cbn [byteSum foldr] in H. fold (byteSum l) in H.
  pose proof (byteSum_bounds l). constructor.
  - apply byte_zero. lia.
  - apply IH. lia.
Qed.

Lemma loud_sample (f : list byte) :
  10 <= length f -> ~ silentBass f ->
  exists q, rawBassEnergy f = Fin q /\ (0 < q)%Q.
Proof.
  intros Hlen Hloud. eexists. split; [now apply rawBassEnergy_long|].
  assert (1 <= length f / 10) by (apply Nat.div_le_lower_bound; lia).
  pose proof (byteSum_bounds (take (length f / 10) f)) as Hb.
  assert (Hs : (0 < byteSum (take (length f / 10) f))%Z).
  { destruct (Z.eq_dec (byteSum (take (length f / 10) f)) 0%Z) as [E|E]; [|lia].
    exfalso. apply Hloud. now apply byteSum_zero. }
  apply Qlt_shift_div_l.
  - change 0%Q with (inject_Z 0). rewrite <- Zlt_Qlt. lia.
  - rewrite Qmult_0_l. change 0%Q with (inject_Z 0). now rewrite <- Zlt_Qlt.
Qed.

(** The history after a run of silent ticks of full-length buffers. *)
Lemma quiet_history (quiet : list Tick) :
  Forall (fun tk : Tick => 10 <= length (fst tk) /\ silentBass (fst tk)) quiet ->
  exists zs,
    beatHistoryRef (snd (run quiet initialRefs)) = map Fin zs
    /\ Forall (fun z => (z == 0)%Q) zs
    /\ length zs = Nat.min 20 (length quiet).
Proof.
  intros Hq. rewrite (run_history quiet initialRefs []) by reflexivity.
  cbn [app].
  assert (Hs : exists zs, samples quiet = map Fin zs
                          /\ Forall (fun z => (z == 0)%Q) zs).
  { induction Hq as [|[f t] rest [Hl Hsil] _ (zs & E & Hz)].
    - exists []. split; [reflexivity | constructor].
    - cbn [fst] in *.
      destruct (silent_sample f Hsil) as [Hn|(q & Hq' & Hz0)].
      + rewrite rawBassEnergy_long in Hn by exact Hl. discriminate.
      + exists (q :: zs). unfold samples in *. cbn [map fst].
        rewrite Hq', E. split; [reflexivity | now constructor]. }
  destruct Hs as (zs & E & Hz).
  assert (Hlen : length zs = length quiet).
  { apply (f_equal length) in E. unfold samples in E.
    rewrite !length_map in E. now symmetry. }
  exists (drop (length zs - 20) zs). rewrite E, length_map.
  split; [apply skipn_map|]. split; [now apply Forall_drop|].
  rewrite length_drop. lia.
Qed.

Lemma pushHistory_Fin (zs : list Q) (q : Q) :
  exists zs',
    pushHistory (map Fin zs) (Fin q) = map Fin (zs' ++ [q])
    /\ (Forall (fun z => (z == 0)%Q) zs -> Forall (fun z => (z == 0)%Q) zs')
    /\ Nat.min 19 (length zs) <= length zs'.
Proof.
  unfold pushHistory. rewrite length_app, length_map. cbn [length].
  destruct (Nat.ltb_spec 20 (length zs + 1)) as [H|H].
  - destruct zs as [|z zs]; [cbn [length] in H; lia|].
    exists zs. cbn [map app tail]. rewrite map_app. split; [reflexivity|].
    split; [intros Hz; now inversion Hz | cbn [length] in *; lia].
  - exists zs. rewrite map_app. split; [reflexivity|].
    split; [auto | lia].
Qed.

(** X3.  Onset after silence: from the initial refs, after at least nine
    ticks of full-length buffers with a silent bass range (none of which
    reports a beat), the first buffer with any non-zero byte in its bass
    range reports a beat, provided its clock is above 200, and the last
    beat time becomes that clock. *)
Theorem X3_onset_after_silence (quiet : list Tick) (f : list byte) (t : Z)
    (Hquiet : Forall (fun tk : Tick =>
                        10 <= length (fst tk) /\ silentBass (fst tk)) quiet)
    (Hwarm : 9 <= length quiet)
    (Hlen : 10 <= length f)
    (Hloud : ~ silentBass f)
    (Hgap : (200 < t)%Z) :
  Forall (fun b => Beat.beatDetected b = false) (fst (run quiet initialRefs))
  /\ Beat.beatDetected (fst (detectBeat f t (snd (run quiet initialRefs)))) = true
  /\ lastBeatTimeRef (snd (detectBeat f t (snd (run quiet initialRefs)))) = t.
Proof.
  assert (Hsil : Forall (fun tk : Tick => silentBass (fst tk)) quiet).
  { eapply Forall_impl; [exact Hquiet|]. now intros tk [_ H]. }
  destruct (run_quiet quiet [] Hsil) as [Hno Hlast].
  change (snd (run [] initialRefs)) with initialRefs in Hno, Hlast.
  destruct (quiet_history quiet Hquiet) as (zs & E & Hz & Hlz).
  destruct (loud_sample f Hlen Hloud) as (q & Eq & Hq).
  destruct (pushHistory_Fin zs q) as (zs' & E' & Hz' & Hl').
  assert (Hbeat : Beat.beatDetected
                    (fst (detectBeat f t (snd (run quiet initialRefs)))) = true).
  { rewrite detectBeat_beat, Hlast, E, Eq, E'. cbn [lastBeatTimeRef initialRefs].
    assert (Hg : gt (Fin q) (mul (average (map Fin (zs' ++ [q]))) (Fin (3 # 2)))
                 = true).
    { apply exceeds_spec.
      - right. now exists q.
      - clear. induction (zs' ++ [q]) as [|x l IH]; cbn [map]; constructor;
          [right; now exists x | exact IH].
      - destruct zs'; discriminate.
      - exists q, (zs' ++ [q]). split; [reflexivity|]. split; [reflexivity|].
        apply loud_after_zeros; [now apply Hz' | lia | exact Hq]. }
    rewrite Hg, length_map, length_app. cbn [length andb].
    destruct (Z.ltb_spec 200 (t - 0)); [|lia].
    destruct (Nat.leb_spec 10 (length zs' + 1)); [reflexivity | lia]. }
  split; [exact Hno|]. split; [exact Hbeat|].
  now rewrite detectBeat_last, Hbeat.
Qed.

(** X3 at fifteen silent ticks of twenty bytes followed by a buffer whose
    bass range is the byte 255, at clock 1000. *)
Lemma X3_onset_after_silence_witness :
  Forall (fun tk : Tick => 10 <= length (fst tk) /\ silentBass (fst tk))
         (replicate 15 (replicate 20 x00, 0%Z))
  /\ 9 <= length (replicate 15 (replicate 20 x00, 0%Z))
  /\ 10 <= length (bassBuffer 255)
  /\ ~ silentBass (bassBuffer 255)
  /\ (200 < 1000)%Z
  /\ (Forall (fun b => Beat.beatDetected b = false)
             (fst (run (replicate 15 (replicate 20 x00, 0%Z)) initialRefs))
      /\ Beat.beatDetected
           (fst (detectBeat (bassBuffer 255) 1000
                   (snd (run (replicate 15 (replicate 20 x00, 0%Z)) initialRefs))))
         = true
      /\ lastBeatTimeRef
           (snd (detectBeat (bassBuffer 255) 1000
                   (snd (run (replicate 15 (replicate 20 x00, 0%Z)) initialRefs))))
         = 1000%Z).
Proof.
  assert (H1 : Forall (fun tk : Tick =>
                         10 <= length (fst tk) /\ silentBass (fst tk))
                      (replicate 15 (replicate 20 x00, 0%Z))).
  { apply Forall_replicate. split; [cbn; lia | repeat constructor]. }
  assert (H2 : 9 <= length (replicate 15 (replicate 20 x00, 0%Z)))
    by (cbn; lia).
  assert (H3 : 10 <= length (bassBuffer 255)) by (cbn; lia).
  assert (H4 : ~ silentBass (bassBuffer 255)).
  { intros H. inversion H as [|? ? Hb _]. discriminate Hb. }
  assert (H5 : (200 < 1000)%Z) by lia.
  split; [exact H1|]. split; [exact H2|]. split; [exact H3|].
  split; [exact H4|]. split; [exact H5|].
  exact (X3_onset_after_silence _ (bassBuffer 255) 1000 H1 H2 H3 H4 H5).
Defined.

(** ** A [NaN] sample in the window *)

Lemma nan_in_history_no_beat (f : list byte) (t : Z) (r : BeatRefs) :
  In NaN (pushHistory (beatHistoryRef r) (rawBassEnergy f)) ->
  Beat.beatDetected (fst (detectBeat f t r)) = false.
Proof.
  intros H. rewrite detectBeat_beat. unfold average.
  rewrite (fold_add_has_NaN _ _ H). cbn [div mul].
  now rewrite gt_NaN_r.
Qed.

Lemma nan_persists (pre post : list number) (e : number) :
  length post <= 18 ->
  exists pre', pushHistory (pre ++ NaN :: post) e = pre' ++ NaN :: (post ++ [e]).
Proof.
  intros Hp. unfold pushHistory.
  replace ((pre ++ NaN :: post) ++ [e]) with (pre ++ NaN :: (post ++ [e]))
    by now rewrite <- app_assoc.
  destruct (20 <? length (pre ++ NaN :: post ++ [e])) eqn:E.
  - destruct pre as [|x pre].
    + apply Nat.ltb_lt in E. cbn [app length] in E.
      rewrite length_app in E. cbn [length] in E. lia.
    + now exists pre.
  - now exists pre.
Qed.

Lemma run_poisoned (after : list Tick) :
  forall (r : BeatRefs) (pre post : list number),
    beatHistoryRef r = pre ++ NaN :: post ->
    length post + length after <= 19 ->
    Forall (fun b => Beat.beatDetected b = false) (fst (run after r)).
Proof.
  induction after as [|[f t] rest IH]; intros r pre post Hh Hn;
    [constructor|].
  cbn [length] in Hn. rewrite run_cons_fst.
  destruct (nan_persists pre post (rawBassEnergy f)) as (pre' & E); [lia|].
  constructor.
  - apply nan_in_history_no_beat. rewrite Hh, E.
    apply in_or_app. right. now left.
  - apply (IH _ pre' (post ++ [rawBassEnergy f])).
    + now rewrite detectBeat_history, Hh.
    + rewrite length_app. cbn [length]. lia.
Qed.

(** X4.  A buffer of fewer than ten bytes puts [NaN] in the history and
    the detector is deaf while it stays there: that tick and the nineteen
    ticks after it report no beat, whatever their energy and clocks. *)
Theorem X4_short_buffer_mutes_twenty_ticks (r : BeatRefs) (fs : list byte)
    (ts : Z) (after : list Tick)
    (Hshort : length fs < 10) (Hn : length after <= 19) :
  Forall (fun b => Beat.beatDetected b = false)
         (fst (run ((fs, ts) :: after) r)).
Proof.
  rewrite run_cons_fst.
  assert (Hh : exists pre,
             beatHistoryRef (snd (detectBeat fs ts r)) = pre ++ NaN :: []).
  { rewrite detectBeat_history, (rawBassEnergy_short fs Hshort).
    unfold pushHistory. destruct (20 <? _) eqn:E.
    - destruct (beatHistoryRef r) as [|x h]; [discriminate E | now exists h].
    - now exists (beatHistoryRef r). }
  destruct Hh as (pre & Hh). constructor.
  - apply nan_in_history_no_beat.
    rewrite <- detectBeat_history with (t := ts), Hh.
    apply in_or_app. right. now left.
  - apply (run_poisoned after _ pre []); [exact Hh | cbn [length]; lia].
Qed.

(** X4 at an empty buffer followed by two loud ticks far apart. *)
Lemma X4_short_buffer_mutes_twenty_ticks_witness :
  length (@nil byte) < 10
  /\ length [(bassBuffer 255, 5000%Z); (bassBuffer 255, 9000%Z)] <= 19
  /\ Forall (fun b => Beat.beatDetected b = false)
            (fst (run (([], 1000%Z)
                       :: [(bassBuffer 255, 5000%Z); (bassBuffer 255, 9000%Z)])
                      warmRefs)).
Proof.
  assert (H1 : length (@nil byte) < 10) by (cbn; lia).
  assert (H2 : length [(bassBuffer 255, 5000%Z); (bassBuffer 255, 9000%Z)] <= 19)
    by (cbn; lia).
  split; [exact H1|]. split; [exact H2|].
  exact (X4_short_buffer_mutes_twenty_ticks warmRefs [] 1000 _ H1 H2).
Defined.

(** ** A steady signal *)

Lemma fold_Qplus_replicate (n : nat) (q : Q) :
  (fold_left Qplus (replicate n q) 0 == inject_Z (Z.of_nat n) * q)%Q.
Proof.
  induction n as [|n IH].
  - cbn. ring.
  - cbn [replicate fold_left]. rewrite fold_Qplus_acc, IH.
    rewrite Nat2Z.inj_succ. unfold Z.succ. rewrite inject_Z_plus.
    change (inject_Z 1) with 1%Q. ring.
Qed.

Lemma mean_replicate (n : nat) (q : Q) :
  0 < n -> (mean (replicate n q) == q)%Q.
Proof.
  intros Hn. unfold mean. rewrite fold_Qplus_replicate, length_replicate.
  assert (~ (inject_Z (Z.of_nat n) == 0)%Q).
  { change 0%Q with (inject_Z 0). rewrite inject_Z_injective. lia. }
  field. assumption.
Qed.

Lemma pushHistory_replicate (k : nat) (e : number) :
  k <= 20 -> pushHistory (replicate k e) e = replicate (Nat.min 20 (S k)) e.
Proof.
  intros Hk. unfold pushHistory.
  assert (E : replicate k e ++ [e] = replicate (S k) e).
  { change [e] with (replicate 1 e). rewrite <- replicate_add. f_equal. lia. }
  rewrite E, length_replicate.
  destruct (Nat.ltb_spec 20 (S k)) as [H|H].
  - assert (k = 20) by lia. subst k. reflexivity.
  - f_equal. lia.
Qed.

Lemma steady_no_beat (e : number) (n : nat) :
  nonNegOrNaN e -> 0 < n ->
  gt e (mul (average (replicate n e)) (Fin (3 # 2))) = false.
Proof.
  intros [->|(q & -> & Hq)] Hn; [apply gt_NaN_l|].
  destruct (gt _ _) eqn:E; [|reflexivity]. exfalso.
  apply exceeds_spec in E.
  - destruct E as (q' & qs & Hq' & Hqs & Hlt). injection Hq' as <-.
    assert (qs = replicate n q).
    { apply map_Fin_inj. rewrite <- Hqs. clear.
      induction n as [|n IH]; [reflexivity|]. cbn [replicate map]. now f_equal. }
    subst qs. rewrite (mean_replicate n q Hn) in Hlt. lra.
  - right. now exists q.
  - apply Forall_replicate. right. now exists q.
  - destruct n; [lia | discriminate].
Qed.

Lemma run_steady (f : list byte) (clocks : list Z) :
  forall (r : BeatRefs) (k : nat),
    k <= 20 -> beatHistoryRef r = replicate k (rawBassEnergy f) ->
    Forall (fun b => Beat.beatDetected b = false)
           (fst (run (map (fun t => (f, t)) clocks) r)).
Proof.
  induction clocks as [|t rest IH]; intros r k Hk Hh; cbn [map];
    [constructor|].
  rewrite run_cons_fst. constructor.
  - rewrite detectBeat_beat, Hh, pushHistory_replicate by exact Hk.
    rewrite steady_no_beat; [reflexivity | apply rawBassEnergy_nonNeg | lia].
  - apply (IH _ (Nat.min 20 (S k))); [lia|].
    rewrite detectBeat_history, Hh. now apply pushHistory_replicate.
Qed.

(** X5.  A steady signal never triggers a beat: feeding one and the same
    buffer on every tick from the initial refs, however loud and at
    whatever clocks, reports no beat on any tick. *)
Theorem X5_steady_signal_has_no_beat (f : list byte) (clocks : list Z) :
  Forall (fun b => Beat.beatDetected b = false)
         (fst (run (map (fun t => (f, t)) clocks) initialRefs)).
Proof.
  apply (run_steady f clocks initialRefs 0); [lia | reflexivity].
Qed.

(** * Further properties of the canvas *)

Section MorePainting.

Context `{Math : MathLib}.

Lemma paintsAt_refl (c : Context2D) : paintsAt (globalAlpha c) c c.
Proof.
  split; [reflexivity|]. exists []. split; [now rewrite app_nil_r | constructor].
Qed.

Lemma paintsAt_trans (alpha : number) (c1 c2 c3 : Context2D) :
  paintsAt alpha c1 c2 -> paintsAt alpha c2 c3 -> paintsAt alpha c1 c3.
Proof.
  intros (_ & n1 & E1 & F1) (A & n2 & E2 & F2). split; [exact A|].
  exists (n1 ++ n2). rewrite E2, E1, <- app_assoc. split; [reflexivity|].
  apply Forall_app. now split.
Qed.

Lemma paintsAt_loop (alpha : number) (bound : number)
    (body : nat -> Context2D -> Context2D) (c : Context2D) :
  globalAlpha c = alpha ->
  (forall i c1, globalAlpha c1 = alpha -> paintsAt alpha c1 (body i c1)) ->
  paintsAt alpha c (for_lt bound body c).
Proof.
  intros Ha Hbody.
  apply (for_lt_ind (fun _ c' => paintsAt alpha c c')).
  - rewrite <- Ha. apply paintsAt_refl.
  - intros i c1 _ H. eapply paintsAt_trans; [exact H|].
    apply Hbody. apply H.
Qed.

Lemma paintsAt_emit (c : Context2D) (o : DrawOp) :
  opAlpha o = Some (globalAlpha c) -> paintsAt (globalAlpha c) c (emit o c).
Proof.
  intros H. split; [reflexivity|]. exists [o]. split; [reflexivity|].
  constructor; [exact H | constructor].
Qed.

Lemma drawWaveform_paintsAt (td : list byte) (w h : nat) (c : Context2D) :
  paintsAt (globalAlpha c) c (drawWaveform td w h c).
Proof.
  unfold drawWaveform. cbv zeta. unfold stroke.
  match goal with |- context [for_lt ?bd ?body ?c0] =>
    assert (L : paintsAt (globalAlpha c) c (for_lt bd body c0))
  end.
  { eapply paintsAt_trans; [apply paintsAt_refl|].
    match goal with |- paintsAt _ _ (for_lt ?bd ?body ?c0) =>
      assert (L0 : paintsAt (globalAlpha c) c0 (for_lt bd body c0))
    end.
    { apply paintsAt_loop; [reflexivity|].
      intros i c1 H1. cbv zeta.
      destruct (Nat.eqb i 0); (split; [exact H1|]); exists [];
        (split; [now rewrite app_nil_r | constructor]). }
    destruct L0 as (A & new & E & F). split; [exact A|].
    exists new. split; [exact E | exact F]. }
  eapply paintsAt_trans; [exact L|].
  destruct L as (A & _). rewrite <- A. apply paintsAt_emit.
  reflexivity.
Qed.

Lemma drawCircularSpectrum_paintsAt (f : list byte) (w h : nat)
    (c : Context2D) :
  paintsAt (globalAlpha c) c (drawCircularSpectrum f w h c).
Proof.
  unfold drawCircularSpectrum. cbv zeta.
  match goal with |- paintsAt _ _ (for_lt ?bd ?body ?c0) =>
    assert (L0 : paintsAt (globalAlpha c) c0 (for_lt bd body c0))
  end.
  { apply paintsAt_loop; [reflexivity|].
    intros i c1 H1. cbv zeta. unfold stroke. rewrite <- H1.
    match goal with |- paintsAt _ _ (emit ?o ?c2) =>
      change (globalAlpha c1) with (globalAlpha c2);
      eapply paintsAt_trans; [|apply (paintsAt_emit c2 o); reflexivity]
    end.
    split; [reflexivity|]. exists []. split; [now rewrite app_nil_r | constructor]. }
  exact L0.
Qed.

Lemma drawParticles_paintsAt (f : list byte) (w h : nat) (beat : bool)
    (energy : number) (c : Context2D) :
  paintsAt (globalAlpha c) c (drawParticles f w h beat energy c).
Proof.
  unfold drawParticles. cbv zeta.
  match goal with |- paintsAt _ _ (for_lt ?bd ?body ?c0) =>
    assert (L0 : paintsAt (globalAlpha c) c0 (for_lt bd body c0))
  end.
  { apply paintsAt_loop; [now destruct beat|].
    intros i c1 H1. cbv zeta. unfold fill. rewrite <- H1.
    match goal with |- paintsAt _ _ (emit ?o ?c2) =>
      change (globalAlpha c1) with (globalAlpha c2);
      eapply paintsAt_trans; [|apply (paintsAt_emit c2 o); reflexivity]
    end.
    split; [reflexivity|]. exists []. split; [now rewrite app_nil_r | constructor]. }
  destruct L0 as (A & new & E & F). split; [exact A|].
  exists new. split; [|exact F]. rewrite E. now destruct beat.
Qed.

(** X6.  For the waveform, the circular spectrum and the particles the
    cross-fade opacity is honoured: a call of [renderMode] with an opacity
    below 1 makes every painting call of that mode at exactly that
    opacity, and returns the context with alpha 1. *)
Theorem X6_fade_opacity_is_kept_outside_bars (m : VisualizerMode)
    (a : AudioData) (opacity : number) (st : State)
    (Hmode : m = waveform \/ m = circular \/ m = particles)
    (Hfade : lt opacity (Fin 1) = true) :
  let st' := renderMode m a opacity st in
  globalAlpha (ctx st') = Fin 1
  /\ exists new,
       ops (ctx st') = ops (ctx st) ++ new
       /\ Forall (fun o => opAlpha o = Some opacity) new.
Proof.
  cbv zeta. unfold renderMode. cbv zeta. rewrite Hfade.
  set (c0 := set_globalAlpha opacity (ctx st)).
  assert (H0 : ops c0 = ops (ctx st) /\ globalAlpha c0 = opacity) by now split.
  destruct Hmode as [-> | [-> | ->]];
    cbn [with_ctx note_call ctx set_globalAlpha globalAlpha ops
         canvas_width canvas_height]; (split; [reflexivity|]).
  - destruct (drawWaveform_paintsAt (timeData a) (canvas_width (ctx st))
                (canvas_height (ctx st)) c0) as (_ & new & E & F).
    exists new. split; [exact E | exact F].
  - destruct (drawCircularSpectrum_paintsAt (frequencyData a)
                (canvas_width (ctx st)) (canvas_height (ctx st)) c0)
      as (_ & new & E & F).
    exists new. split; [exact E | exact F].
  - destruct (drawParticles_paintsAt (frequencyData a)
                (canvas_width (ctx st)) (canvas_height (ctx st))
                (beatDetected a) (bassEnergy a) c0) as (_ & new & E & F).
    exists new. split; [exact E | exact F].
Qed.

End MorePainting.

(** X6 at the waveform drawn at opacity 1/2 on a 4 by 4 canvas. *)
Lemma X6_fade_opacity_is_kept_outside_bars_witness :
  (waveform = waveform \/ waveform = circular \/ waveform = particles)
  /\ lt (Fin (1 # 2)) (Fin 1) = true
  /\ (let st' := @renderMode sampleMath waveform sampleAudio (Fin (1 # 2))
                              (mount bars 4 4) in
      globalAlpha (ctx st') = Fin 1
      /\ exists new,
           ops (ctx st') = ops (ctx (mount bars 4 4)) ++ new
           /\ Forall (fun o => opAlpha o = Some (Fin (1 # 2))) new).
Proof.
  assert (H1 : waveform = waveform \/ waveform = circular \/ waveform = particles)
    by now left.
  assert (H2 : lt (Fin (1 # 2)) (Fin 1) = true) by reflexivity.
  split; [exact H1|]. split; [exact H2|].
  exact (@X6_fade_opacity_is_kept_outside_bars sampleMath waveform sampleAudio
           (Fin (1 # 2)) (mount bars 4 4) H1 H2).
Defined.

Section SpectrogramFrames.

Context `{Math : MathLib}.

Lemma renderMode_keeps_spectrogram (m : VisualizerMode) (a : AudioData)
    (o : number) (st : State) :
  m <> spectrogram ->
  spectrogramDataRef (renderMode m a o st) = spectrogramDataRef st.
Proof.
  intros Hm. unfold renderMode. cbv zeta.
  destruct (lt o (Fin 1)); destruct m; try congruence; reflexivity.
Qed.

(** X7.  The spectrogram buffer moves only when the spectrogram is drawn:
    a frame whose [mode] prop and whose [previousMode] are both another
    mode leaves the buffer cell exactly as it was. *)
Theorem X7_other_modes_keep_spectrogram (oa : option AudioData)
    (m : VisualizerMode) (st : State)
    (Hmode : m <> spectrogram) (Hprev : previousMode st <> spectrogram) :
  spectrogramDataRef (render oa m st) = spectrogramDataRef st.
Proof.
  destruct oa as [a|]; [|reflexivity]. unfold render. cbv zeta.
  set (s0 := with_ctx _ (with_ctx _ st)).
  change (previousMode s0) with (previousMode st).
  assert (H0 : spectrogramDataRef s0 = spectrogramDataRef st) by reflexivity.
  clearbody s0.
  destruct (isTransitioning s0 && lt (transitionProgress s0) (Fin 1)).
  - set (s1 := if gt _ (Fin 0) then _ else s0).
    assert (H1 : spectrogramDataRef s1 = spectrogramDataRef st).
    { subst s1. destruct (gt _ (Fin 0)); [|exact H0].
      now rewrite renderMode_keeps_spectrogram. }
    clearbody s1.
    set (s2 := if gt _ (Fin 0) then _ else s1).
    assert (H2 : spectrogramDataRef s2 = spectrogramDataRef st).
    { subst s2. destruct (gt _ (Fin 0)); [|exact H1].
      now rewrite renderMode_keeps_spectrogram. }
    clearbody s2. now destruct (ge _ (Fin 1)).
  - now rewrite renderMode_keeps_spectrogram.
Qed.

Lemma renderMode_spectrogram (a : AudioData) (o : number) (st : State) :
  spectrogramDataRef (renderMode spectrogram a o st)
  = spectrogramDataRef (drawSpectrogram (frequencyData a)
                          (canvas_width (ctx st)) (canvas_height (ctx st)) st)
  /\ canvas_width (ctx (renderMode spectrogram a o st)) = canvas_width (ctx st)
  /\ canvas_height (ctx (renderMode spectrogram a o st)) = canvas_height (ctx st).
Proof.
  unfold renderMode. cbv zeta. unfold drawSpectrogram.
  destruct (lt o (Fin 1));
    cbn [with_ctx note_call ctx set_globalAlpha canvas_width canvas_height
         spectrogramDataRef];
    destruct (spectrogramDataRef st); repeat split; reflexivity.
Qed.

(** An advance seen through [renderMode]. *)
Lemma renderMode_spectrogram_shift (a : AudioData) (o : number) (st : State)
    (img : ImageData) (w h : nat) :
  spectrogramDataRef st = Some img ->
  canvas_width (ctx st) = w -> canvas_height (ctx st) = h ->
  length (data img) = w * h * 4 ->
  let st' := renderMode spectrogram a o st in
  canvas_width (ctx st') = w /\ canvas_height (ctx st') = h
  /\ exists img',
       spectrogramDataRef st' = Some img'
       /\ length (data img') = w * h * 4
       /\ forall x y, x + 1 < w -> y < h ->
            pixel w (data img') x y = pixel w (data img) (x + 1) y.
Proof.
  intros E Hw Hh Hl. cbv zeta.
  destruct (renderMode_spectrogram a o st) as (R & W & H).
  rewrite W, H, R, Hw, Hh. split; [reflexivity|]. split; [reflexivity|].
  destruct (drawSpectrogram_shift (frequencyData a) w h st img E Hl)
    as (img' & E' & S).
  destruct (drawSpectrogram_buffer (frequencyData a) w h st)
    as (img'' & E'' & _ & _ & L).
  rewrite E' in E''. injection E'' as <-.
  exists img'. split; [exact E'|]. split; [exact L | exact S].
Qed.

(** X8.  While a blend into the spectrogram is under way the buffer
    advances twice per frame: with [previousMode] and the [mode] prop both
    the spectrogram and the progress strictly between 0 and 1, both layers
    call the advance, so after one frame every pixel has moved two
    columns to the left. *)
Theorem X8_blend_scrolls_two_columns (a : AudioData) (st : State) (p : Q)
    (img : ImageData) (w h : nat)
    (Hactive : isTransitioning st = true)
    (Hprogress : transitionProgress st = Fin p)
    (Hlow : (0 < p)%Q) (Hhigh : (p < 1)%Q)
    (Hprev : previousMode st = spectrogram)
    (Hready : spectrogramDataRef st = Some img)
    (Hwidth : canvas_width (ctx st) = w)
    (Hheight : canvas_height (ctx st) = h)
    (Hsize : length (data img) = w * h * 4) :
  exists img',
    spectrogramDataRef (render (Some a) spectrogram st) = Some img'
    /\ forall x y, x + 2 < w -> y < h ->
         pixel w (data img') x y = pixel w (data img) (x + 2) y.
Proof.
  unfold render. cbv zeta.
  set (s0 := with_ctx _ (with_ctx _ st)).
  change (isTransitioning s0) with (isTransitioning st).
  change (transitionProgress s0) with (transitionProgress st).
  change (previousMode s0) with (previousMode st).
  rewrite Hactive, Hprogress, Hprev, andb_true_l.
  change (lt (Fin p) (Fin 1)) with (Qltb p 1).
  rewrite (proj2 (Qltb_lt p 1) Hhigh).
  change (sub (Fin 1) (Fin p)) with (Fin (1 - p)).
  change (gt (Fin (1 - p)) (Fin 0)) with (Qltb 0 (1 - p)).
  change (gt (Fin p) (Fin 0)) with (Qltb 0 p).
  assert (H1p : (0 < 1 - p)%Q) by lra.
  rewrite (proj2 (Qltb_lt 0 (1 - p)) H1p), (proj2 (Qltb_lt 0 p) Hlow).
  assert (E0 : spectrogramDataRef s0 = Some img) by exact Hready.
  assert (W0 : canvas_width (ctx s0) = w) by exact Hwidth.
  assert (H0 : canvas_height (ctx s0) = h) by exact Hheight.
  clearbody s0.
  destruct (renderMode_spectrogram_shift a (Fin (1 - p)) s0 img w h E0 W0 H0 Hsize)
    as (W1 & H1 & img1 & E1 & L1 & S1).
  set (s1 := renderMode spectrogram a (Fin (1 - p)) s0) in *. clearbody s1.
  destruct (renderMode_spectrogram_shift a (Fin p) s1 img1 w h E1 W1 H1 L1)
    as (_ & _ & img2 & E2 & _ & S2).
  set (s2 := renderMode spectrogram a (Fin p) s1) in *. clearbody s2.
  exists img2. split.
  - now destruct (ge _ (Fin 1)).
  - intros x y Hx Hy. rewrite S2 by lia. rewrite S1 by lia.
    now replace (x + 1 + 1) with (x + 2) by lia.
Qed.

End SpectrogramFrames.

(** X7 at a frame of bars on a freshly mounted canvas. *)
Lemma X7_other_modes_keep_spectrogram_witness :
  bars <> spectrogram
  /\ previousMode (mount bars 4 4) <> spectrogram
  /\ spectrogramDataRef (@render sampleMath (Some sampleAudio) bars (mount bars 4 4))
     = spectrogramDataRef (mount bars 4 4).
Proof.
  assert (H1 : bars <> spectrogram) by discriminate.
  assert (H2 : previousMode (mount bars 4 4) <> spectrogram) by discriminate.
  split; [exact H1|]. split; [exact H2|].
  exact (@X7_other_modes_keep_spectrogram sampleMath (Some sampleAudio) bars
           (mount bars 4 4) H1 H2).
Defined.

(** X8 at the second frame of a blend into the spectrogram. *)
Lemma X8_blend_scrolls_two_columns_witness :
  isTransitioning blendingState = true
  /\ transitionProgress blendingState = Fin (5 # 100)
  /\ (0 < 5 # 100)%Q /\ (5 # 100 < 1)%Q
  /\ previousMode blendingState = spectrogram
  /\ spectrogramDataRef blendingState = Some (blackImage 3 2)
  /\ canvas_width (ctx blendingState) = 3
  /\ canvas_height (ctx blendingState) = 2
  /\ length (data (blackImage 3 2)) = 3 * 2 * 4
  /\ exists img',
       spectrogramDataRef (@render sampleMath (Some sampleAudio) spectrogram
                                   blendingState) = Some img'
       /\ forall x y, x + 2 < 3 -> y < 2 ->
            pixel 3 (data img') x y = pixel 3 (data (blackImage 3 2)) (x + 2) y.
Proof.
  assert (H1 : isTransitioning blendingState = true) by reflexivity.
  assert (H2 : transitionProgress blendingState = Fin (5 # 100)) by reflexivity.
  assert (H3 : (0 < 5 # 100)%Q) by reflexivity.
  assert (H4 : (5 # 100 < 1)%Q) by reflexivity.
  assert (H5 : previousMode blendingState = spectrogram) by reflexivity.
  assert (H6 : spectrogramDataRef blendingState = Some (blackImage 3 2))
    by reflexivity.
  assert (H7 : canvas_width (ctx blendingState) = 3) by reflexivity.
  assert (H8 : canvas_height (ctx blendingState) = 2) by reflexivity.
  assert (H9 : length (data (blackImage 3 2)) = 3 * 2 * 4) by reflexivity.
  repeat (split; [assumption|]).
  exact (@X8_blend_scrolls_two_columns sampleMath sampleAudio blendingState
           (5 # 100) (blackImage 3 2) 3 2 H1 H2 H3 H4 H5 H6 H7 H8 H9).
Defined.

(** ** The new spectrogram column *)

Lemma appendColumn_column (f : list byte) (bins : number) (w h : nat)
    (d0 : list byte) :
  0 < w -> length d0 = w * h * 4 -> iterations bins <= h ->
  forall y k, y < iterations bins -> k < 4 ->
    appendColumn f bins w d0 !! ((y * w + (w - 1)) * 4 + k)
    = Some (toUint8Clamped (columnChannel f bins y k)).
Proof.
  intros Hw Hl Hb. unfold appendColumn.
  match goal with |- context [for_lt ?bd ?body d0] =>
    pose proof (for_lt_ind (fun n d =>
      length d = length d0
      /\ forall y k, y < n -> k < 4 ->
           d !! ((y * w + (w - 1)) * 4 + k)
           = Some (toUint8Clamped (columnChannel f bins y k)))
      bd body d0) as H
  end.
  apply H; clear H.
  - split; [reflexivity | intros; lia].
  - intros n d Hn (Hld & Hrows). cbv zeta.
    split; [now rewrite !store_length|].
    assert (Hin : (n * w + (w - 1)) * 4 + 3 < length d).
    { rewrite Hld, Hl. pose proof (row_below w n h (w - 1)). lia. }
    intros y k Hy Hk. destruct (Nat.eq_dec y n) as [-> | Hne].
    + assert (Hk' : k = 0 \/ k = 1 \/ k = 2 \/ k = 3) by lia.
      destruct Hk' as [-> | [-> | [-> | ->]]];
        rewrite ?Nat.add_0_r;
        repeat (first
          [ rewrite store_same by (rewrite ?store_length; lia)
          | rewrite store_other by lia ]);
        reflexivity.
    + assert (Hp : y * w + (w - 1) <> n * w + (w - 1)).
      { intros E. apply pixel_index_inj in E; lia. }
      rewrite !store_other by lia. apply Hrows; lia.
Qed.

Lemma Qfloor_frac (a : Z) (b : positive) (x : Q) :
  (x == a # b)%Q -> Qfloor x = (a / Z.pos b)%Z.
Proof. intros E. now rewrite (Qfloor_comp _ _ E). Qed.

Lemma roundHalfEven_Z (z : Z) : roundHalfEven (inject_Z z) = z.
Proof.
  unfold roundHalfEven. rewrite Qfloor_Z.
  replace (Qltb (inject_Z z - inject_Z z) (1 # 2)) with true; [reflexivity|].
  symmetry. apply Qltb_lt. ring_simplify. reflexivity.
Qed.

Lemma toUint8Clamped_of_Z (z : Z) :
  (0 <= z <= 255)%Z -> toUint8Clamped (of_Z z) = byte_of (Z.to_N z).
Proof.
  intros Hz. unfold toUint8Clamped, of_Z. rewrite roundHalfEven_Z.
  f_equal. f_equal. lia.
Qed.

(** The frequency-bin count when the buffer has at least two bins per
    row: the canvas height. *)
Lemma frequencyBins_tall (len h : nat) :
  2 * h <= len ->
  exists qb,
    Math_min (div (of_nat len) (Fin 2)) (of_nat h) = Fin qb
    /\ (qb == inject_Z (Z.of_nat h))%Q.
Proof.
  intros H. unfold of_nat, of_Z at 1. cbn [div]. change (Qis0 2) with false.
  cbn iota. unfold Math_min, of_Z.
  destruct (lt _ _) eqn:E.
  - eexists. split; reflexivity.
  - eexists. split; [reflexivity|].
    cbn [lt] in E. unfold Qltb in E. apply negb_false_iff in E.
    apply Qle_bool_iff in E.
    assert ((inject_Z (Z.of_nat h) <= inject_Z (Z.of_nat len) / 2)%Q).
    { apply Qle_shift_div_l; [reflexivity|].
      change 2%Q with (inject_Z 2). rewrite <- inject_Z_mult, <- Zle_Qle. lia. }
    now apply Qle_antisym.
Qed.

Lemma columnChannel_tall (f : list byte) (h y : nat) (qb : Q) (v : byte) :
  (qb == inject_Z (Z.of_nat h))%Q -> y < h ->
  f !! (y * length f / h) = Some v ->
  map (fun k => Some (toUint8Clamped (columnChannel f (Fin qb) y k)))
      [0; 1; 2; 3]
  = heatColour v.
Proof.
  intros Eq Hy Hv.
  assert (Hh : (0 < Z.of_nat h)%Z) by lia.
  assert (Hq0 : Qis0 qb = false).
  { unfold Qis0. destruct (Qeq_bool qb 0) eqn:E; [|reflexivity].
    apply Qeq_bool_iff in E. rewrite E in Eq.
    change 0%Q with (inject_Z 0) in Eq. apply -> inject_Z_injective in Eq. lia. }
  assert (Hidx : Math_floor (mul (div (of_nat y) (Fin qb)) (of_nat (length f)))
                 = of_Z (Z.of_nat (y * length f / h))).
  { unfold of_nat, of_Z at 1 2. cbn [div]. rewrite Hq0. cbn [mul Math_floor].
    f_equal. rewrite Nat2Z.inj_div, Nat2Z.inj_mul.
    destruct h as [|h']; [lia|].
    rewrite (Qfloor_frac (Z.of_nat y * Z.of_nat (length f))
                         (Pos.of_succ_nat h')).
    - now rewrite Zpos_P_of_succ_nat, <- Nat2Z.inj_succ.
    - rewrite Eq, (Qmake_Qdiv (Z.of_nat y * Z.of_nat (length f))), Zpos_P_of_succ_nat, <- Nat2Z.inj_succ.
      rewrite inject_Z_mult. field.
      intros E0. change 0%Q with (inject_Z 0) in E0.
      apply -> inject_Z_injective in E0. lia. }
  assert (Hget : get_at f (of_Z (Z.of_nat (y * length f / h))) = u8 v).
  { unfold get_at, of_Z. rewrite Qfloor_Z, Qeq_bool_refl.
    destruct (Z.leb_spec 0 (Z.of_nat (y * length f / h))); [|lia].
    cbn [andb]. rewrite Nat2Z.id. unfold get. now rewrite Hv. }
  unfold heatColour, columnChannel. cbv zeta. rewrite Hidx, Hget.
  set (n := Z.of_N (Byte.to_N v)).
  assert (Hn : (0 <= n <= 255)%Z).
  { subst n. pose proof (Byte.to_N_bounded v). lia. }
  unfold u8. fold n. unfold of_Z at 1 2 3. cbn [div].
  change (Qis0 255) with false. cbn iota. cbn [map mul sub neg add Math_floor].
  assert (F0 : Qfloor (inject_Z n / 255 * 255) = n).
  { rewrite (Qfloor_frac n 1); [apply Z.div_1_r|].
    change (n # 1) with (inject_Z n). field. }
  assert (F1 : Qfloor (inject_Z n / 255 * 128) = (n * 128 / 255)%Z).
  { apply (Qfloor_frac (n * 128) 255).
    rewrite (Qmake_Qdiv (n * 128) 255), inject_Z_mult.
    change (inject_Z 128) with 128%Q. change (inject_Z 255) with 255%Q. field. }
  assert (F2 : Qfloor ((1 + - (inject_Z n / 255)) * 255) = (255 - n)%Z).
  { rewrite (Qfloor_frac (255 - n) 1); [apply Z.div_1_r|].
    change (255 - n # 1) with (inject_Z (255 - n)).
    unfold Z.sub. rewrite inject_Z_plus, inject_Z_opp.
    change (inject_Z 255) with 255%Q. field. }
  rewrite F0, F1, F2.
  rewrite !toUint8Clamped_of_Z
    by (first [lia | split; [apply Z.div_pos; lia
                               | apply Z.div_le_upper_bound; lia]]).
  change (toUint8Clamped (Fin 255)) with xff.
  subst n. rewrite N2Z.id.
  replace (Z.to_N (Z.of_N (Byte.to_N v) * 128 / 255))
    with (Byte.to_N v * 128 / 255)%N
    by (rewrite <- (N2Z.id (Byte.to_N v * 128 / 255));
        now rewrite N2Z.inj_div, N2Z.inj_mul).
  replace (Z.to_N (255 - Z.of_N (Byte.to_N v))) with (255 - Byte.to_N v)%N
    by (pose proof (Byte.to_N_bounded v); lia).
  unfold byte_of at 1. rewrite Byte.of_to_N. reflexivity.
Qed.

Lemma pixel_channels (w : nat) (d : list byte) (x y : nat)
    (c : nat -> option byte) :
  (forall k, k < 4 -> d !! ((y * w + x) * 4 + k) = c k) ->
  pixel w d x y = map c [0; 1; 2; 3].
Proof.
  intros H. unfold pixel. cbv zeta. cbn [map].
  pose proof (H 0) as H0. rewrite Nat.add_0_r in H0.
  rewrite H0, (H 1), (H 2), (H 3) by lia. reflexivity.
Qed.

(** The new column in the model's exact arithmetic. *)
Lemma new_column_model (f : list byte) (w h y : nat) (st : State)
    (old : ImageData) (v : byte)
    (Hready : spectrogramDataRef st = Some old)
    (Hw : 0 < w) (Hy : y < h)
    (Hbins : 2 * h <= length f)
    (Hbin : f !! (y * length f / h) = Some v) :
  exists img,
    spectrogramDataRef (drawSpectrogram f w h st) = Some img
    /\ pixel w (data img) (w - 1) y = heatColour v.
Proof.
  unfold drawSpectrogram. rewrite Hready.
  eexists. cbn [with_ctx set_spectrogramData spectrogramDataRef].
  split; [reflexivity|]. cbn [data createImageData].
  destruct (frequencyBins_tall (length f) h Hbins) as (qb & Eb & Eq).
  rewrite Eb.
  assert (Hit : iterations (Fin qb) = h).
  { unfold iterations. rewrite (Qceiling_comp _ _ Eq), Qceiling_Z.
    apply Nat2Z.id. }
  rewrite <- (columnChannel_tall f h y qb v Eq Hy Hbin).
  apply pixel_channels. intros k Hk.
  apply (appendColumn_column f (Fin qb) w h); try lia.
  pose proof (shiftLeft_spec (data old) w h (replicate (w * h * 4) x00)
                (length_replicate _ _)) as [Hl _].
  rewrite Hl. apply length_replicate.
Qed.

(** X9.  What a new spectrogram column shows.  With the accumulator ready
    and at least two frequency bins per canvas row, row [y] of the
    rightmost column after an advance shows an existing bin, the one at
    [y * N / height] (low frequencies at the top) or, by rounding, the
    one before it: red is its magnitude, green the integer part of
    128/255 of it, blue 255 minus it (or one less, by rounding),
    alpha 255. *)
Theorem X9_new_column_colours (f : list byte) (w h y : nat) (st : State)
    (old : ImageData)
    (Hready : spectrogramDataRef st = Some old)
    (Hw : 0 < w) (Hy : y < h)
    (Hbins : 2 * h <= length f) :
  exists img k v blue,
    spectrogramDataRef (drawSpectrogram f w h st) = Some img
    /\ f !! k = Some v
    /\ k * h <= y * length f /\ y * length f < (k + 2) * h
    /\ pixel w (data img) (w - 1) y
       = [Some v; Some (byte_of (Byte.to_N v * 128 / 255)); Some blue; Some xff]
    /\ (blue = byte_of (255 - Byte.to_N v)
        \/ blue = byte_of (254 - Byte.to_N v)).
Proof.
  assert (Hk : y * length f / h < length f).
  { apply Nat.Div0.div_lt_upper_bound. nia. }
  destruct (lookup_lt_is_Some_2 f _ Hk) as [v Hv].
  destruct (new_column_model f w h y st old v Hready Hw Hy Hbins Hv)
    as (img & E & Hp).
  exists img, (y * length f / h), v, (byte_of (255 - Byte.to_N v)).
  split; [exact E|]. split; [exact Hv|].
  pose proof (Nat.Div0.mul_div_le (y * length f) h) as Hlo.
  pose proof (Nat.mul_succ_div_gt (y * length f) h ltac:(lia)) as Hhi.
  split; [lia|]. split; [lia|]. split; [exact Hp | now left].
Qed.

(** X9 at row 1 of a 2 by 2 canvas and the eight-bin sample buffer. *)
Lemma X9_new_column_colours_witness :
  spectrogramDataRef (drawSpectrogram (frequencyData sampleAudio) 2 2
                                      (mount spectrogram 2 2))
  = Some (blackImage 2 2)
  /\ 0 < 2 /\ 1 < 2
  /\ 2 * 2 <= length (frequencyData sampleAudio)
  /\ exists img k v blue,
       spectrogramDataRef
         (drawSpectrogram (frequencyData sampleAudio) 2 2
            (drawSpectrogram (frequencyData sampleAudio) 2 2
                             (mount spectrogram 2 2)))
       = Some img
       /\ frequencyData sampleAudio !! k = Some v
       /\ k * 2 <= 1 * length (frequencyData sampleAudio)
       /\ 1 * length (frequencyData sampleAudio) < (k + 2) * 2
       /\ pixel 2 (data img) (2 - 1) 1
          = [Some v; Some (byte_of (Byte.to_N v * 128 / 255)); Some blue; Some xff]
       /\ (blue = byte_of (255 - Byte.to_N v)
           \/ blue = byte_of (254 - Byte.to_N v)).
Proof.
  assert (H1 : spectrogramDataRef
                 (drawSpectrogram (frequencyData sampleAudio) 2 2
                                  (mount spectrogram 2 2))
               = Some (blackImage 2 2)) by reflexivity.
  assert (H2 : 0 < 2) by lia.
  assert (H3 : 1 < 2) by lia.
  assert (H4 : 2 * 2 <= length (frequencyData sampleAudio))
    by (vm_compute; lia).
  split; [exact H1|]. split; [exact H2|]. split; [exact H3|].
  split; [exact H4|].
  exact (X9_new_column_colours (frequencyData sampleAudio) 2 2 1 _
           (blackImage 2 2) H1 H2 H3 H4).
Defined.

(** The shift never writes the last column. *)
Lemma shiftLeft_last_column (old : list byte) (w h : nat) (d0 : list byte) :
  0 < w -> length d0 = w * h * 4 ->
  forall y k, k < 4 ->
    shiftLeft old w h d0 !! ((y * w + (w - 1)) * 4 + k)
    = d0 !! ((y * w + (w - 1)) * 4 + k).
Proof.
  intros Hw Hlen. unfold shiftLeft.
  match goal with |- context [for_lt ?bd ?body d0] =>
    pose proof (for_lt_ind (fun (_ : nat) d =>
      length d = length d0
      /\ forall y k, k < 4 ->
           d !! ((y * w + (w - 1)) * 4 + k) = d0 !! ((y * w + (w - 1)) * 4 + k))
      bd body d0) as H
  end.
  rewrite iterations_of_nat in H. apply H; clear H.
  - split; reflexivity.
  - intros n d Hn (Hl & Hcol).
    assert (Hrow : (n * w + (w - 1)) * 4 <= length d).
    { rewrite Hl, Hlen. pose proof (row_below w n h (w - 1)). lia. }
    destruct (shift_row old w n d Hrow) as (Hl1 & _ & Ho1).
    cbv beta zeta in Hl1, Ho1 |- *. split; [congruence|].
    intros y k Hk. rewrite Ho1; [now apply Hcol|].
    destruct (Nat.lt_ge_cases y n) as [Hlt|Hge].
    + left. pose proof (row_below w y n (w - 1)). lia.
    + right. assert (n * w <= y * w) by (apply Nat.mul_le_mono_r; lia). lia.
Qed.

(** Rows at or below the loop bound are not written by [appendColumn]. *)
Lemma appendColumn_rest (f : list byte) (bins : number) (w : nat)
    (d0 : list byte) :
  0 < w ->
  forall y k, iterations bins <= y -> k < 4 ->
    appendColumn f bins w d0 !! ((y * w + (w - 1)) * 4 + k)
    = d0 !! ((y * w + (w - 1)) * 4 + k).
Proof.
  intros Hw y k Hy Hk. unfold appendColumn.
  match goal with |- context [for_lt ?bd ?body d0] =>
    pose proof (for_lt_ind (fun n d =>
      n <= iterations bins ->
      d !! ((y * w + (w - 1)) * 4 + k) = d0 !! ((y * w + (w - 1)) * 4 + k))
      bd body d0) as H
  end.
  apply H; clear H; [reflexivity | | lia].
  intros n d Hn IH _. cbv zeta.
  assert (Hp : y * w + (w - 1) <> n * w + (w - 1)).
  { intros E. apply pixel_index_inj in E; lia. }
  rewrite !store_other by lia. apply IH. lia.
Qed.

Lemma iterations_half (len : nat) :
  iterations (div (of_nat len) (Fin 2)) = (len + 1) / 2.
Proof.
  unfold of_nat, of_Z. cbn [div]. change (Qis0 2) with false. cbn iota.
  unfold iterations, Qceiling.
  rewrite (Qfloor_frac (- Z.of_nat len) 2).
  - apply Nat2Z.inj. rewrite Nat2Z.inj_div, Nat2Z.inj_add, Z2Nat.id.
    + change (Z.of_nat 1) with 1%Z. change (Z.of_nat 2) with 2%Z.
      change (Z.pos 2) with 2%Z.
      pose proof (Z.div_mod (- Z.of_nat len) 2).
      pose proof (Z.mod_pos_bound (- Z.of_nat len) 2).
      pose proof (Z.div_mod (Z.of_nat len + 1) 2).
      pose proof (Z.mod_pos_bound (Z.of_nat len + 1) 2). lia.
    + change (Z.pos 2) with 2%Z.
      pose proof (Z.div_mod (- Z.of_nat len) 2).
      pose proof (Z.mod_pos_bound (- Z.of_nat len) 2). lia.
  - rewrite (Qmake_Qdiv (- Z.of_nat len) 2), inject_Z_opp.
    change (inject_Z 2) with 2%Q. field.
Qed.

(** X10.  With fewer than two bins per row the new column is filled only
    as far as the bins reach: below row [ceil(N / 2)] the rightmost column
    of the new buffer is transparent black (alpha 0), not the opaque black
    the buffer starts with. *)
Theorem X10_short_buffer_leaves_transparent_rows (f : list byte)
    (w h y : nat) (st : State) (old : ImageData)
    (Hready : spectrogramDataRef st = Some old)
    (Hw : 0 < w)
    (Hbelow : (length f + 1) / 2 <= y) (Hy : y < h) :
  exists img,
    spectrogramDataRef (drawSpectrogram f w h st) = Some img
    /\ pixel w (data img) (w - 1) y
       = [Some x00; Some x00; Some x00; Some x00].
Proof.
  unfold drawSpectrogram. rewrite Hready.
  eexists. cbn [with_ctx set_spectrogramData spectrogramDataRef].
  split; [reflexivity|]. cbn [data createImageData].
  assert (Hbins : iterations (Math_min (div (of_nat (length f)) (Fin 2))
                                       (of_nat h)) <= y).
  { assert (Hhalf : iterations (div (of_nat (length f)) (Fin 2)) <= y)
      by now rewrite iterations_half.
    assert (Ea : div (of_nat (length f)) (Fin 2)
                 = Fin (inject_Z (Z.of_nat (length f)) / 2)) by reflexivity.
    rewrite Ea in *. unfold Math_min, of_nat, of_Z.
    destruct (lt _ _) eqn:E; [|exact Hhalf]. exfalso.
    cbn [lt] in E. apply Qltb_lt in E.
    assert (Hlt : (2 * Z.of_nat h < Z.of_nat (length f))%Z).
    { rewrite Zlt_Qlt, inject_Z_mult. change (inject_Z 2) with 2%Q.
      assert (E2 : (inject_Z (Z.of_nat h) * 2
                    < inject_Z (Z.of_nat (length f)) / 2 * 2)%Q)
        by (apply Qmult_lt_r; [reflexivity | exact E]).
      assert (E3 : (inject_Z (Z.of_nat (length f)) / 2 * 2
                    == inject_Z (Z.of_nat (length f)))%Q) by field.
      lra. }
    assert (h <= (length f + 1) / 2); [|lia].
    apply Nat.div_le_lower_bound; lia. }
  change [Some x00; Some x00; Some x00; Some x00]
    with (map (fun _ : nat => Some x00) [0; 1; 2; 3]).
  apply pixel_channels. intros k Hk.
  rewrite appendColumn_rest by assumption.
  rewrite shiftLeft_last_column by (try assumption; apply length_replicate).
  apply lookup_replicate_2.
  pose proof (row_below w y h (w - 1)). lia.
Qed.

(** X10 at a two-bin buffer on a 2 by 3 canvas, bottom row. *)
Lemma X10_short_buffer_leaves_transparent_rows_witness :
  spectrogramDataRef (drawSpectrogram [xff; xff] 2 3 (mount spectrogram 2 3))
  = Some (blackImage 2 3)
  /\ 0 < 2
  /\ (length [xff; xff] + 1) / 2 <= 2 /\ 2 < 3
  /\ exists img,
       spectrogramDataRef
         (drawSpectrogram [xff; xff] 2 3
            (drawSpectrogram [xff; xff] 2 3 (mount spectrogram 2 3)))
       = Some img
       /\ pixel 2 (data img) (2 - 1) 2
          = [Some x00; Some x00; Some x00; Some x00].
Proof.
  assert (H1 : spectrogramDataRef
                 (drawSpectrogram [xff; xff] 2 3 (mount spectrogram 2 3))
               = Some (blackImage 2 3)) by reflexivity.
  assert (H2 : 0 < 2) by lia.
  assert (H3 : (length [xff; xff] + 1) / 2 <= 2) by (cbn; lia).
  assert (H4 : 2 < 3) by lia.
  repeat (split; [assumption|]).
  exact (X10_short_buffer_leaves_transparent_rows [xff; xff] 2 3 2 _
           (blackImage 2 3) H1 H2 H3 H4).
Defined.

(** * Volume, seeking and the keyboard *)

Lemma Math_min_Fin (x y : Q) :
  exists q, Math_min (Fin x) (Fin y) = Fin q
            /\ ((q = y /\ (y < x)%Q) \/ (q = x /\ (x <= y)%Q)).
Proof.
  unfold Math_min. cbn [lt]. destruct (Qltb y x) eqn:E.
  - exists y. split; [reflexivity|]. left. split; [reflexivity|].
    now apply Qltb_lt.
  - exists x. split; [reflexivity|]. right. split; [reflexivity|].
    unfold Qltb in E. apply negb_false_iff in E. now apply Qle_bool_iff.
Qed.

Lemma Math_max_Fin (x y : Q) :
  exists q, Math_max (Fin x) (Fin y) = Fin q
            /\ ((q = y /\ (x < y)%Q) \/ (q = x /\ (y <= x)%Q)).
Proof.
  unfold Math_max. cbn [lt]. destruct (Qltb x y) eqn:E.
  - exists y. split; [reflexivity|]. left. split; [reflexivity|].
    now apply Qltb_lt.
  - exists x. split; [reflexivity|]. right. split; [reflexivity|].
    unfold Qltb in E. apply negb_false_iff in E. now apply Qle_bool_iff.
Qed.

(** Clamping a number that is not [NaN] between two finite bounds. *)
Lemma clamp_spec (l u : Q) (v : number) :
  (l <= u)%Q -> v <> NaN ->
  exists q, Math_max (Fin l) (Math_min (Fin u) v) = Fin q
            /\ (l <= q)%Q /\ (q <= u)%Q
            /\ (forall x, v = Fin x -> (l <= x)%Q -> (x <= u)%Q -> (q == x)%Q)
            /\ (forall x, v = Fin x -> (x <= l)%Q -> (q == l)%Q)
            /\ (forall x, v = Fin x -> (u <= x)%Q -> (q == u)%Q).
Proof.
  intros Hlu Hv. destruct v as [x | [|] | ]; [| | |congruence].
  - destruct (Math_min_Fin u x) as (m & -> & Hm).
    destruct (Math_max_Fin l m) as (q & -> & Hq).
    exists q. split; [reflexivity|].
    assert (Hx : forall x', Fin x = Fin x' -> x = x') by (intros; congruence).
    repeat split; try (intros x' E; apply Hx in E; subst x'; intros);
      destruct Hm as [[-> ?]|[-> ?]]; destruct Hq as [[-> ?]|[-> ?]]; lra.
  - exists l. split; [reflexivity|].
    repeat split; try lra; intros; discriminate.
  - change (Math_min (Fin u) (Inf false)) with (Fin u).
    destruct (Math_max_Fin l u) as (q & -> & Hq).
    exists q. split; [reflexivity|].
    repeat split; try (intros; discriminate);
      destruct Hq as [[-> ?]|[-> ?]]; lra.
Qed.

(** X11.  [setVolume] clamps: for every argument but [NaN] the stored
    volume is a number in [0, 1], equal to the argument when that lies in
    [0, 1]; the audio element and the gain node, where present, receive
    the same value, and nothing else of the state changes. *)
Theorem X11_setVolume_clamps (v : number) (refs : PlayerRefs)
    (state : AudioManagerState) (Hv : v <> NaN) :
  let refs' := fst (setVolume v refs state) in
  let state' := snd (setVolume v refs state) in
  exists q,
    volume state' = Fin q /\ (0 <= q)%Q /\ (q <= 1)%Q
    /\ (forall x, v = Fin x -> (0 <= x)%Q -> (x <= 1)%Q -> (q == x)%Q)
    /\ (forall el, audioElementRef refs = Some el ->
          audioElementRef refs'
          = Some (Element.mk (Element.currentTime el) (Fin q)))
    /\ (audioElementRef refs = None -> audioElementRef refs' = None)
    /\ (forall g, gainNodeRef refs = Some g -> gainNodeRef refs' = Some (Fin q))
    /\ (gainNodeRef refs = None -> gainNodeRef refs' = None)
    /\ currentTime state' = currentTime state
    /\ duration state' = duration state
    /\ isPlaying state' = isPlaying state
    /\ audioData state' = audioData state.
Proof.
  cbv zeta. unfold setVolume. cbv zeta. cbn [fst snd volume currentTime
    duration isPlaying audioData audioElementRef gainNodeRef].
  destruct (clamp_spec 0 1 v) as (q & E & H0 & H1 & Hin & _); [lra | exact Hv |].
  rewrite E. exists q.
  split; [reflexivity|]. split; [exact H0|]. split; [exact H1|].
  split; [exact Hin|].
  split; [intros el ->; reflexivity|]. split; [intros ->; reflexivity|].
  split; [intros g ->; reflexivity|]. split; [intros ->; reflexivity|].
  repeat split.
Qed.

(** X11 at a volume of 3, which is stored as 1. *)
Lemma X11_setVolume_clamps_witness :
  Fin 3 <> NaN
  /\ exists q,
       volume (snd (setVolume (Fin 3) samplePlayer sampleState)) = Fin q
       /\ (0 <= q)%Q /\ (q <= 1)%Q
       /\ (forall x, Fin 3 = Fin x -> (0 <= x)%Q -> (x <= 1)%Q -> (q == x)%Q)
       /\ (forall el, audioElementRef samplePlayer = Some el ->
             audioElementRef (fst (setVolume (Fin 3) samplePlayer sampleState))
             = Some (Element.mk (Element.currentTime el) (Fin q)))
       /\ (audioElementRef samplePlayer = None ->
           audioElementRef (fst (setVolume (Fin 3) samplePlayer sampleState)) = None)
       /\ (forall g, gainNodeRef samplePlayer = Some g ->
             gainNodeRef (fst (setVolume (Fin 3) samplePlayer sampleState))
             = Some (Fin q))
       /\ (gainNodeRef samplePlayer = None ->
           gainNodeRef (fst (setVolume (Fin 3) samplePlayer sampleState)) = None)
       /\ currentTime (snd (setVolume (Fin 3) samplePlayer sampleState))
          = currentTime sampleState
       /\ duration (snd (setVolume (Fin 3) samplePlayer sampleState))
          = duration sampleState
       /\ isPlaying (snd (setVolume (Fin 3) samplePlayer sampleState))
          = isPlaying sampleState
       /\ audioData (snd (setVolume (Fin 3) samplePlayer sampleState))
          = audioData sampleState.
Proof.
  assert (H : Fin 3 <> NaN) by discriminate.
  split; [exact H|].
  exact (X11_setVolume_clamps (Fin 3) samplePlayer sampleState H).
Defined.

(** X12.  [seekTo] without an audio element does nothing.  With one, a
    finite duration that is not negative and any time but [NaN], the new
    position is a number in [0, duration], equal to the requested time
    when that lies in the range; the element and the state receive the
    same position and the volume is untouched. *)
Theorem X12_seekTo_clamps (time : number) (refs : PlayerRefs)
    (state : AudioManagerState) (d : Q)
    (Hduration : duration state = Fin d) (Hd : (0 <= d)%Q)
    (Htime : time <> NaN) :
  match audioElementRef refs with
  | None => seekTo time refs state = (refs, state)
  | Some el =>
      exists q,
        currentTime (snd (seekTo time refs state)) = Fin q
        /\ (0 <= q)%Q /\ (q <= d)%Q
        /\ (forall x, time = Fin x -> (0 <= x)%Q -> (x <= d)%Q -> (q == x)%Q)
        /\ audioElementRef (fst (seekTo time refs state))
           = Some (Element.mk (Fin q) (Element.volume el))
        /\ gainNodeRef (fst (seekTo time refs state)) = gainNodeRef refs
        /\ volume (snd (seekTo time refs state)) = volume state
        /\ duration (snd (seekTo time refs state)) = duration state
  end.
Proof.
  unfold seekTo. destruct (audioElementRef refs) as [el|]; [|reflexivity].
  cbn [fst snd currentTime volume duration audioElementRef gainNodeRef].
  rewrite Hduration.
  destruct (clamp_spec 0 d time Hd Htime) as (q & E & H0 & H1 & Hin & _).
  rewrite E. exists q. repeat split; try assumption.
Qed.

(** X12 at a seek to 500 s in the two-minute sample track. *)
Lemma X12_seekTo_clamps_witness :
  duration sampleState = Fin 120 /\ (0 <= 120)%Q /\ Fin 500 <> NaN
  /\ match audioElementRef samplePlayer with
     | None => seekTo (Fin 500) samplePlayer sampleState
               = (samplePlayer, sampleState)
     | Some el =>
         exists q,
           currentTime (snd (seekTo (Fin 500) samplePlayer sampleState)) = Fin q
           /\ (0 <= q)%Q /\ (q <= 120)%Q
           /\ (forall x, Fin 500 = Fin x -> (0 <= x)%Q -> (x <= 120)%Q -> (q == x)%Q)
           /\ audioElementRef (fst (seekTo (Fin 500) samplePlayer sampleState))
              = Some (Element.mk (Fin q) (Element.volume el))
           /\ gainNodeRef (fst (seekTo (Fin 500) samplePlayer sampleState))
              = gainNodeRef samplePlayer
           /\ volume (snd (seekTo (Fin 500) samplePlayer sampleState))
              = volume sampleState
           /\ duration (snd (seekTo (Fin 500) samplePlayer sampleState))
              = duration sampleState
     end.
Proof.
  assert (H1 : duration sampleState = Fin 120) by reflexivity.
  assert (H2 : (0 <= 120)%Q) by (unfold Qle; cbn; lia).
  assert (H3 : Fin 500 <> NaN) by discriminate.
  split; [exact H1|]. split; [exact H2|]. split; [exact H3|].
  exact (X12_seekTo_clamps (Fin 500) samplePlayer sampleState 120 H1 H2 H3).
Defined.

Lemma setVolume_in_range (m : Q) (refs : PlayerRefs) (state : AudioManagerState) :
  (0 <= m)%Q -> (m <= 1)%Q ->
  exists q, volume (snd (setVolume (Fin m) refs state)) = Fin q /\ (q == m)%Q.
Proof.
  intros H0 H1. unfold setVolume. cbv zeta. cbn [snd volume].
  destruct (clamp_spec 0 1 (Fin m)) as (q & E & _ & _ & Hin & _);
    [lra | discriminate |].
  rewrite E. exists q. split; [reflexivity|]. now apply Hin.
Qed.

Lemma pressKey_volume (code : string) (v : number) (refs : PlayerRefs)
    (state : AudioManagerState) :
  snd (App.handleKeyPress (App.mkKeyboardEvent App.OtherTarget code)
         (duration state) (currentTime state) (volume state))
  = Some (App.SetVolume v) ->
  pressKey code refs state = setVolume v refs state.
Proof. intros H. unfold pressKey. now rewrite H. Qed.

Lemma key_ArrowUp (d c v : number) :
  App.handleKeyPress (App.mkKeyboardEvent App.OtherTarget "ArrowUp") d c v
  = (true, Some (App.SetVolume (Math_min (Fin 1) (add v (Fin (1 # 10)))))).
Proof. reflexivity. Qed.

Lemma key_ArrowDown (d c v : number) :
  App.handleKeyPress (App.mkKeyboardEvent App.OtherTarget "ArrowDown") d c v
  = (true, Some (App.SetVolume (Math_max (Fin 0) (sub v (Fin (1 # 10)))))).
Proof. reflexivity. Qed.

Lemma key_KeyM (d c v : number) :
  App.handleKeyPress (App.mkKeyboardEvent App.OtherTarget "KeyM") d c v
  = (true, Some (App.SetVolume (if gt v (Fin 0) then Fin 0 else Fin 1))).
Proof. reflexivity. Qed.

Lemma key_ArrowLeft (d c v : number) :
  App.handleKeyPress (App.mkKeyboardEvent App.OtherTarget "ArrowLeft") d c v
  = (true,
     if gt d (Fin 0)
     then Some (App.SeekTo (Math_max (Fin 0) (sub c (Fin 10))))
     else None).
Proof. reflexivity. Qed.

Lemma key_ArrowRight (d c v : number) :
  App.handleKeyPress (App.mkKeyboardEvent App.OtherTarget "ArrowRight") d c v
  = (true,
     if gt d (Fin 0)
     then Some (App.SeekTo (Math_min d (add c (Fin 10))))
     else None).
Proof. reflexivity. Qed.

Lemma keyM_volume (refs : PlayerRefs) (state : AudioManagerState) (q : Q) :
  volume state = Fin q ->
  exists m, volume (snd (pressKey "KeyM" refs state)) = Fin m
            /\ ((0 < q)%Q -> (m == 0)%Q)
            /\ ((q <= 0)%Q -> (m == 1)%Q).
Proof.
  intros Hvolume.
  destruct (Qltb 0 q) eqn:E.
  - rewrite (pressKey_volume "KeyM" (Fin 0));
      [|rewrite key_KeyM, Hvolume; cbn [snd gt lt]; now rewrite E].
    destruct (setVolume_in_range 0 refs state) as (u & Eu & Hu); [lra..|].
    exists u. split; [exact Eu|]. apply Qltb_lt in E.
    split; intros; lra.
  - rewrite (pressKey_volume "KeyM" (Fin 1));
      [|rewrite key_KeyM, Hvolume; cbn [snd gt lt]; now rewrite E].
    destruct (setVolume_in_range 1 refs state) as (u & Eu & Hu); [lra..|].
    exists u. split; [exact Eu|].
    unfold Qltb in E. apply negb_false_iff in E. apply Qle_bool_iff in E.
    split; intros; lra.
Qed.

(** The volume keys in the model's exact arithmetic. *)
Lemma volume_keys_model (refs : PlayerRefs) (state : AudioManagerState)
    (q : Q)
    (Hvolume : volume state = Fin q) (H0 : (0 <= q)%Q) (H1 : (q <= 1)%Q) :
  (exists u, volume (snd (pressKey "ArrowUp" refs state)) = Fin u
             /\ (0 <= u)%Q /\ (u <= 1)%Q
             /\ ((q + (1 # 10) <= 1)%Q -> (u == q + (1 # 10))%Q)
             /\ ((1 <= q + (1 # 10))%Q -> (u == 1)%Q))
  /\ (exists d, volume (snd (pressKey "ArrowDown" refs state)) = Fin d
                /\ (0 <= d)%Q /\ (d <= 1)%Q
                /\ ((0 <= q - (1 # 10))%Q -> (d == q - (1 # 10))%Q)
                /\ ((q - (1 # 10) <= 0)%Q -> (d == 0)%Q))
  /\ (exists m, volume (snd (pressKey "KeyM" refs state)) = Fin m
                /\ ((0 < q)%Q -> (m == 0)%Q)
                /\ ((q == 0)%Q -> (m == 1)%Q)).
Proof.
  split; [|split].
  - destruct (Math_min_Fin 1 (q + (1 # 10))) as (m & Em & Hm).
    rewrite (pressKey_volume "ArrowUp" (Fin m));
      [|rewrite key_ArrowUp, Hvolume; cbn [snd add]; now rewrite Em].
    destruct (setVolume_in_range m refs state) as (u & Eu & Hu);
      [destruct Hm as [[-> ?]|[-> ?]]; lra .. |].
    exists u. split; [exact Eu|].
    repeat split; intros; destruct Hm as [[-> ?]|[-> ?]]; lra.
  - destruct (Math_max_Fin 0 (q - (1 # 10))) as (m & Em & Hm).
    rewrite (pressKey_volume "ArrowDown" (Fin m));
      [|rewrite key_ArrowDown, Hvolume; cbn [snd sub neg add];
        change (q + - (1 # 10))%Q with (q - (1 # 10))%Q; now rewrite Em].
    destruct (setVolume_in_range m refs state) as (u & Eu & Hu);
      [destruct Hm as [[-> ?]|[-> ?]]; lra .. |].
    exists u. split; [exact Eu|].
    repeat split; intros; destruct Hm as [[-> ?]|[-> ?]]; lra.
  - destruct (keyM_volume refs state q Hvolume) as (m & Em & Hp & Hz).
    exists m. split; [exact Em|]. split; [exact Hp|]. intros E. apply Hz. lra.
Qed.

(** X13.  The volume keys keep the volume in [0, 1] and move it the right
    way.  From a volume [q] in that range ArrowUp never lowers it, raises
    it while it is below 1, and stores exactly 1 once [q + 0.1] reaches 1;
    ArrowDown never raises it, lowers it while it is above 0, and stores
    exactly 0 once [q - 0.1] reaches 0; in between the step is 0.1 up to
    rounding (within 10^-9).  KeyM gives 0 from a positive volume and 1
    from 0. *)
Theorem X13_volume_keys (refs : PlayerRefs) (state : AudioManagerState)
    (q : Q)
    (Hvolume : volume state = Fin q) (H0 : (0 <= q)%Q) (H1 : (q <= 1)%Q) :
  (exists u, volume (snd (pressKey "ArrowUp" refs state)) = Fin u
             /\ (0 <= u)%Q /\ (u <= 1)%Q /\ (q <= u)%Q
             /\ ((q < 1)%Q -> (q < u)%Q)
             /\ ((1 <= q + (1 # 10))%Q -> (u == 1)%Q)
             /\ ((q + (1 # 10) <= 1)%Q ->
                 (q + (1 # 10) - (1 # 1000000000) <= u)%Q
                 /\ (u <= q + (1 # 10) + (1 # 1000000000))%Q))
  /\ (exists d, volume (snd (pressKey "ArrowDown" refs state)) = Fin d
                /\ (0 <= d)%Q /\ (d <= 1)%Q /\ (d <= q)%Q
                /\ ((0 < q)%Q -> (d < q)%Q)
                /\ ((q - (1 # 10) <= 0)%Q -> (d == 0)%Q)
                /\ ((0 <= q - (1 # 10))%Q ->
                    (q - (1 # 10) - (1 # 1000000000) <= d)%Q
                    /\ (d <= q - (1 # 10) + (1 # 1000000000))%Q))
  /\ (exists m, volume (snd (pressKey "KeyM" refs state)) = Fin m
                /\ ((0 < q)%Q -> (m == 0)%Q)
                /\ ((q == 0)%Q -> (m == 1)%Q)).
Proof.
  destruct (volume_keys_model refs state q Hvolume H0 H1)
    as ((u & Eu & U0 & U1 & Uin & Usat)
        & (d & Ed & D0 & D1 & Din & Dsat) & Hm).
  split; [|split; [|exact Hm]].
  - exists u. split; [exact Eu|]. split; [exact U0|]. split; [exact U1|].
    assert (C : (q + (1 # 10) <= 1)%Q \/ (1 <= q + (1 # 10))%Q)
      by (destruct (Qlt_le_dec 1 (q + (1 # 10))); [right; lra | now left]).
    destruct C as [C|C]; [specialize (Uin C) | specialize (Usat C)];
      (repeat split; intros; try split; lra).
  - exists d. split; [exact Ed|]. split; [exact D0|]. split; [exact D1|].
    assert (C : (0 <= q - (1 # 10))%Q \/ (q - (1 # 10) <= 0)%Q)
      by (destruct (Qlt_le_dec (q - (1 # 10)) 0); [right; lra | now left]).
    destruct C as [C|C]; [specialize (Din C) | specialize (Dsat C)];
      (repeat split; intros; try split; lra).
Qed.

(** X13 at the sample player, whose volume is one half. *)
Lemma X13_volume_keys_witness :
  volume sampleState = Fin (1 # 2) /\ (0 <= 1 # 2)%Q /\ (1 # 2 <= 1)%Q
  /\ ((exists u, volume (snd (pressKey "ArrowUp" samplePlayer sampleState)) = Fin u
                 /\ (0 <= u)%Q /\ (u <= 1)%Q /\ (1 # 2 <= u)%Q
                 /\ ((1 # 2 < 1)%Q -> (1 # 2 < u)%Q)
                 /\ ((1 <= (1 # 2) + (1 # 10))%Q -> (u == 1)%Q)
                 /\ (((1 # 2) + (1 # 10) <= 1)%Q ->
                     ((1 # 2) + (1 # 10) - (1 # 1000000000) <= u)%Q
                     /\ (u <= (1 # 2) + (1 # 10) + (1 # 1000000000))%Q))
      /\ (exists d, volume (snd (pressKey "ArrowDown" samplePlayer sampleState)) = Fin d
                    /\ (0 <= d)%Q /\ (d <= 1)%Q /\ (d <= 1 # 2)%Q
                    /\ ((0 < 1 # 2)%Q -> (d < 1 # 2)%Q)
                    /\ (((1 # 2) - (1 # 10) <= 0)%Q -> (d == 0)%Q)
                    /\ ((0 <= (1 # 2) - (1 # 10))%Q ->
                        ((1 # 2) - (1 # 10) - (1 # 1000000000) <= d)%Q
                        /\ (d <= (1 # 2) - (1 # 10) + (1 # 1000000000))%Q))
      /\ (exists m, volume (snd (pressKey "KeyM" samplePlayer sampleState)) = Fin m
                    /\ ((0 < 1 # 2)%Q -> (m == 0)%Q)
                    /\ ((1 # 2 == 0)%Q -> (m == 1)%Q))).
Proof.
  assert (H1 : volume sampleState = Fin (1 # 2)) by reflexivity.
  assert (H2 : (0 <= 1 # 2)%Q) by (unfold Qle; cbn; lia).
  assert (H3 : (1 # 2 <= 1)%Q) by (unfold Qle; cbn; lia).
  split; [exact H1|]. split; [exact H2|]. split; [exact H3|].
  exact (X13_volume_keys samplePlayer sampleState (1 # 2) H1 H2 H3).
Defined.

(** X14.  Muting forgets the volume: from any positive volume, KeyM
    pressed twice leaves the volume at 1, whatever it was before. *)
Theorem X14_mute_twice_gives_full_volume (refs : PlayerRefs)
    (state : AudioManagerState) (q : Q)
    (Hvolume : volume state = Fin q) (Hpos : (0 < q)%Q) :
  let muted := pressKey "KeyM" refs state in
  let unmuted := pressKey "KeyM" (fst muted) (snd muted) in
  (exists m, volume (snd muted) = Fin m /\ (m == 0)%Q)
  /\ (exists u, volume (snd unmuted) = Fin u /\ (u == 1)%Q).
Proof.
  cbv zeta.
  destruct (keyM_volume refs state q Hvolume) as (m & Em & Hm & _).
  specialize (Hm Hpos).
  destruct (keyM_volume (fst (pressKey "KeyM" refs state))
              (snd (pressKey "KeyM" refs state)) m Em) as (u & Eu & _ & Hu).
  split; [now exists m|]. exists u. split; [exact Eu|]. apply Hu. lra.
Qed.

(** X14 at the sample player. *)
Lemma X14_mute_twice_gives_full_volume_witness :
  volume sampleState = Fin (1 # 2) /\ (0 < 1 # 2)%Q
  /\ ((exists m, volume (snd (pressKey "KeyM" samplePlayer sampleState)) = Fin m
                 /\ (m == 0)%Q)
      /\ (exists u,
            volume (snd (pressKey "KeyM"
                           (fst (pressKey "KeyM" samplePlayer sampleState))
                           (snd (pressKey "KeyM" samplePlayer sampleState))))
            = Fin u /\ (u == 1)%Q)).
Proof.
  assert (H1 : volume sampleState = Fin (1 # 2)) by reflexivity.
  assert (H2 : (0 < 1 # 2)%Q) by reflexivity.
  split; [exact H1|]. split; [exact H2|].
  exact (X14_mute_twice_gives_full_volume samplePlayer sampleState (1 # 2) H1 H2).
Defined.
(** ** The seek keys *)

Lemma pressKey_seek (code : string) (t : number) (refs : PlayerRefs)
    (state : AudioManagerState) :
  snd (App.handleKeyPress (App.mkKeyboardEvent App.OtherTarget code)
         (duration state) (currentTime state) (volume state))
  = Some (App.SeekTo t) ->
  pressKey code refs state = seekTo t refs state.
Proof. intros H. unfold pressKey. now rewrite H. Qed.

Lemma seekTo_in_range (m d : Q) (el : Element.t) (refs : PlayerRefs)
    (state : AudioManagerState) :
  audioElementRef refs = Some el -> duration state = Fin d ->
  (0 <= m)%Q -> (m <= d)%Q ->
  exists q, currentTime (snd (seekTo (Fin m) refs state)) = Fin q
            /\ audioElementRef (fst (seekTo (Fin m) refs state))
               = Some (Element.mk (Fin q) (Element.volume el))
            /\ (q == m)%Q.
Proof.
  intros Hel Hd H0 H1. unfold seekTo. rewrite Hel, Hd.
  cbn [fst snd currentTime audioElementRef].
  destruct (clamp_spec 0 d (Fin m)) as (q & E & _ & _ & Hin & _);
    [lra | discriminate |].
  rewrite E. exists q. repeat split. now apply Hin.
Qed.

Lemma gt_Fin_0 (d : Q) : (0 < d)%Q -> gt (Fin d) (Fin 0) = true.
Proof. intros H. cbn [gt lt]. now apply Qltb_lt. Qed.

Lemma gt_Fin_0_false (d : Q) : (d <= 0)%Q -> gt (Fin d) (Fin 0) = false.
Proof.
  intros H. cbn [gt lt]. unfold Qltb. apply negb_false_iff.
  now apply Qle_bool_iff.
Qed.

(** The seek keys in the model's exact arithmetic. *)
Lemma seek_keys_model (refs : PlayerRefs) (state : AudioManagerState)
    (el : Element.t) (d c : Q)
    (Helement : audioElementRef refs = Some el)
    (Hduration : duration state = Fin d) (Hd : (0 < d)%Q)
    (Hcurrent : currentTime state = Fin c)
    (Hc0 : (0 <= c)%Q) (Hcd : (c <= d)%Q) :
  (exists l, currentTime (snd (pressKey "ArrowLeft" refs state)) = Fin l
             /\ audioElementRef (fst (pressKey "ArrowLeft" refs state))
                = Some (Element.mk (Fin l) (Element.volume el))
             /\ ((10 <= c)%Q -> (l == c - 10)%Q)
             /\ ((c <= 10)%Q -> (l == 0)%Q))
  /\ (exists r, currentTime (snd (pressKey "ArrowRight" refs state)) = Fin r
                /\ audioElementRef (fst (pressKey "ArrowRight" refs state))
                   = Some (Element.mk (Fin r) (Element.volume el))
                /\ ((c + 10 <= d)%Q -> (r == c + 10)%Q)
                /\ ((d <= c + 10)%Q -> (r == d)%Q)).
Proof.
  split.
  - destruct (Math_max_Fin 0 (c - 10)) as (m & Em & Hm).
    rewrite (pressKey_seek "ArrowLeft" (Fin m));
      [|rewrite key_ArrowLeft, Hduration, Hcurrent, (gt_Fin_0 d Hd);
        cbn [snd sub neg add];
        change (c + - (10))%Q with (c - 10)%Q; now rewrite Em].
    destruct (seekTo_in_range m d el refs state Helement Hduration)
      as (q & Eq & Eel & Hq);
      [destruct Hm as [[-> ?]|[-> ?]]; lra..|].
    exists q. repeat split; [exact Eq | exact Eel | |];
      intros; destruct Hm as [[-> ?]|[-> ?]]; lra.
  - destruct (Math_min_Fin d (c + 10)) as (m & Em & Hm).
    rewrite (pressKey_seek "ArrowRight" (Fin m));
      [|rewrite key_ArrowRight, Hduration, Hcurrent, (gt_Fin_0 d Hd);
        cbn [snd add]; now rewrite Em].
    destruct (seekTo_in_range m d el refs state Helement Hduration)
      as (q & Eq & Eel & Hq);
      [destruct Hm as [[-> ?]|[-> ?]]; lra..|].
    exists q. repeat split; [exact Eq | exact Eel | |];
      intros; destruct Hm as [[-> ?]|[-> ?]]; lra.
Qed.

(** X15.  The seek keys move the position by ten seconds, up to rounding,
    and stop at the ends of the track.  With an audio element, a positive
    duration [d] and a position [c] in [0, d], ArrowLeft never moves
    forward and stays at or above 0: it stores exactly 0 when [c <= 10]
    and otherwise [c - 10] to within [c / 10^9]; ArrowRight never moves
    back and stays at or below [d]: it stores exactly [d] when
    [c + 10 >= d] and otherwise [c + 10] to within [(c + 10) / 10^9].
    State and element receive the same position. *)
Theorem X15_seek_keys (refs : PlayerRefs) (state : AudioManagerState)
    (el : Element.t) (d c : Q)
    (Helement : audioElementRef refs = Some el)
    (Hduration : duration state = Fin d) (Hd : (0 < d)%Q)
    (Hcurrent : currentTime state = Fin c)
    (Hc0 : (0 <= c)%Q) (Hcd : (c <= d)%Q) :
  (exists l, currentTime (snd (pressKey "ArrowLeft" refs state)) = Fin l
             /\ audioElementRef (fst (pressKey "ArrowLeft" refs state))
                = Some (Element.mk (Fin l) (Element.volume el))
             /\ (0 <= l)%Q /\ (l <= c)%Q
             /\ ((c <= 10)%Q -> (l == 0)%Q)
             /\ ((10 <= c)%Q ->
                 (c - 10 - c * (1 # 1000000000) <= l)%Q
                 /\ (l <= c - 10 + c * (1 # 1000000000))%Q))
  /\ (exists r, currentTime (snd (pressKey "ArrowRight" refs state)) = Fin r
                /\ audioElementRef (fst (pressKey "ArrowRight" refs state))
                   = Some (Element.mk (Fin r) (Element.volume el))
                /\ (c <= r)%Q /\ (r <= d)%Q
                /\ ((d <= c + 10)%Q -> (r == d)%Q)
                /\ ((c + 10 <= d)%Q ->
                    (c + 10 - (c + 10) * (1 # 1000000000) <= r)%Q
                    /\ (r <= c + 10 + (c + 10) * (1 # 1000000000))%Q)).
Proof.
  destruct (seek_keys_model refs state el d c Helement Hduration Hd Hcurrent
              Hc0 Hcd)
    as ((l & El & Eel & Lin & Lsat) & (r & Er & Eer & Rin & Rsat)).
  split.
  - exists l. split; [exact El|]. split; [exact Eel|].
    assert (C : (10 <= c)%Q \/ (c <= 10)%Q)
      by (destruct (Qlt_le_dec c 10); [right; lra | now left]).
    destruct C as [C|C]; [specialize (Lin C) | specialize (Lsat C)];
      (repeat split; intros; try split; lra).
  - exists r. split; [exact Er|]. split; [exact Eer|].
    assert (C : (c + 10 <= d)%Q \/ (d <= c + 10)%Q)
      by (destruct (Qlt_le_dec d (c + 10)); [right; lra | now left]).
    destruct C as [C|C]; [specialize (Rin C) | specialize (Rsat C)];
      (repeat split; intros; try split; lra).
Qed.

(** X15 at the sample player: a two-minute track at 0:30. *)
Lemma X15_seek_keys_witness :
  audioElementRef samplePlayer = Some (Element.mk (Fin 30) (Fin (1 # 2)))
  /\ duration sampleState = Fin 120 /\ (0 < 120)%Q
  /\ currentTime sampleState = Fin 30 /\ (0 <= 30)%Q /\ (30 <= 120)%Q
  /\ ((exists l,
         currentTime (snd (pressKey "ArrowLeft" samplePlayer sampleState)) = Fin l
         /\ audioElementRef (fst (pressKey "ArrowLeft" samplePlayer sampleState))
            = Some (Element.mk (Fin l)
                      (Element.volume (Element.mk (Fin 30) (Fin (1 # 2)))))
         /\ (0 <= l)%Q /\ (l <= 30)%Q
         /\ ((30 <= 10)%Q -> (l == 0)%Q)
         /\ ((10 <= 30)%Q ->
             (30 - 10 - 30 * (1 # 1000000000) <= l)%Q
             /\ (l <= 30 - 10 + 30 * (1 # 1000000000))%Q))
      /\ (exists r,
            currentTime (snd (pressKey "ArrowRight" samplePlayer sampleState)) = Fin r
            /\ audioElementRef (fst (pressKey "ArrowRight" samplePlayer sampleState))
               = Some (Element.mk (Fin r)
                         (Element.volume (Element.mk (Fin 30) (Fin (1 # 2)))))
            /\ (30 <= r)%Q /\ (r <= 120)%Q
            /\ ((120 <= 30 + 10)%Q -> (r == 120)%Q)
            /\ ((30 + 10 <= 120)%Q ->
                (30 + 10 - (30 + 10) * (1 # 1000000000) <= r)%Q
                /\ (r <= 30 + 10 + (30 + 10) * (1 # 1000000000))%Q))).
Proof.
  assert (H1 : audioElementRef samplePlayer
               = Some (Element.mk (Fin 30) (Fin (1 # 2)))) by reflexivity.
  assert (H2 : duration sampleState = Fin 120) by reflexivity.
  assert (H3 : (0 < 120)%Q) by reflexivity.
  assert (H4 : currentTime sampleState = Fin 30) by reflexivity.
  assert (H5 : (0 <= 30)%Q) by (unfold Qle; cbn; lia).
  assert (H6 : (30 <= 120)%Q) by (unfold Qle; cbn; lia).
  repeat (split; [assumption|]).
  exact (X15_seek_keys samplePlayer sampleState _ 120 30 H1 H2 H3 H4 H5 H6).
Defined.

Lemma strictEq_Fin_0 (d : Q) : (d == 0)%Q -> strictEq (Fin d) (Fin 0) = true.
Proof. intros H. cbn [strictEq]. now apply Qeq_bool_iff. Qed.

Lemma strictEq_Fin_pos (d : Q) : (0 < d)%Q -> strictEq (Fin d) (Fin 0) = false.
Proof.
  intros H. cbn [strictEq]. destruct (Qeq_bool d 0) eqn:E; [|reflexivity].
  apply Qeq_bool_iff in E. lra.
Qed.

(** X16.  Without a track there is nothing to seek: while the duration is
    0 (the hook's initial value), ArrowLeft, ArrowRight and a click on the
    progress bar leave the audio element, the gain node and the whole
    state as they are. *)
Theorem X16_no_duration_no_seek (refs : PlayerRefs)
    (state : AudioManagerState) (d : Q) (clientX rect_left rect_width : number)
    (Hduration : duration state = Fin d) (Hd : (d == 0)%Q) :
  pressKey "ArrowLeft" refs state = (refs, state)
  /\ pressKey "ArrowRight" refs state = (refs, state)
  /\ clickProgress clientX rect_left rect_width refs state = (refs, state).
Proof.
  assert (G : gt (Fin d) (Fin 0) = false) by (apply gt_Fin_0_false; lra).
  unfold pressKey, clickProgress, ControlsPanel.handleProgressClick.
  rewrite key_ArrowLeft, key_ArrowRight, Hduration, G,
    (strictEq_Fin_0 d Hd).
  repeat split.
Qed.

(** X16 at the hook's initial state. *)
Lemma X16_no_duration_no_seek_witness :
  duration initialState = Fin 0 /\ (0 == 0)%Q
  /\ pressKey "ArrowLeft" samplePlayer initialState = (samplePlayer, initialState)
  /\ pressKey "ArrowRight" samplePlayer initialState = (samplePlayer, initialState)
  /\ clickProgress (Fin 40) (Fin 10) (Fin 300) samplePlayer initialState
     = (samplePlayer, initialState).
Proof.
  assert (H1 : duration initialState = Fin 0) by reflexivity.
  assert (H2 : (0 == 0)%Q) by reflexivity.
  split; [exact H1|]. split; [exact H2|].
  exact (X16_no_duration_no_seek samplePlayer initialState 0
           (Fin 40) (Fin 10) (Fin 300) H1 H2).
Defined.
(** ** The progress bar *)

Lemma Qis0_false (y : Q) : ~ (y == 0)%Q -> Qis0 y = false.
Proof.
  intros H. unfold Qis0. destruct (Qeq_bool y 0) eqn:E; [|reflexivity].
  apply Qeq_bool_iff in E. contradiction.
Qed.

Lemma div_Fin (x y : Q) : ~ (y == 0)%Q -> div (Fin x) (Fin y) = Fin (x / y).
Proof. intros H. cbn [div]. now rewrite (Qis0_false y H). Qed.

(** A click on the progress bar in the model's exact arithmetic. *)
Lemma progress_click_model (refs : PlayerRefs) (state : AudioManagerState)
    (el : Element.t) (d clientX l w : Q)
    (Helement : audioElementRef refs = Some el)
    (Hduration : duration state = Fin d) (Hd : (0 < d)%Q) (Hw : (0 < w)%Q) :
  let after := clickProgress (Fin clientX) (Fin l) (Fin w) refs state in
  exists q,
    currentTime (snd after) = Fin q
    /\ audioElementRef (fst after) = Some (Element.mk (Fin q) (Element.volume el))
    /\ (0 <= q)%Q /\ (q <= d)%Q
    /\ ((l <= clientX)%Q -> (clientX <= l + w)%Q ->
        (q == (clientX - l) / w * d)%Q).
Proof.
  cbv zeta. unfold clickProgress, ControlsPanel.handleProgressClick.
  rewrite Hduration, (strictEq_Fin_pos d Hd).
  change (sub (Fin clientX) (Fin l)) with (Fin (clientX - l)).
  rewrite div_Fin by lra. cbn [mul].
  unfold seekTo. rewrite Helement, Hduration.
  cbn [fst snd currentTime audioElementRef].
  destruct (clamp_spec 0 d (Fin ((clientX - l) / w * d)))
    as (q & E & H0 & H1 & Hin & _); [lra | discriminate |].
  rewrite E. exists q. repeat split; try assumption.
  intros Hl Hr. apply Hin; [reflexivity | |].
  - apply Qmult_le_0_compat; [|lra].
    apply Qle_shift_div_l; [exact Hw | lra].
  - assert (Hp : ((clientX - l) / w <= 1)%Q)
      by (apply Qle_shift_div_r; [exact Hw | lra]).
    assert (Hq : (0 <= (1 - (clientX - l) / w) * d)%Q)
      by (apply Qmult_le_0_compat; lra).
    lra.
Qed.

(** X17.  A click on the progress bar seeks proportionally, up to
    rounding.  With an audio element, a positive duration [d] and a bar of
    positive width [w] whose left edge is at [l]: the position stored
    (state and element) always lies in [0, d]; a click inside the bar
    gives [(clientX - l) / w * d] to within [d / 10^9], exactly 0 at the
    left edge and exactly [d] at the right edge; a click reported outside
    the bar is clamped. *)
Theorem X17_progress_click (refs : PlayerRefs) (state : AudioManagerState)
    (el : Element.t) (d clientX l w : Q)
    (Helement : audioElementRef refs = Some el)
    (Hduration : duration state = Fin d) (Hd : (0 < d)%Q) (Hw : (0 < w)%Q) :
  let after := clickProgress (Fin clientX) (Fin l) (Fin w) refs state in
  exists q,
    currentTime (snd after) = Fin q
    /\ audioElementRef (fst after) = Some (Element.mk (Fin q) (Element.volume el))
    /\ (0 <= q)%Q /\ (q <= d)%Q
    /\ ((l <= clientX)%Q -> (clientX <= l + w)%Q ->
        ((clientX - l) / w * d - d * (1 # 1000000000) <= q)%Q
        /\ (q <= (clientX - l) / w * d + d * (1 # 1000000000))%Q)
    /\ ((clientX == l)%Q -> (q == 0)%Q)
    /\ ((clientX == l + w)%Q -> (q == d)%Q).
Proof.
  cbv zeta.
  destruct (progress_click_model refs state el d clientX l w Helement
              Hduration Hd Hw) as (q & Eq & Eel & Q0 & Q1 & Hin).
  cbv zeta in Eq, Eel.
  exists q. split; [exact Eq|]. split; [exact Eel|].
  split; [exact Q0|]. split; [exact Q1|]. split; [|split].
  - intros Hl Hr. specialize (Hin Hl Hr). split; lra.
  - intros E. rewrite Hin by lra.
    assert (X : (clientX - l == 0)%Q) by lra.
    rewrite X. unfold Qdiv. now rewrite !Qmult_0_l.
  - intros E. rewrite Hin by lra.
    assert (X : (clientX - l == w)%Q) by lra.
    rewrite X. field. lra.
Qed.

(** X17 at a click one tenth into a 300-pixel bar, two-minute track. *)
Lemma X17_progress_click_witness :
  audioElementRef samplePlayer = Some (Element.mk (Fin 30) (Fin (1 # 2)))
  /\ duration sampleState = Fin 120 /\ (0 < 120)%Q /\ (0 < 300)%Q
  /\ exists q,
       currentTime (snd (clickProgress (Fin 40) (Fin 10) (Fin 300)
                           samplePlayer sampleState)) = Fin q
       /\ audioElementRef (fst (clickProgress (Fin 40) (Fin 10) (Fin 300)
                                  samplePlayer sampleState))
          = Some (Element.mk (Fin q)
                    (Element.volume (Element.mk (Fin 30) (Fin (1 # 2)))))
       /\ (0 <= q)%Q /\ (q <= 120)%Q
       /\ ((10 <= 40)%Q -> (40 <= 10 + 300)%Q ->
           ((40 - 10) / 300 * 120 - 120 * (1 # 1000000000) <= q)%Q
           /\ (q <= (40 - 10) / 300 * 120 + 120 * (1 # 1000000000))%Q)
       /\ ((40 == 10)%Q -> (q == 0)%Q)
       /\ ((40 == 10 + 300)%Q -> (q == 120)%Q).
Proof.
  assert (H1 : audioElementRef samplePlayer
               = Some (Element.mk (Fin 30) (Fin (1 # 2)))) by reflexivity.
  assert (H2 : duration sampleState = Fin 120) by reflexivity.
  assert (H3 : (0 < 120)%Q) by reflexivity.
  assert (H4 : (0 < 300)%Q) by reflexivity.
  repeat (split; [assumption|]).
  exact (X17_progress_click samplePlayer sampleState _ 120 40 10 300
           H1 H2 H3 H4).
Defined.

(** ** Mode shortcuts *)

(** X18.  The digit keys follow the mode buttons: whatever the player's
    state, pressing Digit1 ... Digit5 outside an input field selects the
    mode of the first ... fifth button of the controls panel, with the
    browser's default action suppressed.  A key typed into an input or a
    text area selects nothing and keeps its default action. *)
Theorem X18_digit_keys_follow_buttons (duration currentTime volume : number) :
  map (fun k => App.handleKeyPress (digitKey k) duration currentTime volume)
      (seq 1 (length ControlsPanel.modes))
  = map (fun m => (true, Some (App.SetVisualizerMode (fst m))))
        ControlsPanel.modes
  /\ forall e, App.target e <> App.OtherTarget ->
       App.handleKeyPress e duration currentTime volume = (false, None).
Proof.
  split; [reflexivity|]. intros e He. unfold App.handleKeyPress.
  destruct (App.target e); [reflexivity | reflexivity | contradiction].
Qed.

(** ** The canvas size *)

(** X19.  [handleResize] keeps the canvas at least 400 wide and between
    300 and 500 high.  For a container of [w] by [h] pixels the new size
    is [w - 32] by [h - 32] wherever that respects those limits, and the
    nearest limit otherwise; without a container the size is kept. *)
Theorem X19_canvas_size_limits (w h : Q) (canvasSize : App.CanvasSize) :
  (exists W H,
     App.handleResize (Some (Fin w, Fin h)) canvasSize
     = App.mkCanvasSize (Fin W) (Fin H)
     /\ (400 <= W)%Q /\ (w - 32 <= W)%Q
     /\ ((432 <= w)%Q -> (W == w - 32)%Q)
     /\ ((w <= 432)%Q -> (W == 400)%Q)
     /\ (300 <= H)%Q /\ (H <= 500)%Q
     /\ ((332 <= h)%Q -> (h <= 532)%Q -> (H == h - 32)%Q)
     /\ ((h <= 332)%Q -> (H == 300)%Q)
     /\ ((532 <= h)%Q -> (H == 500)%Q))
  /\ App.handleResize None canvasSize = canvasSize.
Proof.
  split; [|reflexivity]. unfold App.handleResize.
  change (sub (Fin w) (Fin 32)) with (Fin (w - 32)).
  change (sub (Fin h) (Fin 32)) with (Fin (h - 32)).
  destruct (Math_max_Fin 400 (w - 32)) as (W & EW & HW).
  destruct (clamp_spec 300 500 (Fin (h - 32)))
    as (H & EH & H0 & H1 & Hin & Hlo & Hhi); [lra | discriminate |].
  rewrite EW, EH. exists W, H. split; [reflexivity|].
  repeat split; try assumption;
    try (intros; destruct HW as [[-> ?]|[-> ?]]; lra).
  - intros. apply Hin; [reflexivity | lra | lra].
  - intros. rewrite (Hlo (h - 32)%Q); [reflexivity | reflexivity | lra].
  - intros. rewrite (Hhi (h - 32)%Q); [reflexivity | reflexivity | lra].
Qed.
(** ** Formatting a time *)

Lemma Qfloor_unique (x : Q) (z : Z) :
  (inject_Z z <= x)%Q -> (x < inject_Z (z + 1))%Q -> Qfloor x = z.
Proof.
  intros Hlo Hhi.
  assert (H1 : (z <= Qfloor x)%Z).
  { rewrite <- (Qfloor_Z z). now apply Qfloor_resp_le. }
  assert (H2 : (Qfloor x < z + 1)%Z).
  { rewrite Zlt_Qlt. eapply Qle_lt_trans; [apply Qfloor_le | exact Hhi]. }
  lia.
Qed.

Lemma inject_Z_div_mod (n : Z) :
  (inject_Z n == 60 * inject_Z (n / 60) + inject_Z (n mod 60))%Q
  /\ (0 <= inject_Z (n mod 60))%Q /\ (inject_Z (n mod 60) <= 59)%Q.
Proof.
  pose proof (Z.mod_pos_bound n 60 ltac:(lia)) as Hr.
  split; [|split].
  - rewrite (Z.div_mod n 60) at 1 by lia.
    rewrite inject_Z_plus, inject_Z_mult. reflexivity.
  - change 0%Q with (inject_Z 0). rewrite <- Zle_Qle. lia.
  - change 59%Q with (inject_Z 59). rewrite <- Zle_Qle. lia.
Qed.

Lemma floor_minutes (s : Q) : Qfloor (s / 60) = (Qfloor s / 60)%Z.
Proof.
  pose proof (Qfloor_le s) as Hlo. pose proof (Qlt_floor s) as Hhi.
  rewrite inject_Z_plus in Hhi. change (inject_Z 1) with 1%Q in Hhi.
  destruct (inject_Z_div_mod (Qfloor s)) as (E & H0 & H1).
  assert (Ey : (s / 60 * 60 == s)%Q) by (field).
  apply Qfloor_unique.
  - lra.
  - rewrite inject_Z_plus. change (inject_Z 1) with 1%Q. lra.
Qed.

Lemma floor_seconds (s : Q) :
  Qfloor (s - 60 * inject_Z (Qfloor s / 60)) = (Qfloor s mod 60)%Z.
Proof.
  pose proof (Qfloor_le s) as Hlo. pose proof (Qlt_floor s) as Hhi.
  rewrite inject_Z_plus in Hhi. change (inject_Z 1) with 1%Q in Hhi.
  destruct (inject_Z_div_mod (Qfloor s)) as (E & H0 & H1).
  apply Qfloor_unique.
  - lra.
  - rewrite inject_Z_plus. change (inject_Z 1) with 1%Q. lra.
Qed.

Lemma Qtrunc_nonneg (x : Q) : (0 <= x)%Q -> Qtrunc x = Qfloor x.
Proof.
  intros H. unfold Qtrunc, Qltb.
  assert (E : Qle_bool 0 x = true) by now apply Qle_bool_iff.
  now rewrite E.
Qed.

Lemma toString_integer (z : Z) :
  (Z.abs z < 10 ^ 21)%Z -> toString (of_Z z) = Some (digits z).
Proof.
  intros H. unfold toString, of_Z, digits. rewrite Qfloor_Z.
  assert (E1 : Qeq_bool (inject_Z z) (inject_Z z) = true)
    by (apply Qeq_bool_iff; reflexivity).
  assert (E2 : (Z.abs z <? 10 ^ 21)%Z = true) by now apply Z.ltb_lt.
  now rewrite E1, E2.
Qed.

Lemma two_digits (r : Z) :
  (0 <= r < 60)%Z -> String.length (padStart0 2 (digits r)) = 2.
Proof.
  intros Hr.
  assert (A : forallb (fun k => Nat.eqb (String.length
                         (padStart0 2 (digits (Z.of_nat k)))) 2)
                      (seq 0 60) = true) by (vm_compute; reflexivity).
  rewrite forallb_forall in A.
  specialize (A (Z.to_nat r)).
  rewrite Z2Nat.id in A by lia.
  apply Nat.eqb_eq, A, in_seq. lia.
Qed.

(** X20.  [formatTime] prints minutes and seconds.  For a time of [s]
    seconds with [0 <= s < 2^53] (where doubles still hold every
    integer), the result is the decimal digits of [floor(s) / 60], a
    colon, and [floor(s) mod 60] padded with a zero to exactly two
    characters. *)
Theorem X20_formatTime_minutes_seconds (s : Q)
    (Hs : (0 <= s)%Q) (Hmax : (s < inject_Z (2 ^ 53))%Q) :
  ControlsPanel.formatTime (Fin s)
  = Some (digits (Qfloor s / 60) ++ ":"
          ++ padStart0 2 (digits (Qfloor s mod 60)))%string
  /\ String.length (padStart0 2 (digits (Qfloor s mod 60))) = 2.
Proof.
  pose proof (Z.mod_pos_bound (Qfloor s) 60 ltac:(lia)) as Hr.
  assert (Hn : (0 <= Qfloor s)%Z).
  { rewrite <- (Qfloor_Z 0). now apply Qfloor_resp_le. }
  assert (Hn' : (Qfloor s < 2 ^ 53)%Z).
  { rewrite Zlt_Qlt. eapply Qle_lt_trans; [apply Qfloor_le | exact Hmax]. }
  assert (Hk : (0 <= Qfloor s / 60)%Z) by (apply Z.div_pos; lia).
  assert (Hk' : (Qfloor s / 60 < 10 ^ 21)%Z).
  { apply Z.le_lt_trans with (Qfloor s); [|lia].
    apply Z.div_le_upper_bound; lia. }
  split; [|now apply two_digits].
  unfold ControlsPanel.formatTime.
  rewrite div_Fin by (intros E; discriminate E).
  unfold rem. rewrite (Qis0_false 60) by (intros E; discriminate E).
  assert (Hq : (0 <= s / 60)%Q)
    by (apply Qle_shift_div_l; [reflexivity | lra]).
  rewrite (Qtrunc_nonneg _ Hq). cbn [Math_floor].
  rewrite floor_minutes, floor_seconds.
  rewrite !toString_integer by lia.
  reflexivity.
Qed.

(** X20 at 125.7 seconds, which prints as 2:05. *)
Lemma X20_formatTime_minutes_seconds_witness :
  (0 <= 1257 # 10)%Q /\ (1257 # 10 < inject_Z (2 ^ 53))%Q
  /\ ControlsPanel.formatTime (Fin (1257 # 10)) = Some "2:05"%string
  /\ String.length "05" = 2.
Proof.
  assert (H1 : (0 <= 1257 # 10)%Q) by (unfold Qle; cbn; lia).
  assert (H2 : (1257 # 10 < inject_Z (2 ^ 53))%Q) by reflexivity.
  split; [exact H1|]. split; [exact H2|].
  exact (X20_formatTime_minutes_seconds (1257 # 10) H1 H2).
Defined.
(** * The draw routines *)

Lemma u8_bounds (b : byte) :
  exists v, u8 b = Fin v /\ v = inject_Z (Z.of_N (Byte.to_N b))
            /\ (0 <= v)%Q /\ (v <= 255)%Q.
Proof.
  exists (inject_Z (Z.of_N (Byte.to_N b))).
  pose proof (Byte.to_N_bounded b) as Hb.
  split; [reflexivity|]. split; [reflexivity|]. split.
  - change 0%Q with (inject_Z 0). rewrite <- Zle_Qle. lia.
  - change 255%Q with (inject_Z 255). rewrite <- Zle_Qle. lia.
Qed.

Lemma of_nat_nonneg (n : nat) : (0 <= inject_Z (Z.of_nat n))%Q.
Proof. change 0%Q with (inject_Z 0). rewrite <- Zle_Qle. lia. Qed.

Lemma of_nat_lt (i n : nat) :
  i < n -> (inject_Z (Z.of_nat i) < inject_Z (Z.of_nat n))%Q.
Proof. intros H. rewrite <- Zlt_Qlt. lia. Qed.

(** A fraction [i / n] of a non-negative extent lies within it. *)
Lemma fraction_of_extent (i n : nat) (e : Q) :
  i < n -> (0 <= e)%Q ->
  (0 <= inject_Z (Z.of_nat i) / inject_Z (Z.of_nat n) * e)%Q
  /\ (inject_Z (Z.of_nat i) / inject_Z (Z.of_nat n) * e <= e)%Q.
Proof.
  intros Hi He.
  pose proof (of_nat_nonneg i) as H0. pose proof (of_nat_lt i n Hi) as H1.
  set (a := inject_Z (Z.of_nat i)) in *. set (b := inject_Z (Z.of_nat n)) in *.
  assert (Hb : (0 < b)%Q) by lra.
  assert (Hlo : (0 <= a / b)%Q) by (apply Qle_shift_div_l; lra).
  assert (Hhi : (a / b <= 1)%Q) by (apply Qle_shift_div_r; lra).
  assert (P1 : (0 <= a / b * e)%Q) by (apply Qmult_le_0_compat; lra).
  assert (P2 : (0 <= (1 - a / b) * e)%Q) by (apply Qmult_le_0_compat; lra).
  split; lra.
Qed.

(** The height of a waveform point stays in the middle four fifths. *)
Lemma wave_height (v h : Q) :
  (0 <= v)%Q -> (v <= 255)%Q -> (0 <= h)%Q ->
  ((1 # 10) * h <= h / 2 + (v - 128) / 128 * (h * (4 # 10)))%Q
  /\ (h / 2 + (v - 128) / 128 * (h * (4 # 10)) <= (9 # 10) * h)%Q.
Proof.
  intros V0 V1 H0.
  assert (E : ((v - 128) / 128 * (h * (4 # 10)) == (4 # 1280) * (v * h) - (4 # 10) * h)%Q)
    by field.
  assert (P1 : (0 <= v * h)%Q) by (apply Qmult_le_0_compat; lra).
  assert (P2 : (0 <= (255 - v) * h)%Q) by (apply Qmult_le_0_compat; lra).
  assert (Eh : (h / 2 == (1 # 2) * h)%Q) by field.
  split; lra.
Qed.

Lemma drawWaveform_loop (timeData : list byte) (canvasWidth canvasHeight : nat)
    (c0 : Context2D) (body : nat -> Context2D -> Context2D) :
  path c0 = [] ->
  body = (fun i ctx =>
      let x := mul (div (of_nat i) (of_nat (length timeData))) (of_nat canvasWidth) in
      let y := add (div (of_nat canvasHeight) (Fin 2))
                   (mul (div (sub (get timeData i) (Fin 128)) (Fin 128))
                        (mul (of_nat canvasHeight) (Fin (4 # 10)))) in
      if Nat.eqb i 0 then moveTo x y ctx else lineTo x y ctx) ->
  let c := for_lt (of_nat (length timeData)) body c0 in
  ops c = ops c0 /\ globalAlpha c = globalAlpha c0
  /\ strokeStyle c = strokeStyle c0 /\ lineWidth c = lineWidth c0
  /\ length (path c) = length timeData
  /\ forall i b, timeData !! i = Some b ->
       exists x y,
         path c !! i
         = Some ((if Nat.eqb i 0 then MoveTo else LineTo) (Fin x) (Fin y))
         /\ (x == inject_Z (Z.of_nat i) / inject_Z (Z.of_nat (length timeData))
                  * inject_Z (Z.of_nat canvasWidth))%Q
         /\ (y == inject_Z (Z.of_nat canvasHeight) / 2
                  + (inject_Z (Z.of_N (Byte.to_N b)) - 128) / 128
                    * (inject_Z (Z.of_nat canvasHeight) * (4 # 10)))%Q.
Proof.
  intros Hp Hbody. cbv zeta.
  set (n := length timeData).
  pose (P := fun (k : nat) (c : Context2D) =>
    ops c = ops c0 /\ globalAlpha c = globalAlpha c0
    /\ strokeStyle c = strokeStyle c0 /\ lineWidth c = lineWidth c0
    /\ length (path c) = k
    /\ forall i b, i < k -> timeData !! i = Some b ->
         exists x y,
           path c !! i
           = Some ((if Nat.eqb i 0 then MoveTo else LineTo) (Fin x) (Fin y))
           /\ (x == inject_Z (Z.of_nat i) / inject_Z (Z.of_nat n)
                    * inject_Z (Z.of_nat canvasWidth))%Q
           /\ (y == inject_Z (Z.of_nat canvasHeight) / 2
                    + (inject_Z (Z.of_N (Byte.to_N b)) - 128) / 128
                      * (inject_Z (Z.of_nat canvasHeight) * (4 # 10)))%Q).
  assert (G : P (iterations (of_nat n)) (for_lt (of_nat n) body c0)).
  { apply for_lt_ind.
    - repeat split; try reflexivity; [now rewrite Hp | intros; lia].
    - intros k c Hk (Hops & Ha & Hs & Hw & Hlen & Hpts).
      rewrite iterations_of_nat in Hk.
      assert (Epath : path (body k c)
                = path c ++ [(if Nat.eqb k 0 then MoveTo else LineTo)
                   (mul (div (of_nat k) (of_nat n)) (of_nat canvasWidth))
                   (add (div (of_nat canvasHeight) (Fin 2))
                      (mul (div (sub (get timeData k) (Fin 128)) (Fin 128))
                           (mul (of_nat canvasHeight) (Fin (4 # 10)))))]).
      { rewrite Hbody. cbv zeta. fold n. now destruct (Nat.eqb k 0). }
      assert (Eother : ops (body k c) = ops c
                       /\ globalAlpha (body k c) = globalAlpha c
                       /\ strokeStyle (body k c) = strokeStyle c
                       /\ lineWidth (body k c) = lineWidth c).
      { rewrite Hbody. cbv zeta. now destruct (Nat.eqb k 0). }
      destruct Eother as (E1 & E2 & E3 & E4).
      unfold P. rewrite E1, E2, E3, E4, Epath.
      repeat split; try assumption.
      + rewrite length_app. cbn [length]. lia.
      + intros i b Hi Hb.
        destruct (Nat.eq_dec i k) as [->|Hne].
        * rewrite lookup_app_r by lia.
          replace (k - length (path c)) with 0 by lia.
          cbn [lookup list_lookup].
          unfold get. rewrite Hb.
          destruct (u8_bounds b) as (v & -> & -> & _).
          assert (Hn : ~ (inject_Z (Z.of_nat n) == 0)%Q).
          { pose proof (of_nat_lt k n Hk). pose proof (of_nat_nonneg k). lra. }
          unfold of_nat, of_Z. rewrite div_Fin by exact Hn.
          do 2 eexists. split; [reflexivity|]. split; [reflexivity|].
          change (- (128))%Q with (- 128)%Q.
          unfold Qdiv. change (Qinv 2) with (1 # 2). change (Qinv 128) with (1 # 128).
          ring.
        * rewrite lookup_app_l by lia. apply Hpts; [lia | exact Hb]. }
  rewrite iterations_of_nat in G.
  destruct G as (Hops & Ha & Hs & Hw & Hlen & Hpts).
  repeat split; try assumption.
  intros i b Hb. apply Hpts; [|exact Hb].
  apply lookup_lt_Some in Hb. exact Hb.
Qed.

(** X21.  The waveform is one stroke with one point per sample, and it
    stays on the canvas: every point has [0 <= x <= width] and
    [0.09 * height <= y <= 0.91 * height] (the band is 0.1 to 0.9 of the
    height up to rounding).  The first point is a [moveTo] at [x = 0],
    every later one a [lineTo]; a sample of 128 lies exactly on the
    centre line [y = height / 2]; whatever path was open before is
    dropped, and an empty buffer strokes an empty path. *)
Theorem X21_waveform_stays_on_canvas (timeData : list byte)
    (canvasWidth canvasHeight : nat) (ctx : Context2D) :
  let after := drawWaveform timeData canvasWidth canvasHeight ctx in
  let W := inject_Z (Z.of_nat canvasWidth) in
  let H := inject_Z (Z.of_nat canvasHeight) in
  exists p,
    ops after = ops ctx ++ [Stroke p (strokeStyle after) (Fin 2) (globalAlpha ctx)]
    /\ length p = length timeData
    /\ forall i b, timeData !! i = Some b ->
         exists x y,
           p !! i = Some ((if Nat.eqb i 0 then MoveTo else LineTo) (Fin x) (Fin y))
           /\ (0 <= x)%Q /\ (x <= W)%Q
           /\ ((9 # 100) * H <= y)%Q /\ (y <= (91 # 100) * H)%Q
           /\ (i = 0 -> (x == 0)%Q)
           /\ (b = x80 -> (y == H / 2)%Q).
Proof.
  cbv zeta. unfold drawWaveform. cbv zeta.
  match goal with |- context [for_lt _ ?body ?c0] =>
    destruct (drawWaveform_loop timeData canvasWidth canvasHeight c0 body
                eq_refl eq_refl) as (Hops & Ha & Hs & Hw & Hlen & Hpts)
  end.
  cbv zeta in Hops, Ha, Hs, Hw, Hlen, Hpts.
  eexists. cbn [stroke emit ops strokeStyle].
  rewrite Hops, Ha, Hw. split; [reflexivity|]. split; [exact Hlen|].
  intros i b Hb. destruct (Hpts i b Hb) as (x & y & Ep & Ex & Ey).
  exists x, y. split; [exact Ep|].
  pose proof (lookup_lt_Some _ _ _ Hb) as Hi.
  destruct (fraction_of_extent i (length timeData)
              (inject_Z (Z.of_nat canvasWidth)) Hi (of_nat_nonneg canvasWidth))
    as (X0 & X1).
  destruct (u8_bounds b) as (v & _ & Ev & V0 & V1). subst v.
  pose proof (of_nat_nonneg canvasHeight) as H0.
  destruct (wave_height (inject_Z (Z.of_N (Byte.to_N b)))
              (inject_Z (Z.of_nat canvasHeight)) V0 V1 H0) as (Y0 & Y1).
  rewrite Ex, Ey. split; [exact X0|]. split; [exact X1|].
  split; [lra|]. split; [lra|]. split.
  - intros ->. change (inject_Z (Z.of_nat 0)) with 0%Q.
    unfold Qdiv. now rewrite !Qmult_0_l.
  - intros ->. change (inject_Z (Z.of_N (Byte.to_N x80))) with 128%Q.
    assert (E : (128 - 128 == 0)%Q) by reflexivity.
    rewrite E. unfold Qdiv. rewrite !Qmult_0_l. ring.
Qed.
(** A loop whose every pass appends [m] painting calls satisfying [Q] and
    keeps the context property [I]. *)
Lemma ops_loop (m : nat) (Q : DrawOp -> Prop) (I : Context2D -> Prop)
    (bound : number) (body : nat -> Context2D -> Context2D) (c0 : Context2D) :
  I c0 ->
  (forall i c, i < iterations bound -> I c ->
     I (body i c)
     /\ exists os, ops (body i c) = ops c ++ os /\ length os = m /\ Forall Q os) ->
  I (for_lt bound body c0)
  /\ exists new,
       ops (for_lt bound body c0) = ops c0 ++ new
       /\ length new = iterations bound * m
       /\ Forall Q new.
Proof.
  intros H0 Hbody.
  apply (for_lt_ind (fun k c =>
    I c /\ exists new, ops c = ops c0 ++ new /\ length new = k * m
                       /\ Forall Q new)).
  - split; [exact H0|]. exists []. rewrite app_nil_r. repeat split. constructor.
  - intros i c Hi (HI & new & E & L & F).
    destruct (Hbody i c Hi HI) as (HI' & os & E' & L' & F').
    split; [exact HI'|]. exists (new ++ os).
    rewrite E', E, <- app_assoc, length_app. split; [reflexivity|].
    split; [lia|]. apply Forall_app. now split.
Qed.

Lemma reduce_sum (f : list byte) (a : Z) :
  fold_left (fun sum val => add sum (u8 val)) f (of_Z a) = of_Z (a + byteSum f).
Proof.
  revert a. induction f as [|b f IH]; intros a.
  - cbn. now rewrite Z.add_0_r.
  - cbn [fold_left]. unfold u8 at 2. rewrite add_of_Z, IH. cbn [byteSum foldr].
    f_equal. fold (byteSum f). lia.
Qed.

(** The mean of a non-empty byte buffer, scaled to the unit interval. *)
Lemma intensity_bounds (f : list byte) :
  f <> [] ->
  exists q,
    div (div (fold_left (fun sum val => add sum (u8 val)) f (Fin 0))
             (of_nat (length f))) (Fin 255) = Fin q
    /\ (q == inject_Z (byteSum f) / inject_Z (Z.of_nat (length f)) / 255)%Q
    /\ (0 <= q)%Q /\ (q <= 1)%Q.
Proof.
  intros Hf.
  assert (Hn : 0 < length f) by (destruct f; [congruence | cbn; lia]).
  change (Fin 0) with (of_Z 0). rewrite reduce_sum, Z.add_0_l.
  pose proof (of_nat_lt 0 (length f) Hn) as Hpos.
  change (inject_Z (Z.of_nat 0)) with 0%Q in Hpos.
  unfold of_nat, of_Z. rewrite div_Fin by lra.
  rewrite div_Fin by (intros E; discriminate E).
  eexists. split; [reflexivity|]. split; [reflexivity|].
  pose proof (byteSum_bounds f) as (B0 & B1).
  assert (S0 : (0 <= inject_Z (byteSum f))%Q)
    by (change 0%Q with (inject_Z 0); now rewrite <- Zle_Qle).
  assert (S1 : (inject_Z (byteSum f) <= 255 * inject_Z (Z.of_nat (length f)))%Q).
  { change 255%Q with (inject_Z 255). rewrite <- inject_Z_mult.
    now rewrite <- Zle_Qle. }
  set (s := inject_Z (byteSum f)) in *.
  set (n := inject_Z (Z.of_nat (length f))) in *.
  split.
  - apply Qle_shift_div_l; [reflexivity|]. rewrite Qmult_0_l.
    apply Qle_shift_div_l; [exact Hpos | lra].
  - apply Qle_shift_div_r; [reflexivity|]. rewrite Qmult_1_l.
    apply Qle_shift_div_r; [exact Hpos | lra].
Qed.

Section Shapes.

Context `{Math : MathLib}.

Lemma drawParticles_fills (frequencyData : list byte)
    (canvasWidth canvasHeight : nat) (beatDetected : bool)
    (bassEnergy : number) (ctx : Context2D) :
  let after :=
    drawParticles frequencyData canvasWidth canvasHeight beatDetected
                  bassEnergy ctx in
  let intensity :=
    div (div (fold_left (fun sum val => add sum (u8 val)) frequencyData (Fin 0))
             (of_nat (length frequencyData))) (Fin 255) in
  let size := add (Fin 2) (mul intensity (Fin 6)) in
  let size := if beatDetected then mul size (Fin (13 # 10)) else size in
  globalAlpha after = globalAlpha ctx
  /\ exists fills,
       ops after = ops ctx ++ fills
       /\ length fills = (if beatDetected then 100 else 50)
       /\ Forall (fun o => exists x y,
                    o = Fill [Arc x y size (Fin 0) (mul Math_PI (Fin 2))]
                             (fillStyle after) (globalAlpha ctx)) fills.
Proof.
  cbv zeta. unfold drawParticles. cbv zeta.
  match goal with |- context [for_lt ?bd ?body ?c0] =>
    destruct (ops_loop 1
      (fun o => exists x y,
         o = Fill [Arc x y
                     (if beatDetected
                      then mul (add (Fin 2)
                        (mul (div (div (fold_left (fun sum val => add sum (u8 val))
                                          frequencyData (Fin 0))
                                       (of_nat (length frequencyData))) (Fin 255))
                             (Fin 6))) (Fin (13 # 10))
                      else add (Fin 2)
                        (mul (div (div (fold_left (fun sum val => add sum (u8 val))
                                          frequencyData (Fin 0))
                                       (of_nat (length frequencyData))) (Fin 255))
                             (Fin 6)))
                     (Fin 0) (mul Math_PI (Fin 2))]
                  (fillStyle c0) (globalAlpha ctx))
      (fun c => fillStyle c = fillStyle c0 /\ globalAlpha c = globalAlpha ctx)
      bd body c0) as ((Hs & Ha) & fills & E & L & F)
  end.
  - split; [reflexivity | now destruct beatDetected].
  - intros i c _ (Hs & Ha). cbv zeta. split; [now split|].
    eexists [_]. cbn [fill emit ops arc beginPath set_path path fillStyle
                       globalAlpha app]. rewrite Hs, Ha.
    split; [reflexivity|]. split; [reflexivity|].
    constructor; [|constructor]. do 2 eexists. reflexivity.
  - split; [exact Ha|]. exists fills. rewrite E, Hs. split.
    + now destruct beatDetected.
    + split; [|exact F]. rewrite L, iterations_of_nat.
      destruct beatDetected; lia.
Qed.

(** X22.  The particle system draws 50 discs, 100 on a beat, each a full
    circle filled at the context's opacity, all of one radius.  For a
    non-empty buffer the radius lies between 2 and 8, on a beat between
    2.6 and 10.5 (2 + 6 * mean / 255, times 1.3 on a beat, up to
    rounding).  For an empty buffer the mean is 0/0 and the radius of
    every disc is [NaN]. *)
Theorem X22_particles_count_and_size (frequencyData : list byte)
    (canvasWidth canvasHeight : nat) (beatDetected : bool)
    (bassEnergy : number) (ctx : Context2D) :
  let after :=
    drawParticles frequencyData canvasWidth canvasHeight beatDetected
                  bassEnergy ctx in
  exists fills size,
    ops after = ops ctx ++ fills
    /\ length fills = (if beatDetected then 100 else 50)
    /\ Forall (fun o => exists x y,
                 o = Fill [Arc x y size (Fin 0) (mul Math_PI (Fin 2))]
                          (fillStyle after) (globalAlpha ctx)) fills
    /\ (frequencyData = [] -> size = NaN)
    /\ (frequencyData <> [] ->
        exists r,
          size = Fin r
          /\ (if beatDetected
              then ((26 # 10) <= r)%Q /\ (r <= (105 # 10))%Q
              else (2 <= r)%Q /\ (r <= 8)%Q)).
Proof.
  cbv zeta.
  destruct (drawParticles_fills frequencyData canvasWidth canvasHeight
              beatDetected bassEnergy ctx) as (_ & fills & E & L & F).
  cbv zeta in E, L, F.
  exists fills. eexists. split; [exact E|]. split; [exact L|].
  split; [exact F|]. split.
  - intros ->. now destruct beatDetected.
  - intros Hf. destruct (intensity_bounds frequencyData Hf) as (q & -> & _ & Q0 & Q1).
    destruct beatDetected; cbn [mul add]; eexists; (split; [reflexivity|]);
      split; lra.
Qed.

End Shapes.
(** ** Bins read by the bar and circular spectra *)

Lemma iterations_lt (i : nat) (bc : Q) :
  i < iterations (Fin bc) -> (inject_Z (Z.of_nat i) < bc)%Q.
Proof.
  cbn [iterations]. intros Hi.
  assert (H : (Z.of_nat i <= Qceiling bc - 1)%Z) by lia.
  rewrite Zle_Qle in H.
  eapply Qle_lt_trans; [exact H | apply Qceiling_lt].
Qed.

Lemma Qceiling_quotient (n d : positive) :
  Qceiling (inject_Z (Z.pos n) / inject_Z (Z.pos d))
  = ((Z.pos n + Z.pos d - 1) / Z.pos d)%Z.
Proof.
  unfold Qceiling, Qfloor, Qopp, Qdiv, Qmult, Qinv, inject_Z.
  cbn [Qnum Qden].
  Z.div_mod_to_equations. nia.
Qed.

(** The loop [for (i = 0; i < Math.min(length / d, cap); i++)] runs
    [min(ceil(length / d), cap)] times. *)
Lemma capped_iterations (n : nat) (d cap : positive) :
  iterations (Math_min (div (of_nat n) (Fin (inject_Z (Z.pos d))))
                       (Fin (inject_Z (Z.pos cap))))
  = Nat.min ((n + Pos.to_nat d - 1) / Pos.to_nat d) (Pos.to_nat cap).
Proof.
  unfold of_nat, of_Z.
  rewrite div_Fin by (intros E; discriminate E).
  destruct (Math_min_Fin (inject_Z (Z.of_nat n) / inject_Z (Z.pos d))
              (inject_Z (Z.pos cap))) as (q & -> & Hq).
  cbn [iterations].
  assert (Hd : (0 < inject_Z (Z.pos d))%Q) by reflexivity.
  assert (Ediv : Z.of_nat ((n + Pos.to_nat d - 1) / Pos.to_nat d)
                 = ((Z.of_nat n + Z.pos d - 1) / Z.pos d)%Z).
  { rewrite Nat2Z.inj_div, Nat2Z.inj_sub, Nat2Z.inj_add, positive_nat_Z by lia.
    reflexivity. }
  assert (Eceil : Qceiling (inject_Z (Z.of_nat n) / inject_Z (Z.pos d))
                  = ((Z.of_nat n + Z.pos d - 1) / Z.pos d)%Z).
  { destruct n as [|n].
    - change (inject_Z (Z.of_nat 0)) with 0%Q.
      assert (E0 : (0 / inject_Z (Z.pos d) == inject_Z 0)%Q)
        by (unfold Qdiv; now rewrite Qmult_0_l).
      rewrite (Qceiling_comp _ _ E0), Qceiling_Z.
      change (Z.of_nat 0) with 0%Z. rewrite Z.add_0_l.
      symmetry. apply Z.div_small. lia.
    - change (Z.of_nat (S n)) with (Z.pos (Pos.of_succ_nat n)).
      apply Qceiling_quotient. }
  destruct Hq as [[-> Hlt] | [-> Hle]].
  - rewrite Qceiling_Z.
    assert (Hc : (Z.pos cap <= Qceiling (inject_Z (Z.of_nat n) / inject_Z (Z.pos d)))%Z).
    { rewrite <- (Qceiling_Z (Z.pos cap)). apply Qceiling_resp_le. lra. }
    rewrite Eceil, <- Ediv in Hc. lia.
  - assert (Hc : (Qceiling (inject_Z (Z.of_nat n) / inject_Z (Z.pos d)) <= Z.pos cap)%Z).
    { rewrite <- (Qceiling_Z (Z.pos cap)). now apply Qceiling_resp_le. }
    rewrite Eceil, <- Ediv in Hc |- *. lia.
Qed.

(** Bar [i] of [bc] reads an existing bin: the index
    [floor(i / bc * length)] is below the length whenever [i < bc]. *)
Lemma bin_in_range (f : list byte) (bc : Q) (i : nat) :
  0 < length f -> (inject_Z (Z.of_nat i) < bc)%Q ->
  exists b k,
    f !! k = Some b
    /\ (inject_Z (Z.of_nat k)
        <= inject_Z (Z.of_nat i) / bc * inject_Z (Z.of_nat (length f)))%Q
    /\ (inject_Z (Z.of_nat i) / bc * inject_Z (Z.of_nat (length f))
        < inject_Z (Z.of_nat k) + 1)%Q
    /\ get_at f (Math_floor (mul (div (of_nat i) (Fin bc)) (of_nat (length f))))
       = u8 b.
Proof.
  intros Hn Hi.
  pose proof (of_nat_nonneg i) as I0.
  pose proof (of_nat_lt 0 (length f) Hn) as N0.
  change (inject_Z (Z.of_nat 0)) with 0%Q in N0.
  unfold of_nat, of_Z. rewrite div_Fin by lra. cbn [mul Math_floor].
  set (a := inject_Z (Z.of_nat i)) in *.
  set (n := inject_Z (Z.of_nat (length f))) in *.
  assert (F0 : (0 <= a / bc)%Q) by (apply Qle_shift_div_l; lra).
  assert (F1 : (a / bc < 1)%Q) by (apply Qlt_shift_div_r; lra).
  assert (X0 : (0 <= a / bc * n)%Q) by (apply Qmult_le_0_compat; lra).
  assert (X1 : (a / bc * n < n)%Q).
  { assert (P : (0 < (1 - a / bc) * n)%Q) by (apply Qmult_lt_0_compat; lra).
    lra. }
  set (x := (a / bc * n)%Q) in *.
  assert (Z0 : (0 <= Qfloor x)%Z).
  { rewrite <- (Qfloor_Z 0). now apply Qfloor_resp_le. }
  assert (Z1 : (Qfloor x < Z.of_nat (length f))%Z).
  { rewrite Zlt_Qlt. eapply Qle_lt_trans; [apply Qfloor_le | exact X1]. }
  unfold of_Z, get_at. rewrite Qfloor_Z.
  assert (E1 : Qeq_bool (inject_Z (Qfloor x)) (inject_Z (Qfloor x)) = true)
    by (apply Qeq_bool_iff; reflexivity).
  assert (E2 : (0 <=? Qfloor x)%Z = true) by now apply Z.leb_le.
  rewrite E1, E2. cbn [andb].
  destruct (lookup_lt_is_Some_2 f (Z.to_nat (Qfloor x))) as [b Hb]; [lia|].
  exists b, (Z.to_nat (Qfloor x)). split; [exact Hb|].
  rewrite Z2Nat.id by exact Z0.
  split; [apply Qfloor_le|]. split.
  - pose proof (Qlt_floor x) as Hx. rewrite inject_Z_plus in Hx. exact Hx.
  - unfold get. now rewrite Hb.
Qed.

(** The bound of either spectrum loop is the smaller of [length / d] and
    the cap, and whenever the loop runs at all the buffer is not empty and
    the counter is below the bound. *)
Lemma capped_bound (n : nat) (d cap : Q) :
  (1 <= d)%Q ->
  exists bc,
    Math_min (div (of_nat n) (Fin d)) (Fin cap) = Fin bc
    /\ ((bc = cap /\ (cap < inject_Z (Z.of_nat n) / d)%Q)
        \/ (bc = (inject_Z (Z.of_nat n) / d)%Q
            /\ (inject_Z (Z.of_nat n) / d <= cap)%Q))
    /\ forall i, i < iterations (Fin bc) ->
         0 < n /\ (inject_Z (Z.of_nat i) < bc)%Q.
Proof.
  intros Hd. unfold of_nat, of_Z. rewrite div_Fin by lra.
  destruct (Math_min_Fin (inject_Z (Z.of_nat n) / d) cap) as (bc & E & Hbc).
  exists bc. split; [exact E|]. split; [exact Hbc|]. intros i Hi.
  pose proof (iterations_lt i bc Hi) as Hlt. split; [|exact Hlt].
  pose proof (of_nat_nonneg i) as I0.
  destruct n as [|n]; [|lia]. exfalso.
  change (inject_Z (Z.of_nat 0)) with 0%Q in Hbc.
  assert (E0 : (0 / d == 0)%Q) by (unfold Qdiv; apply Qmult_0_l).
  destruct Hbc as [[-> ?]|[-> ?]]; lra.
Qed.

(** The bin a bar or spoke reads, in whole numbers: with the loop bound
    [length / d] it is bin [d * i]; with the bound [cap] it is the bin at
    [i * length / cap]. *)
Lemma bin_position (n i k : nat) (d cap : positive) (bc : Q) :
  0 < n ->
  (bc = inject_Z (Z.pos cap) /\ (inject_Z (Z.pos cap)
                                  < inject_Z (Z.of_nat n) / inject_Z (Z.pos d))%Q)
  \/ (bc = (inject_Z (Z.of_nat n) / inject_Z (Z.pos d))%Q
      /\ (inject_Z (Z.of_nat n) / inject_Z (Z.pos d) <= inject_Z (Z.pos cap))%Q) ->
  (inject_Z (Z.of_nat k)
   <= inject_Z (Z.of_nat i) / bc * inject_Z (Z.of_nat n))%Q ->
  (inject_Z (Z.of_nat i) / bc * inject_Z (Z.of_nat n)
   < inject_Z (Z.of_nat k) + 1)%Q ->
  (n <= Pos.to_nat d * Pos.to_nat cap ->
     k <= Pos.to_nat d * i /\ Pos.to_nat d * i < k + 1)
  /\ (Pos.to_nat d * Pos.to_nat cap <= n ->
      k * Pos.to_nat cap <= i * n /\ i * n < (k + 1) * Pos.to_nat cap).
Proof.
  intros Hn Hbc Hlo Hhi.
  assert (N0 : (0 < inject_Z (Z.of_nat n))%Q)
    by (change 0%Q with (inject_Z 0); rewrite <- Zlt_Qlt; lia).
  assert (D0 : (0 < inject_Z (Z.pos d))%Q) by reflexivity.
  assert (C0 : (0 < inject_Z (Z.pos cap))%Q) by reflexivity.
  assert (Hcmp : (inject_Z (Z.of_nat n) / inject_Z (Z.pos d)
                  <= inject_Z (Z.pos cap))%Q
                 <-> n <= Pos.to_nat d * Pos.to_nat cap).
  { split; intros H.
    - assert (H' : (inject_Z (Z.of_nat n)
                    <= inject_Z (Z.pos cap) * inject_Z (Z.pos d))%Q).
      { assert (E : (inject_Z (Z.of_nat n) / inject_Z (Z.pos d)
                     * inject_Z (Z.pos d) == inject_Z (Z.of_nat n))%Q)
          by (field; lra).
        rewrite <- E. apply Qmult_le_compat_r; [exact H | lra]. }
      rewrite <- inject_Z_mult, <- Zle_Qle in H'. lia.
    - apply Qle_shift_div_r; [exact D0|].
      rewrite <- inject_Z_mult, <- Zle_Qle. lia. }
  assert (Vd : (inject_Z (Z.of_nat i)
                / (inject_Z (Z.of_nat n) / inject_Z (Z.pos d))
                * inject_Z (Z.of_nat n)
                == inject_Z (Z.pos d * Z.of_nat i))%Q).
  { rewrite inject_Z_mult. field. split; lra. }
  assert (Vc : (inject_Z (Z.of_nat i) / inject_Z (Z.pos cap)
                * inject_Z (Z.of_nat n) * inject_Z (Z.pos cap)
                == inject_Z (Z.of_nat i * Z.of_nat n))%Q).
  { rewrite inject_Z_mult. field. lra. }
  split; intros Hsize.
  - assert (Ebc : (inject_Z (Z.of_nat i) / bc * inject_Z (Z.of_nat n)
                   == inject_Z (Z.pos d * Z.of_nat i))%Q).
    { destruct Hbc as [[-> Hlt] | [-> _]]; [|exact Vd].
      apply Hcmp in Hsize.
      assert (Eq : (inject_Z (Z.pos cap)
                    == inject_Z (Z.of_nat n) / inject_Z (Z.pos d))%Q) by lra.
      rewrite Eq. exact Vd. }
    rewrite Ebc in Hlo, Hhi.
    change 1%Q with (inject_Z 1) in Hhi. rewrite <- inject_Z_plus in Hhi.
    rewrite <- Zle_Qle in Hlo. rewrite <- Zlt_Qlt in Hhi. lia.
  - assert (Ebc : (inject_Z (Z.of_nat i) / bc * inject_Z (Z.of_nat n)
                   == inject_Z (Z.of_nat i) / inject_Z (Z.pos cap)
                      * inject_Z (Z.of_nat n))%Q).
    { destruct Hbc as [[-> _] | [-> Hle]]; [reflexivity|].
      assert (Hge : (inject_Z (Z.pos cap)
                     <= inject_Z (Z.of_nat n) / inject_Z (Z.pos d))%Q).
      { apply Qle_shift_div_l; [exact D0|].
        rewrite <- inject_Z_mult, <- Zle_Qle. lia. }
      assert (Eq : (inject_Z (Z.of_nat n) / inject_Z (Z.pos d)
                    == inject_Z (Z.pos cap))%Q) by lra.
      now rewrite Eq. }
    rewrite Ebc in Hlo, Hhi.
    assert (Hlo' : (inject_Z (Z.of_nat k) * inject_Z (Z.pos cap)
                    <= inject_Z (Z.of_nat i * Z.of_nat n))%Q).
    { rewrite <- Vc. apply Qmult_le_compat_r; [exact Hlo | lra]. }
    assert (Hhi' : (inject_Z (Z.of_nat i * Z.of_nat n)
                    < (inject_Z (Z.of_nat k) + 1) * inject_Z (Z.pos cap))%Q).
    { rewrite <- Vc. apply Qmult_lt_compat_r; [exact C0 | exact Hhi]. }
    change 1%Q with (inject_Z 1) in Hhi'.
    rewrite <- inject_Z_plus, <- inject_Z_mult in Hhi'.
    rewrite <- inject_Z_mult in Hlo'.
    rewrite <- Zle_Qle in Hlo'. rewrite <- Zlt_Qlt in Hhi'. lia.
Qed.

(** A loop whose pass [i] appends [m] painting calls satisfying [Q i]. *)
Lemma ops_loop_indexed (m : nat) (Q : nat -> list DrawOp -> Prop)
    (I : Context2D -> Prop)
    (bound : number) (body : nat -> Context2D -> Context2D) (c0 : Context2D) :
  I c0 ->
  (forall i c, i < iterations bound -> I c ->
     I (body i c)
     /\ exists os, ops (body i c) = ops c ++ os /\ length os = m /\ Q i os) ->
  I (for_lt bound body c0)
  /\ exists new,
       ops (for_lt bound body c0) = ops c0 ++ new
       /\ length new = iterations bound * m
       /\ forall i, i < iterations bound -> Q i (take m (drop (i * m) new)).
Proof.
  intros H0 Hbody.
  apply (for_lt_ind (fun k c =>
    I c /\ exists new, ops c = ops c0 ++ new /\ length new = k * m
                       /\ forall i, i < k -> Q i (take m (drop (i * m) new)))).
  - split; [exact H0|]. exists []. rewrite app_nil_r.
    repeat split. intros i Hi. lia.
  - intros k c Hk (HI & new & E & L & F).
    destruct (Hbody k c Hk HI) as (HI' & os & E' & L' & Qk).
    split; [exact HI'|]. exists (new ++ os).
    rewrite E', E, <- app_assoc, length_app. split; [reflexivity|].
    split; [lia|]. intros i Hi.
    destruct (Nat.eq_dec i k) as [->|Hne].
    + rewrite <- L, drop_app_length, take_ge by lia. exact Qk.
    + assert (Hm : (i + 1) * m <= k * m) by (apply Nat.mul_le_mono_r; lia).
      rewrite drop_app_le by lia.
      rewrite take_app_le by (rewrite length_drop; lia).
      apply F. lia.
Qed.

(** A byte scaled by [1/255] of a non-negative extent. *)
Lemma level_of_extent (b : byte) (e : Q) :
  (0 <= e)%Q ->
  (0 <= inject_Z (Z.of_N (Byte.to_N b)) / 255 * e)%Q
  /\ (inject_Z (Z.of_N (Byte.to_N b)) / 255 * e <= e)%Q.
Proof.
  intros He. destruct (u8_bounds b) as (v & _ & <- & V0 & V1).
  assert (F0 : (0 <= v / 255)%Q) by (apply Qle_shift_div_l; [reflexivity | lra]).
  assert (F1 : (v / 255 <= 1)%Q) by (apply Qle_shift_div_r; [reflexivity | lra]).
  assert (P0 : (0 <= v / 255 * e)%Q) by (apply Qmult_le_0_compat; lra).
  assert (P1 : (0 <= (1 - v / 255) * e)%Q) by (apply Qmult_le_0_compat; lra).
  split; lra.
Qed.

(** X23.  The bar spectrum draws [min(ceil(length / 4), 128)] bars, each
    followed by its own reflection at the same [x] and width.  Bar [i]
    shows an existing bin: bin [4 * i] for buffers of up to 512 bins and
    the bin at [i * length / 128] for longer ones (in either case possibly
    the bin before it, by rounding).  Its height is
    [bin / 255 * 0.8 * canvasHeight], times 1.2 on a beat, to within
    [canvasHeight / 10^9], and never more than 0.81 (0.97 on a beat) of
    the canvas height; the bar stands on the bottom edge and stays on the
    canvas.  The reflection starts at the bottom edge, is drawn at
    opacity 0.2, and its height is minus a fifth of the bar's. *)
Theorem X23_bars_show_existing_bins (frequencyData : list byte)
    (canvasWidth canvasHeight : nat) (beatDetected : bool)
    (bassEnergy : number) (ctx : Context2D) :
  let after :=
    drawBarSpectrum frequencyData canvasWidth canvasHeight beatDetected
                    bassEnergy ctx in
  let H := inject_Z (Z.of_nat canvasHeight) in
  let scale := (if beatDetected then 12 # 10 else 1)%Q in
  let top := (if beatDetected then 97 # 100 else 81 # 100)%Q in
  let count := Nat.min ((length frequencyData + 3) / 4) 128 in
  exists rects,
    ops after = ops ctx ++ rects
    /\ length rects = 2 * count
    /\ forall i, i < count ->
         exists x wd a y bh rh b k,
           take 2 (drop (i * 2) rects)
           = [FillRect x (Fin y) wd (Fin bh) (fillStyle after) a;
              FillRect x (Fin H) wd (Fin rh) (fillStyle after) (Fin (2 # 10))]
           /\ frequencyData !! k = Some b
           /\ (length frequencyData <= 512 -> k <= 4 * i /\ 4 * i < k + 2)
           /\ (512 <= length frequencyData ->
               k * 128 <= i * length frequencyData
               /\ i * length frequencyData < (k + 2) * 128)
           /\ (inject_Z (Z.of_N (Byte.to_N b)) / 255 * H * (8 # 10) * scale
               - H * (1 # 1000000000) <= bh)%Q
           /\ (bh <= inject_Z (Z.of_N (Byte.to_N b)) / 255 * H * (8 # 10) * scale
                     + H * (1 # 1000000000))%Q
           /\ (0 <= bh)%Q /\ (bh <= top * H)%Q
           /\ (0 <= y)%Q /\ (y <= H)%Q
           /\ (H - bh - H * (1 # 1000000000) <= y)%Q
           /\ (y <= H - bh + H * (1 # 1000000000))%Q
           /\ (- (21 # 100) * bh <= rh)%Q /\ (rh <= - (19 # 100) * bh)%Q.
Proof.
  cbv zeta. unfold drawBarSpectrum. cbv zeta.
  pose proof (capped_iterations (length frequencyData) 4 128) as Hcount.
  change (inject_Z (Z.pos 4)) with 4%Q in Hcount.
  change (inject_Z (Z.pos 128)) with 128%Q in Hcount.
  change (Pos.to_nat 4) with 4 in Hcount.
  change (Pos.to_nat 128) with 128 in Hcount.
  replace (length frequencyData + 4 - 1) with (length frequencyData + 3)
    in Hcount by lia.
  destruct (capped_bound (length frequencyData) 4 128)
    as (bc & Ebc & Hbc & Hrun); [lra|].
  rewrite Ebc in Hcount |- *.
  pose proof (of_nat_nonneg canvasHeight) as HH.
  match goal with |- context [for_lt ?bd ?body ?c0] =>
    destruct (ops_loop_indexed 2
      (fun i os =>
         exists x wd a y bh rh b k,
           os = [FillRect x (Fin y) wd (Fin bh) (fillStyle c0) a;
                 FillRect x (Fin (inject_Z (Z.of_nat canvasHeight))) wd (Fin rh)
                          (fillStyle c0) (Fin (2 # 10))]
           /\ frequencyData !! k = Some b
           /\ (length frequencyData <= 512 -> k <= 4 * i /\ 4 * i < k + 2)
           /\ (512 <= length frequencyData ->
               k * 128 <= i * length frequencyData
               /\ i * length frequencyData < (k + 2) * 128)
           /\ (inject_Z (Z.of_N (Byte.to_N b)) / 255
                 * inject_Z (Z.of_nat canvasHeight) * (8 # 10)
                 * (if beatDetected then 12 # 10 else 1)
               - inject_Z (Z.of_nat canvasHeight) * (1 # 1000000000) <= bh)%Q
           /\ (bh <= inject_Z (Z.of_N (Byte.to_N b)) / 255
                       * inject_Z (Z.of_nat canvasHeight) * (8 # 10)
                       * (if beatDetected then 12 # 10 else 1)
                     + inject_Z (Z.of_nat canvasHeight) * (1 # 1000000000))%Q
           /\ (0 <= bh)%Q
           /\ (bh <= (if beatDetected then 97 # 100 else 81 # 100)
                     * inject_Z (Z.of_nat canvasHeight))%Q
           /\ (0 <= y)%Q /\ (y <= inject_Z (Z.of_nat canvasHeight))%Q
           /\ (inject_Z (Z.of_nat canvasHeight) - bh
               - inject_Z (Z.of_nat canvasHeight) * (1 # 1000000000) <= y)%Q
           /\ (y <= inject_Z (Z.of_nat canvasHeight) - bh
                    + inject_Z (Z.of_nat canvasHeight) * (1 # 1000000000))%Q
           /\ (- (21 # 100) * bh <= rh)%Q /\ (rh <= - (19 # 100) * bh)%Q)
      (fun c => fillStyle c = fillStyle c0)
      bd body c0) as (Hs & rects & E & L & F)
  end.
  - reflexivity.
  - intros i c Hi Hs. cbv zeta. split; [exact Hs|].
    destruct (Hrun i Hi) as (Hn & Hlt).
    destruct (bin_in_range frequencyData bc i Hn Hlt)
      as (b & k & Hk & Klo & Khi & ->).
    destruct (bin_position (length frequencyData) i k 4 128 bc Hn Hbc Klo Khi)
      as (Pshort & Plong).
    change (Pos.to_nat 4) with 4 in Pshort, Plong.
    change (Pos.to_nat 128) with 128 in Pshort, Plong.
    destruct (level_of_extent b (inject_Z (Z.of_nat canvasHeight)) HH)
      as (L0 & L1).
    destruct (u8_bounds b) as (v & -> & -> & _).
    rewrite div_Fin by (intros E; discriminate E).
    unfold of_nat at 1 2 3, of_Z. cbn [mul].
    eexists [_; _].
    cbn [set_globalAlpha fillRect emit ops globalAlpha fillStyle].
    rewrite <- app_assoc. cbn [app]. rewrite Hs.
    split; [reflexivity|]. split; [reflexivity|].
    destruct beatDetected; cbn [mul sub neg add];
      do 6 eexists; exists b, k;
      (split; [reflexivity|]); (split; [exact Hk|]);
      (split; [intros Hsz; specialize (Pshort ltac:(lia)); lia|]);
      (split; [intros Hsz; specialize (Plong ltac:(lia)); lia|]);
      cbv iota; repeat split; lra.
  - exists rects. rewrite E. split; [reflexivity|].
    split; [rewrite L, Hcount; lia|].
    intros i Hi. rewrite Hs. apply F. rewrite Hcount. exact Hi.
Qed.
Section Spokes.

Context `{Math : MathLib}.


End Spokes.
(** ** What a frame paints first *)

Section Wash.

Context `{Math : MathLib}.

Lemma renderMode_appends (m : VisualizerMode) (a : AudioData)
    (opacity : number) (st : State) :
  exists new, ops (ctx (renderMode m a opacity st)) = ops (ctx st) ++ new.
Proof.
  unfold renderMode. cbv zeta.
  assert (G : forall s0, ops (ctx s0) = ops (ctx st) ->
    exists new,
      ops (ctx match m with
               | bars => with_ctx (drawBarSpectrum (frequencyData a)
                           (canvas_width (ctx s0)) (canvas_height (ctx s0))
                           (beatDetected a) (bassEnergy a)) s0
               | waveform => with_ctx (drawWaveform (timeData a)
                           (canvas_width (ctx s0)) (canvas_height (ctx s0))) s0
               | circular => with_ctx (drawCircularSpectrum (frequencyData a)
                           (canvas_width (ctx s0)) (canvas_height (ctx s0))) s0
               | particles => with_ctx (drawParticles (frequencyData a)
                           (canvas_width (ctx s0)) (canvas_height (ctx s0))
                           (beatDetected a) (bassEnergy a)) s0
               | spectrogram => drawSpectrogram (frequencyData a)
                           (canvas_width (ctx s0)) (canvas_height (ctx s0)) s0
               end) = ops (ctx st) ++ new).
  { intros s0 Hops. destruct m; cbn [with_ctx ctx].
    - destruct (drawBarSpectrum_alphas (frequencyData a)
                  (canvas_width (ctx s0)) (canvas_height (ctx s0))
                  (beatDetected a) (bassEnergy a) (ctx s0))
        as ((new & E & _) & _).
      exists new. now rewrite E, Hops.
    - destruct (drawWaveform_paintsAt (timeData a)
                  (canvas_width (ctx s0)) (canvas_height (ctx s0)) (ctx s0))
        as (_ & new & E & _).
      exists new. now rewrite E, Hops.
    - destruct (drawCircularSpectrum_paintsAt (frequencyData a)
                  (canvas_width (ctx s0)) (canvas_height (ctx s0)) (ctx s0))
        as (_ & new & E & _).
      exists new. now rewrite E, Hops.
    - destruct (drawParticles_paintsAt (frequencyData a)
                  (canvas_width (ctx s0)) (canvas_height (ctx s0))
                  (beatDetected a) (bassEnergy a) (ctx s0))
        as (_ & new & E & _).
      exists new. now rewrite E, Hops.
    - unfold drawSpectrogram. cbv zeta.
      destruct (spectrogramDataRef s0);
        cbn [with_ctx set_spectrogramData ctx putImageData emit ops];
        rewrite Hops; eexists; [reflexivity|].
      now rewrite app_nil_r. }
  destruct (lt opacity (Fin 1)).
  - match goal with |- context [ctx (with_ctx (set_globalAlpha (Fin 1)) ?s)] =>
      change (ops (ctx (with_ctx (set_globalAlpha (Fin 1)) s)))
        with (ops (ctx s))
    end.
    apply G. reflexivity.
  - apply G. reflexivity.
Qed.

Lemma render_wash (a : AudioData) (m : VisualizerMode) (st : State) :
  exists rest,
    ops (ctx (render (Some a) m st))
    = ops (ctx st)
      ++ FillRect (Fin 0) (Fin 0) (of_nat (canvas_width (ctx st)))
           (of_nat (canvas_height (ctx st)))
           (Solid (Rgba 15 23 42 (Fin (1 # 10)))) (globalAlpha (ctx st))
         :: rest.
Proof.
  unfold render. cbv zeta.
  set (s0 := with_ctx _ (with_ctx _ st)).
  assert (H0 : ops (ctx s0)
               = ops (ctx st)
                 ++ [FillRect (Fin 0) (Fin 0) (of_nat (canvas_width (ctx st)))
                       (of_nat (canvas_height (ctx st)))
                       (Solid (Rgba 15 23 42 (Fin (1 # 10))))
                       (globalAlpha (ctx st))]) by reflexivity.
  assert (K : forall s, (exists new, ops (ctx s) = ops (ctx s0) ++ new) ->
            exists rest, ops (ctx s)
              = ops (ctx st)
                ++ FillRect (Fin 0) (Fin 0) (of_nat (canvas_width (ctx st)))
                     (of_nat (canvas_height (ctx st)))
                     (Solid (Rgba 15 23 42 (Fin (1 # 10))))
                     (globalAlpha (ctx st)) :: rest).
  { intros s (new & E). exists new. rewrite E, H0, <- app_assoc. reflexivity. }
  clearbody s0.
  destruct (isTransitioning s0 && lt (transitionProgress s0) (Fin 1));
    [|apply K, renderMode_appends].
  set (s1 := if gt _ (Fin 0) then _ else s0).
  assert (H1 : exists new, ops (ctx s1) = ops (ctx s0) ++ new).
  { subst s1. destruct (gt _ (Fin 0)); [apply renderMode_appends|].
    exists []. now rewrite app_nil_r. }
  clearbody s1.
  set (s2 := if gt _ (Fin 0) then _ else s1).
  assert (H2 : exists new, ops (ctx s2) = ops (ctx s0) ++ new).
  { destruct H1 as (n1 & E1). subst s2. destruct (gt _ (Fin 0)).
    - match goal with |- context [renderMode m a ?o s1] =>
        destruct (renderMode_appends m a o s1) as (n2 & E2)
      end.
      exists (n1 ++ n2). now rewrite E2, E1, <- app_assoc.
    - now exists n1. }
  clearbody s2. apply K.
  destruct (ge _ (Fin 1)); exact H2.
Qed.

(** X25.  Frames never clear the canvas; they wash it.  In every state
    reachable from mounting, a frame with audio data first fills the whole
    canvas with [rgba(15, 23, 42, 0.1)] at full context opacity, and only
    then paints its layers after it; the earlier painting calls stay.  A
    frame without audio data changes nothing. *)
Theorem X25_frame_starts_with_wash (evs : list Event) (m0 : VisualizerMode)
    (w h : nat) (audioData : AudioData) (mode : VisualizerMode) :
  let st := runEvents evs (mount m0 w h) in
  (exists layers,
     ops (ctx (render (Some audioData) mode st))
     = ops (ctx st)
       ++ FillRect (Fin 0) (Fin 0) (of_nat (canvas_width (ctx st)))
            (of_nat (canvas_height (ctx st)))
            (Solid (Rgba 15 23 42 (Fin (1 # 10)))) (Fin 1)
          :: layers)
  /\ render None mode st = st.
Proof.
  cbv zeta. split; [|reflexivity].
  destruct (reachable_invariant evs m0 w h) as (_ & Ha).
  destruct (render_wash audioData mode (runEvents evs (mount m0 w h)))
    as (rest & E).
  exists rest. now rewrite E, Ha.
Qed.

End Wash.
(** * The beat threshold in double precision *)

Section DoubleBeat.

Import PrimFloat.
Local Open Scope float_scope.
Local Open Scope nat_scope.
Local Set Warnings "-inexact-float".








End DoubleBeat.
(** * The cross-fade in double precision *)

Section DoubleFade.

Import PrimFloat.
Local Open Scope float_scope.
Local Open Scope nat_scope.
Local Set Warnings "-inexact-float".

Context `{Math : MathLib}.


Lemma Double_renderMode_alpha (m : VisualizerMode) (a : AudioData)
    (opacity : float) (st : Double.State) :
  globalAlpha (Double.ctx st) = Fin 1 ->
  globalAlpha (Double.ctx (Double.renderMode m a opacity st)) = Fin 1.
Proof.
  intros H. unfold Double.renderMode. cbv zeta. cbn [Double.ctx].
  now apply renderMode_alpha.
Qed.






End DoubleFade.
(** * Ticks after a malformed buffer *)

Lemma bassEnergy_unit (f : list byte) (t : Z) (r : BeatRefs) :
  10 <= length f ->
  inUnitInterval (Beat.bassEnergy (fst (detectBeat f t r))).
Proof.
  intros Hlen.
  assert (Hk : 1 <= length f / 10) by (apply Nat.div_le_lower_bound; lia).
  cbn [detectBeat fst Beat.bassEnergy].
  rewrite (rawBassEnergy_long f Hlen). cbn [div].
  change (Qis0 255) with false. cbn iota.
  eexists. split; [reflexivity|].
  apply bassRatio_bounds; [|lia].
  pose proof (byteSum_bounds (take (length f / 10) f)) as Hb.
  rewrite length_take in Hb.
  assert (Nat.min (length f / 10) (length f) = length f / 10).
  { apply Nat.min_l. apply Nat.Div0.div_le_upper_bound. lia. }
  lia.
Qed.

Lemma bassEnergy_short (f : list byte) (t : Z) (r : BeatRefs) :
  length f < 10 -> Beat.bassEnergy (fst (detectBeat f t r)) = NaN.
Proof.
  intros H. cbn [detectBeat fst Beat.bassEnergy].
  now rewrite (rawBassEnergy_short f H).
Qed.

(** While a [NaN] sample is in the window every tick is analysed (it
    publishes its own energy and appends its own sample) but none reports
    a beat, so the last beat time stays. *)
Lemma run_poisoned_ticks (after : list Tick) :
  forall (r : BeatRefs) (pre post : list number),
    beatHistoryRef r = pre ++ NaN :: post ->
    length post + length after <= 19 ->
    Forall2 (fun (tk : Tick) b =>
               Beat.beatDetected b = false
               /\ (length (fst tk) < 10 -> Beat.bassEnergy b = NaN)
               /\ (10 <= length (fst tk) -> inUnitInterval (Beat.bassEnergy b)))
            after (fst (run after r))
    /\ (exists pre',
          beatHistoryRef (snd (run after r))
          = pre' ++ NaN :: post ++ samples after)
    /\ lastBeatTimeRef (snd (run after r)) = lastBeatTimeRef r.
Proof.
  induction after as [|[f t] rest IH]; intros r pre post Hh Hn.
  - cbn [run fst snd samples map]. split; [constructor|].
    split; [|reflexivity]. exists pre. now rewrite app_nil_r.
  - cbn [length] in Hn. rewrite run_cons_fst, run_cons_snd.
    destruct (nan_persists pre post (rawBassEnergy f)) as (pre' & E); [lia|].
    assert (Hno : Beat.beatDetected (fst (detectBeat f t r)) = false).
    { apply nan_in_history_no_beat. rewrite Hh, E.
      apply in_or_app. right. now left. }
    destruct (IH (snd (detectBeat f t r)) pre' (post ++ [rawBassEnergy f]))
      as (F & (pre'' & H') & L).
    + now rewrite detectBeat_history, Hh.
    + rewrite length_app. cbn [length]. lia.
    + split; [|split].
      * constructor; [|exact F]. cbn [fst].
        split; [exact Hno|]. split;
          [apply bassEnergy_short | apply bassEnergy_unit].
      * exists pre''. rewrite H'. unfold samples. cbn [map fst].
        now rewrite <- app_assoc.
      * rewrite L, detectBeat_last, Hno. reflexivity.
Qed.

(** C3, as amended.  A frequency buffer of fewer than ten bytes is not
    skipped: a [NaN] sample enters the history (with the usual eviction),
    the published beat state becomes [beatDetected = false],
    [bassEnergy = NaN], and the last beat time is unchanged.  The ticks
    that follow are analysed too: each publishes its own energy (a number
    in [0, 1] for a buffer of at least ten bytes) and appends its own
    sample behind the [NaN].  But as long as that [NaN] is among the last
    20 samples, which covers the next 19 ticks, none of them reports a
    beat and the last beat time stays as it was. *)
Theorem C3_short_buffer_is_analysed (f td : list byte) (t : Z)
    (r : BeatRefs) (st : AudioManagerState) (after : list Tick)
    (Hshort : length f < 10) (Hafter : length after <= 19) :
  let '(r', st') := updateAudioData (Some (f, td)) t r st in
  beatHistoryRef r' = pushHistory (beatHistoryRef r) NaN
  /\ lastBeatTimeRef r' = lastBeatTimeRef r
  /\ audioData st' = Some (mkAudioData f td f false NaN)
  /\ Forall2 (fun (tk : Tick) b =>
                Beat.beatDetected b = false
                /\ (length (fst tk) < 10 -> Beat.bassEnergy b = NaN)
                /\ (10 <= length (fst tk) ->
                    inUnitInterval (Beat.bassEnergy b)))
             after (fst (run after r'))
  /\ (exists pre,
        beatHistoryRef (snd (run after r')) = pre ++ NaN :: samples after)
  /\ lastBeatTimeRef (snd (run after r')) = lastBeatTimeRef r.
Proof.
  cbn [updateAudioData detectBeat].
  rewrite (rawBassEnergy_short f Hshort).
  cbn [beatHistoryRef lastBeatTimeRef audioData Beat.beatDetected Beat.bassEnergy].
  rewrite gt_NaN_l. cbn [andb div].
  split; [reflexivity|]. split; [reflexivity|]. split; [reflexivity|].
  assert (Hh : exists pre,
             pushHistory (beatHistoryRef r) NaN = pre ++ NaN :: []).
  { unfold pushHistory. destruct (20 <? _) eqn:E.
    - destruct (beatHistoryRef r) as [|x h]; [discriminate E | now exists h].
    - now exists (beatHistoryRef r). }
  destruct Hh as (pre & Hh).
  destruct (run_poisoned_ticks after
              (mkBeatRefs (pushHistory (beatHistoryRef r) NaN)
                          (lastBeatTimeRef r)) pre [])
    as (F & (pre' & H') & L); [exact Hh | cbn [length]; lia |].
  split; [exact F|]. split; [now exists pre' | exact L].
Qed.

(** C3 at a two-byte buffer from the initial refs, followed by two loud
    ten-byte buffers five seconds apart. *)
Lemma C3_short_buffer_is_analysed_witness :
  length [x01; x02] < 10
  /\ length [(bassBuffer 255, 5000%Z); (bassBuffer 255, 10000%Z)] <= 19
  /\ let '(r', st') :=
       updateAudioData (Some ([x01; x02], [x80; x80])) 0 initialRefs
         (mkAudioManagerState true false None None (Fin 0) (Fin 0) (Fin 1)) in
     beatHistoryRef r' = pushHistory (beatHistoryRef initialRefs) NaN
     /\ lastBeatTimeRef r' = lastBeatTimeRef initialRefs
     /\ audioData st' = Some (mkAudioData [x01; x02] [x80; x80] [x01; x02] false NaN)
     /\ Forall2 (fun (tk : Tick) b =>
                   Beat.beatDetected b = false
                   /\ (length (fst tk) < 10 -> Beat.bassEnergy b = NaN)
                   /\ (10 <= length (fst tk) ->
                       inUnitInterval (Beat.bassEnergy b)))
                [(bassBuffer 255, 5000%Z); (bassBuffer 255, 10000%Z)]
                (fst (run [(bassBuffer 255, 5000%Z); (bassBuffer 255, 10000%Z)] r'))
     /\ (exists pre,
           beatHistoryRef
             (snd (run [(bassBuffer 255, 5000%Z); (bassBuffer 255, 10000%Z)] r'))
           = pre ++ NaN :: samples [(bassBuffer 255, 5000%Z); (bassBuffer 255, 10000%Z)])
     /\ lastBeatTimeRef
          (snd (run [(bassBuffer 255, 5000%Z); (bassBuffer 255, 10000%Z)] r'))
        = lastBeatTimeRef initialRefs.
Proof.
  assert (H1 : length [x01; x02] < 10) by (vm_compute; lia).
  assert (H2 : length [(bassBuffer 255, 5000%Z); (bassBuffer 255, 10000%Z)] <= 19)
    by (vm_compute; lia).
  split; [exact H1|]. split; [exact H2|].
  exact (C3_short_buffer_is_analysed [x01; x02] [x80; x80] 0 initialRefs
           (mkAudioManagerState true false None None (Fin 0) (Fin 0) (Fin 1))
           [(bassBuffer 255, 5000%Z); (bassBuffer 255, 10000%Z)] H1 H2).
Defined.
